(** * Signature Refiner

    A shallow embedding of the two algorithmic pieces of [src/App.jsx]:

    - the per-pixel binarisation loop of [processImage] (the specification's
      [threshold]), run over the flat RGBA byte array of an [ImageData];
    - the crop-rectangle handlers [handleCanvasMouseDown],
      [handleCanvasMouseMove], [handleCanvasMouseUp] and [handleApplyCrop]
      (the specification's [beginDrag], [updateDrag], [endDrag], [applyCrop])
      together with the helpers [isInsideHandle] and [normalizeCrop].

    Numbers.  Every number of the source is an IEEE-754 binary64 value and
    is embedded as one of Rocq's primitive floats, which are the same
    values with the same operations: the luminance of a pixel, and the
    coordinates, sizes, scale factors and comparisons of the crop
    geometry.  Where a statement speaks of the real number a value stands
    for, that number is [F2Q] of the value, a rational. *)

From Stdlib Require Import ZArith QArith Qminmax Qabs Qpower Lqa Lia Floats Uint63 Bool String.
From stdpp Require Import base list.

Set Warnings "-inexact-float".

(* ===================================================================== *)
(** * Part I.  Definitions                                                *)
(* ===================================================================== *)

(** ** Thresholding engine: [processImage], lines 186-211 *)

Module Threshold.

(** Thresholds are React state holding JavaScript numbers. *)
Record ThresholdParams := mkParams {
  luminanceThreshold : float;
  alphaThreshold : float
}.

(** [data[i]] on a [Uint8ClampedArray]: the stored byte (an integer in
    [0, 255], converted exactly), or [undefined] out of range, which
    arithmetic and comparison turn into NaN. *)
Definition js_number (o : option Z) : float :=
  match o with
  | Some v => PrimFloat.of_uint63 (Uint63.of_Z v)
  | None => nan
  end.

(** [a > b] on JavaScript numbers. *)
Definition gtb (a b : float) : bool := PrimFloat.ltb b a.

(** [0.299 * r + 0.587 * g + 0.114 * b], evaluated left to right. *)
Definition luminance (r g b : float) : float :=
  (0.299 * r + 0.587 * g + 0.114 * b)%float.

(** The body of the [for] loop at index [i].  Stores on a typed array that
    fall outside it are dropped, as stdpp's list insert does. *)
Definition processPixel (p : ThresholdParams) (data : list Z) (i : nat) : list Z :=
  let r := js_number (data !! i) in
  let g := js_number (data !! (i + 1)%nat) in
  let b := js_number (data !! (i + 2)%nat) in
  let alpha := js_number (data !! (i + 3)%nat) in
  let luminance := luminance r g b in
  if gtb luminance (luminanceThreshold p) || PrimFloat.ltb alpha (alphaThreshold p)
  then <[(i + 3)%nat := 0%Z]> data
  else <[(i + 3)%nat := 255%Z]>
         (<[(i + 2)%nat := 0%Z]> (<[(i + 1)%nat := 0%Z]> (<[i := 0%Z]> data))).

(** [for (let i = 0; i < data.length; i += 4) { ... }], with the number of
    remaining iterations bounded by [fuel]. *)
Fixpoint processLoop (p : ThresholdParams) (fuel i : nat) (data : list Z) : list Z :=
  match fuel with
  | O => data
  | S fuel' =>
      if (i <? length data)%nat
      then processLoop p fuel' (i + 4)%nat (processPixel p data i)
      else data
  end.

(** The pixel pass of [processImage].  The array has [length data] entries
    and the index advances by four, so [length data] iterations are more
    than the loop can take ([processLoop_fuel] below). *)
Definition processImage (p : ThresholdParams) (data : list Z) : list Z :=
  processLoop p (length data) 0 data.

(** *** Pixel view of a buffer *)

Record Pixel := mkPixel { red : Z; green : Z; blue : Z; alpha : Z }.

(** Pixel number [k] of a flat RGBA array. *)
Definition pixel_at (data : list Z) (k : nat) : option Pixel :=
  match data !! (4 * k)%nat, data !! (4 * k + 1)%nat,
        data !! (4 * k + 2)%nat, data !! (4 * k + 3)%nat with
  | Some r, Some g, Some b, Some a => Some (mkPixel r g b a)
  | _, _, _, _ => None
  end.

(** The flat array of a list of pixels. *)
Fixpoint encode (ps : list Pixel) : list Z :=
  match ps with
  | [] => []
  | px :: ps' => red px :: green px :: blue px :: alpha px :: encode ps'
  end.

Definition is_byte (v : Z) : Prop := (0 <= v <= 255)%Z.

(** PixelBuffer invariant of the data model: positive dimensions, four
    bytes per pixel. *)
Definition wf_buffer (w h : nat) (data : list Z) : Prop :=
  (0 < w)%nat /\ (0 < h)%nat /\ length data = (w * h * 4)%nat /\ Forall is_byte data.

(** Both parameters within the slider range [0, 255]. *)
Definition params_in_range (p : ThresholdParams) : Prop :=
  PrimFloat.leb 0 (luminanceThreshold p) = true /\
  PrimFloat.leb (luminanceThreshold p) 255 = true /\
  PrimFloat.leb 0 (alphaThreshold p) = true /\
  PrimFloat.leb (alphaThreshold p) 255 = true.

(** The two tests of the classification, on a pixel's original channels. *)
Definition fails_luminance (p : ThresholdParams) (px : Pixel) : bool :=
  gtb (luminance (js_number (Some (red px))) (js_number (Some (green px)))
                 (js_number (Some (blue px))))
      (luminanceThreshold p).

Definition fails_alpha (p : ThresholdParams) (px : Pixel) : bool :=
  PrimFloat.ltb (js_number (Some (alpha px))) (alphaThreshold p).

(** What the loop body does to one pixel: a background pixel keeps its
    colour bytes and only loses its alpha; an ink pixel becomes opaque
    black. *)
Definition thresholdPixel (p : ThresholdParams) (px : Pixel) : Pixel :=
  if fails_luminance p px || fails_alpha p px
  then mkPixel (red px) (green px) (blue px) 0
  else mkPixel 0 0 0 255.

Definition background : Pixel := mkPixel 0 0 0 0.
Definition ink : Pixel := mkPixel 0 0 0 255.

Definition is_ink (px : Pixel) : Prop := alpha px = 255%Z.
Definition is_background (px : Pixel) : Prop := alpha px = 0%Z.

(** The 4x1 image of the specification's example, and its parameters. *)
Definition example_image : list Z :=
  [10; 10; 10; 255;  250; 250; 250; 255;  0; 0; 0; 10;  0; 0; 0; 200]%Z.
Definition example_params : ThresholdParams := mkParams 200 50.

End Threshold.

(** ** JavaScript numbers *)

Module JSNumber.

(** [Number.isNaN]. *)
Definition is_nan (a : float) : bool := negb (PrimFloat.eqb a a).

Definition is_neg_zero (a : float) : bool :=
  match PrimFloat.classify a with NZero => true | _ => false end.

Definition is_pos_zero (a : float) : bool :=
  match PrimFloat.classify a with PZero => true | _ => false end.

(** [Math.max(a, b)]: NaN if either argument is NaN; [+0] counts as larger
    than [-0]. *)
Definition Math_max (a b : float) : float :=
  if is_nan a || is_nan b then nan
  else if PrimFloat.ltb a b then b
  else if is_neg_zero a && is_pos_zero b then b
  else a.

(** [Math.min(a, b)]: NaN if either argument is NaN; [-0] counts as smaller
    than [+0]. *)
Definition Math_min (a b : float) : float :=
  if is_nan a || is_nan b then nan
  else if PrimFloat.ltb b a then b
  else if is_pos_zero a && is_neg_zero b then b
  else a.

(** [a > b] and [a >= b]. *)
Definition gtb (a b : float) : bool := PrimFloat.ltb b a.
Definition geb (a b : float) : bool := PrimFloat.leb b a.

(** A number that is neither NaN nor infinite. *)
Definition is_finite (a : float) : bool :=
  match Prim2SF a with
  | S754_zero _ | S754_finite _ _ _ => true
  | _ => false
  end.

(** The real number a finite binary64 value stands for, as a rational:
    sign, mantissa and exponent read off the value.  (Infinities and NaN
    are sent to [0]; the statements that use [F2Q] ask for finite
    values.) *)
Definition F2Q (a : float) : Q :=
  match Prim2SF a with
  | S754_finite s m e => inject_Z (if s then Zneg m else Zpos m) * Qpower 2 e
  | _ => 0
  end.

(** The same value counted in units of [2^-1074], the smallest positive
    binary64 number: an integer. *)
Definition scaled (a : float) : Z :=
  match Prim2SF a with
  | S754_finite s m e => ((if s then Z.neg m else Z.pos m) * 2 ^ (e + 1074))%Z
  | _ => 0%Z
  end.

(** The unit roundoff of binary64, [2^-53]: rounding to nearest changes
    a value by at most this fraction of the result. *)
Definition unit_roundoff : Q := 1 # 9007199254740992.

(** The binary64 sum [a + b], resp. difference [a - b], is finite and
    carries no rounding error. *)
Definition exact_sum (a b : float) : Prop :=
  is_finite (a + b) = true /\ (F2Q (a + b) == F2Q a + F2Q b)%Q.

Definition exact_diff (a b : float) : Prop :=
  is_finite (a - b) = true /\ (F2Q (a - b) == F2Q a - F2Q b)%Q.

(** An unsigned integer as a JavaScript number: the conversion is exact
    below [2^53]. *)
Definition number_of_N (n : N) : float :=
  PrimFloat.of_uint63 (Uint63.of_Z (Z.of_N n)).

(** The values of a WebIDL [unsigned long], the type of [canvas.width],
    [canvas.height], [img.width] and [img.height]. *)
Definition unsigned_long (n : N) : Prop := (n < 2 ^ 32)%N.

End JSNumber.

(** ** Crop geometry controller: lines 38-89 and 326-503

    Coordinates and sizes are JavaScript numbers: every sum, difference,
    product, quotient and comparison below is the binary64 one. *)

Module Crop.
Import JSNumber.

Local Open Scope float_scope.

(** Constants for resize handle size (line 38). *)
Definition HANDLE_SIZE : float := 12.

(** The [{ x, y }] objects of the source: pointer coordinates as returned by
    [getCanvasCoords], [dragOffset] and [startPoint]. *)
Record Point := mkPoint { px : float; py : float }.

(** The [crop] state: [{ x, y, width, height }]. *)
Record CropRect := mkCrop { x : float; y : float; width : float; height : float }.

(** [dragMode] is one of these strings, or [null] ([None]) outside a drag. *)
Inductive DragMode := Move | Nw | Ne | Sw | Se | Draw.

(** [currentCursor]. *)
Inductive Cursor :=
  CDefault | Crosshair | Grab | NwResize | NeResize | SwResize | SeResize.

(** The processed canvas: its pixel size ([canvas.width], [canvas.height],
    unsigned integers) and its on-screen size ([getBoundingClientRect],
    numbers). *)
Record Canvas := mkCanvas {
  canvas_width : N;
  canvas_height : N;
  client_width : float;
  client_height : float
}.

(** [isInsideHandle], lines 64-69. *)
Definition isInsideHandle (mouseX mouseY handleX handleY : float) : bool :=
  geb mouseX (handleX - HANDLE_SIZE / 2) &&
  PrimFloat.leb mouseX (handleX + HANDLE_SIZE / 2) &&
  geb mouseY (handleY - HANDLE_SIZE / 2) &&
  PrimFloat.leb mouseY (handleY + HANDLE_SIZE / 2).

(** [normalizeCrop], lines 78-89. *)
Definition normalizeCrop (crop : CropRect) : CropRect :=
  let x0 := x crop in
  let y0 := y crop in
  let width0 := width crop in
  let height0 := height crop in
  let '(x1, width1) :=
    if PrimFloat.ltb width0 0 then (x0 + width0, PrimFloat.abs width0)
    else (x0, width0) in
  let '(y1, height1) :=
    if PrimFloat.ltb height0 0 then (y0 + height0, PrimFloat.abs height0)
    else (y0, height0) in
  mkCrop x1 y1 width1 height1.

(** The part of the component state the crop handlers read and write. *)
Record AppState := mkState {
  processedImageUrl : option string;
  isLoading : bool;
  error : string;
  isCropping : bool;
  isDragging : bool;
  dragMode : option DragMode;
  crop : CropRect;
  dragOffset : Point;
  startPoint : Point;
  currentCursor : Cursor
}.

(** The state setters. *)
Definition setProcessedImageUrl (v : option string) (s : AppState) : AppState :=
  mkState v (isLoading s) (error s) (isCropping s) (isDragging s) (dragMode s)
          (crop s) (dragOffset s) (startPoint s) (currentCursor s).
Definition setIsLoading (v : bool) (s : AppState) : AppState :=
  mkState (processedImageUrl s) v (error s) (isCropping s) (isDragging s) (dragMode s)
          (crop s) (dragOffset s) (startPoint s) (currentCursor s).
Definition setError (v : string) (s : AppState) : AppState :=
  mkState (processedImageUrl s) (isLoading s) v (isCropping s) (isDragging s) (dragMode s)
          (crop s) (dragOffset s) (startPoint s) (currentCursor s).
Definition setIsCropping (v : bool) (s : AppState) : AppState :=
  mkState (processedImageUrl s) (isLoading s) (error s) v (isDragging s) (dragMode s)
          (crop s) (dragOffset s) (startPoint s) (currentCursor s).
Definition setIsDragging (v : bool) (s : AppState) : AppState :=
  mkState (processedImageUrl s) (isLoading s) (error s) (isCropping s) v (dragMode s)
          (crop s) (dragOffset s) (startPoint s) (currentCursor s).
Definition setDragMode (v : option DragMode) (s : AppState) : AppState :=
  mkState (processedImageUrl s) (isLoading s) (error s) (isCropping s) (isDragging s) v
          (crop s) (dragOffset s) (startPoint s) (currentCursor s).
Definition setCrop (v : CropRect) (s : AppState) : AppState :=
  mkState (processedImageUrl s) (isLoading s) (error s) (isCropping s) (isDragging s)
          (dragMode s) v (dragOffset s) (startPoint s) (currentCursor s).
Definition setDragOffset (v : Point) (s : AppState) : AppState :=
  mkState (processedImageUrl s) (isLoading s) (error s) (isCropping s) (isDragging s)
          (dragMode s) (crop s) v (startPoint s) (currentCursor s).
Definition setStartPoint (v : Point) (s : AppState) : AppState :=
  mkState (processedImageUrl s) (isLoading s) (error s) (isCropping s) (isDragging s)
          (dragMode s) (crop s) (dragOffset s) v (currentCursor s).
Definition setCurrentCursor (v : Cursor) (s : AppState) : AppState :=
  mkState (processedImageUrl s) (isLoading s) (error s) (isCropping s) (isDragging s)
          (dragMode s) (crop s) (dragOffset s) (startPoint s) v.

(** [x > crop.x && x < crop.x + crop.width && y > crop.y && y < crop.y +
    crop.height], the interior test of lines 342 and 371. *)
Definition insideCrop (mx my : float) (c : CropRect) : bool :=
  gtb mx (x c) && PrimFloat.ltb mx (x c + width c) &&
  gtb my (y c) && PrimFloat.ltb my (y c + height c).

(** [handleCanvasMouseDown], lines 326-352; [pt] is the result of
    [getCanvasCoords]. *)
Definition handleCanvasMouseDown (st : AppState) (pt : Point) : AppState :=
  if negb (isCropping st) || isLoading st then st
  else
    let c := crop st in
    let st := setIsDragging true st in
    let mx := px pt in
    let my := py pt in
    if isInsideHandle mx my (x c) (y c) then setDragMode (Some Nw) st
    else if isInsideHandle mx my (x c + width c) (y c) then setDragMode (Some Ne) st
    else if isInsideHandle mx my (x c) (y c + height c) then setDragMode (Some Sw) st
    else if isInsideHandle mx my (x c + width c) (y c + height c) then
      setDragMode (Some Se) st
    else if insideCrop mx my c then
      setDragOffset (mkPoint (mx - x c) (my - y c)) (setDragMode (Some Move) st)
    else
      setCrop (mkCrop mx my 0 0) (setStartPoint (mkPoint mx my) (setDragMode (Some Draw) st)).

(** The cursor feedback of [handleCanvasMouseMove], lines 362-378. *)
Definition hoverCursor (st : AppState) (currentX currentY : float) : AppState :=
  let c := crop st in
  if isCropping st && negb (isDragging st) then
    if isInsideHandle currentX currentY (x c) (y c) then setCurrentCursor NwResize st
    else if isInsideHandle currentX currentY (x c + width c) (y c) then
      setCurrentCursor NeResize st
    else if isInsideHandle currentX currentY (x c) (y c + height c) then
      setCurrentCursor SwResize st
    else if isInsideHandle currentX currentY (x c + width c) (y c + height c) then
      setCurrentCursor SeResize st
    else if insideCrop currentX currentY c then setCurrentCursor Grab st
    else setCurrentCursor Crosshair st
  else if negb (isCropping st) then setCurrentCursor CDefault st
  else st.

(** The updater passed to [setCrop] in [handleCanvasMouseMove], lines
    383-442: the specification's [updateDrag]. *)
Definition updateDrag (canvas : Canvas) (mode : option DragMode)
    (dragOffset startPoint : Point) (currentX currentY : float)
    (prevCrop : CropRect) : CropRect :=
  let temp :=
    match mode with
    | Some Move =>
        Some (mkCrop (currentX - px dragOffset) (currentY - py dragOffset)
                     (width prevCrop) (height prevCrop))
    | Some Draw =>
        Some (mkCrop (px startPoint) (py startPoint)
                     (currentX - px startPoint) (currentY - py startPoint))
    | Some Nw =>
        Some (mkCrop currentX currentY
                     (width prevCrop + (x prevCrop - currentX))
                     (height prevCrop + (y prevCrop - currentY)))
    | Some Ne =>
        Some (mkCrop (x prevCrop) currentY
                     (currentX - x prevCrop)
                     (height prevCrop + (y prevCrop - currentY)))
    | Some Sw =>
        Some (mkCrop currentX (y prevCrop)
                     (width prevCrop + (x prevCrop - currentX))
                     (currentY - y prevCrop))
    | Some Se =>
        Some (mkCrop (x prevCrop) (y prevCrop)
                     (currentX - x prevCrop) (currentY - y prevCrop))
    | None => None
    end in
  match temp with
  | None => prevCrop
  | Some t =>
      let normalized := normalizeCrop t in
      let cw := number_of_N (canvas_width canvas) in
      let ch := number_of_N (canvas_height canvas) in
      let finalX := Math_max 0 (Math_min (x normalized) (cw - width normalized)) in
      let finalY := Math_max 0 (Math_min (y normalized) (ch - height normalized)) in
      let finalWidth :=
        if gtb (finalX + width normalized) cw then cw - finalX
        else width normalized in
      let finalHeight :=
        if gtb (finalY + height normalized) ch then ch - finalY
        else height normalized in
      mkCrop finalX finalY finalWidth finalHeight
  end.

(** [handleCanvasMouseMove], lines 357-443. *)
Definition handleCanvasMouseMove (canvas : Canvas) (st : AppState) (pt : Point)
    : AppState :=
  let currentX := px pt in
  let currentY := py pt in
  let st' := hoverCursor st currentX currentY in
  if negb (isDragging st) || negb (isCropping st) || isLoading st then st'
  else
    setCrop (updateDrag canvas (dragMode st) (dragOffset st) (startPoint st)
                        currentX currentY (crop st')) st'.

(** [handleCanvasMouseUp], lines 448-454. *)
Definition handleCanvasMouseUp (st : AppState) : AppState :=
  let st' := setDragMode None (setIsDragging false st) in
  if isCropping st then setCurrentCursor Crosshair st' else st'.

Definition invalidCropMessage : string := "Please select a valid crop area first.".

(** [!processedImageUrl]: [null] and the empty string are falsy. *)
Definition noUrl (url : option string) : bool :=
  match url with
  | None | Some EmptyString => true
  | Some _ => false
  end.

(** [handleApplyCrop], lines 459-503.  [canvas] is [processedCanvasRef.current]
    ([None] for [null]); [toDataURL cv ax ay aw ah] stands for the data URL of
    the temporary canvas after [drawImage] copied the region at [(ax, ay)] of
    size [aw] by [ah] from the source canvas: drawing and PNG encoding are the
    browser's.  [crop.width === 0] is the binary64 equality, which holds of
    both zeros and of no NaN. *)
Definition handleApplyCrop
    (toDataURL : Canvas -> float -> float -> float -> float -> string)
    (canvas : option Canvas) (st : AppState) : AppState :=
  let c := crop st in
  match canvas with
  | None => setError invalidCropMessage st
  | Some sourceCanvas =>
      if noUrl (processedImageUrl st) || PrimFloat.eqb (width c) 0
         || PrimFloat.eqb (height c) 0
      then setError invalidCropMessage st
      else
        let st := setError EmptyString (setIsLoading true st) in
        let scaleX := number_of_N (canvas_width sourceCanvas) / client_width sourceCanvas in
        let scaleY := number_of_N (canvas_height sourceCanvas) / client_height sourceCanvas in
        let actualCropX := x c * scaleX in
        let actualCropY := y c * scaleY in
        let actualCropWidth := width c * scaleX in
        let actualCropHeight := height c * scaleY in
        setCrop (mkCrop 0 0 0 0)
          (setIsCropping false
             (setIsLoading false
                (setProcessedImageUrl
                   (Some (toDataURL sourceCanvas actualCropX actualCropY
                                    actualCropWidth actualCropHeight))
                   st)))
  end.

(** *** The specification's vocabulary *)

(** The four corner handles; [rank] is the order in which
    [handleCanvasMouseDown] tests them. *)
Inductive Corner := CornerNW | CornerNE | CornerSW | CornerSE.

Definition rank (c : Corner) : nat :=
  match c with CornerNW => 0 | CornerNE => 1 | CornerSW => 2 | CornerSE => 3 end.

Definition earlier (c' c : Corner) : Prop := (rank c' < rank c)%nat.

Definition corner_mode (c : Corner) : DragMode :=
  match c with CornerNW => Nw | CornerNE => Ne | CornerSW => Sw | CornerSE => Se end.

(** Where the code puts a corner: the far edges are the binary64 sums
    [x + width] and [y + height]. *)
Definition corner_x (r : CropRect) (c : Corner) : float :=
  match c with CornerNW | CornerSW => x r | CornerNE | CornerSE => x r + width r end.

Definition corner_y (r : CropRect) (c : Corner) : float :=
  match c with CornerNW | CornerNE => y r | CornerSW | CornerSE => y r + height r end.

(** The square hit-zone of half-width [6] around a handle at [(hx, hy)], as
    binary64 measures it: the bounds are the numbers [hx - 6], [hx + 6],
    [hy - 6], [hy + 6], and both ends of each range belong to the zone. *)
Definition in_hit_zone (pt : Point) (hx hy : float) : Prop :=
  PrimFloat.leb (hx - 6) (px pt) = true /\ PrimFloat.leb (px pt) (hx + 6) = true /\
  PrimFloat.leb (hy - 6) (py pt) = true /\ PrimFloat.leb (py pt) (hy + 6) = true.

(** The pointer is in the hit-zone of corner [c] of [r]. *)
Definition hits (pt : Point) (r : CropRect) (c : Corner) : Prop :=
  in_hit_zone pt (corner_x r c) (corner_y r c).

(** The handler's own test of corner [c]: [isInsideHandle] at that corner. *)
Definition hitsb (pt : Point) (r : CropRect) (c : Corner) : bool :=
  isInsideHandle (px pt) (py pt) (corner_x r c) (corner_y r c).

(** Strictly inside the rectangle, against the far edges [x + width] and
    [y + height] as binary64 computes them. *)
Definition strictly_inside (pt : Point) (r : CropRect) : Prop :=
  PrimFloat.ltb (x r) (px pt) = true /\ PrimFloat.ltb (px pt) (x r + width r) = true /\
  PrimFloat.ltb (y r) (py pt) = true /\ PrimFloat.ltb (py pt) (y r + height r) = true.

(** *** Exact geometry

    The specification speaks of real rectangles and points.  The real
    number a finite field holds is [F2Q] of it; sums of such values below
    are exact sums of rationals. *)

Definition finite_rect (r : CropRect) : Prop :=
  is_finite (x r) = true /\ is_finite (y r) = true /\
  is_finite (width r) = true /\ is_finite (height r) = true.

(** [v] lies between [a] and [b], whichever is the smaller. *)
Definition between (a b v : Q) : Prop := (Qmin a b <= v /\ v <= Qmax a b)%Q.

(** The footprint of a rectangle whose width or height may be negative: the
    real points between its origin and the opposite corner. *)
Definition covers (r : CropRect) (vx vy : Q) : Prop :=
  between (F2Q (x r)) (F2Q (x r) + F2Q (width r)) vx /\
  between (F2Q (y r)) (F2Q (y r) + F2Q (height r)) vy.

(** The rectangle lies inside the canvas, in exact arithmetic. *)
Definition contained (canvas : Canvas) (r : CropRect) : Prop :=
  (0 <= F2Q (x r) /\ 0 <= F2Q (y r) /\
   F2Q (x r) + F2Q (width r) <= inject_Z (Z.of_N (canvas_width canvas)) /\
   F2Q (y r) + F2Q (height r) <= inject_Z (Z.of_N (canvas_height canvas)) /\
   0 <= F2Q (width r) /\ 0 <= F2Q (height r))%Q.

(** One axis of a rectangle on a canvas of size [n]: the origin [v] and
    the size [s] are finite and not below [0], and the exact far edge
    [v + s] is beyond [n] by at most the fraction [unit_roundoff] of
    [n]. *)
Definition axis_nearly_inside (n : N) (v s : float) : Prop :=
  is_finite v = true /\ is_finite s = true /\
  (0 <= F2Q v /\ 0 <= F2Q s /\
   F2Q v + F2Q s <= inject_Z (Z.of_N n) * (1 + unit_roundoff))%Q.

(** What the boundary check of [updateDrag] leaves.  No field is below
    [0]: each is at least [0] unless it is NaN.  The far edges
    [x + width] and [y + height], as binary64 computes them, do not
    exceed the canvas size.  On each axis, when origin and size are
    numbers, the exact far edge is beyond the canvas size by at most the
    fraction [unit_roundoff] of it, and not at all when the sum of origin
    and size carries no rounding error. *)
Definition clamped (canvas : Canvas) (r : CropRect) : Prop :=
  (PrimFloat.leb 0 (x r) = true \/ is_nan (x r) = true) /\
  (PrimFloat.leb 0 (y r) = true \/ is_nan (y r) = true) /\
  (PrimFloat.leb 0 (width r) = true \/ is_nan (width r) = true) /\
  (PrimFloat.leb 0 (height r) = true \/ is_nan (height r) = true) /\
  PrimFloat.ltb (number_of_N (canvas_width canvas)) (x r + width r) = false /\
  PrimFloat.ltb (number_of_N (canvas_height canvas)) (y r + height r) = false /\
  (is_nan (x r) = false -> is_nan (width r) = false ->
   axis_nearly_inside (canvas_width canvas) (x r) (width r)) /\
  (is_nan (y r) = false -> is_nan (height r) = false ->
   axis_nearly_inside (canvas_height canvas) (y r) (height r)) /\
  (exact_sum (x r) (width r) ->
   (F2Q (x r) + F2Q (width r) <= inject_Z (Z.of_N (canvas_width canvas)))%Q) /\
  (exact_sum (y r) (height r) ->
   (F2Q (y r) + F2Q (height r) <= inject_Z (Z.of_N (canvas_height canvas)))%Q).

Definition finite_point (pt : Point) : Prop :=
  is_finite (px pt) = true /\ is_finite (py pt) = true.

(** The exact position of corner [c] of [r]. *)
Definition exact_corner_x (r : CropRect) (c : Corner) : Q :=
  match c with
  | CornerNW | CornerSW => F2Q (x r)
  | CornerNE | CornerSE => F2Q (x r) + F2Q (width r)
  end%Q.

Definition exact_corner_y (r : CropRect) (c : Corner) : Q :=
  match c with
  | CornerNW | CornerNE => F2Q (y r)
  | CornerSW | CornerSE => F2Q (y r) + F2Q (height r)
  end%Q.

(** The closed square of half-width [6] centred on the exact position of
    corner [c] of [r]: the specification's hit-zone. *)
Definition in_exact_zone (pt : Point) (r : CropRect) (c : Corner) : Prop :=
  (Qabs (F2Q (px pt) - exact_corner_x r c) <= 6 /\
   Qabs (F2Q (py pt) - exact_corner_y r c) <= 6)%Q.

(** Both distances from the exact corner are exactly [6]. *)
Definition on_exact_zone_corner (pt : Point) (r : CropRect) (c : Corner) : Prop :=
  (Qabs (F2Q (px pt) - exact_corner_x r c) == 6 /\
   Qabs (F2Q (py pt) - exact_corner_y r c) == 6)%Q.

(** Strictly inside the exact rectangle. *)
Definition strictly_inside_exact (pt : Point) (r : CropRect) : Prop :=
  (F2Q (x r) < F2Q (px pt) /\ F2Q (px pt) < F2Q (x r) + F2Q (width r) /\
   F2Q (y r) < F2Q (py pt) /\ F2Q (py pt) < F2Q (y r) + F2Q (height r))%Q.

(** The position of corner [c] of [r] and the four bounds of its hit-zone
    are computed without rounding error. *)
Definition zone_exact (r : CropRect) (c : Corner) : Prop :=
  is_finite (corner_x r c) = true /\ is_finite (corner_y r c) = true /\
  (F2Q (corner_x r c) == exact_corner_x r c)%Q /\
  (F2Q (corner_y r c) == exact_corner_y r c)%Q /\
  exact_diff (corner_x r c) 6 /\ exact_sum (corner_x r c) 6 /\
  exact_diff (corner_y r c) 6 /\ exact_sum (corner_y r c) 6.

(** The far edges [x + width] and [y + height] of a rectangle of finite
    numbers are computed without rounding error. *)
Definition far_edges_exact (r : CropRect) : Prop :=
  finite_rect r /\ exact_sum (x r) (width r) /\ exact_sum (y r) (height r).

(** A pointer on one of the four corners of the square hit-zone as the
    code measures it around [(hx, hy)]: each coordinate is one of the
    zone's own bounds. *)
Definition on_zone_corner (pt : Point) (hx hy : float) : Prop :=
  (px pt = hx - 6 \/ px pt = hx + 6) /\ (py pt = hy - 6 \/ py pt = hy + 6).

(** The measured zone around [(hx, hy)] has its lower bounds at or below
    its upper bounds; this can fail only when a bound is NaN. *)
Definition zone_bounds_ordered (hx hy : float) : Prop :=
  PrimFloat.leb (hx - 6) (hx + 6) = true /\ PrimFloat.leb (hy - 6) (hy + 6) = true.

(** The pointer is on the edge of the hit-zone of corner [c], at distance
    [6] from the corner on both axes: of the exact zone, when the zone is
    computed without rounding error, or of the zone as measured. *)
Definition on_zone_edge (pt : Point) (r : CropRect) (c : Corner) : Prop :=
  (zone_exact r c /\ finite_point pt /\ on_exact_zone_corner pt r c) \/
  (zone_bounds_ordered (corner_x r c) (corner_y r c) /\
   on_zone_corner pt (corner_x r c) (corner_y r c)).

(** A state in crop mode holding the rectangle [r], no drag active. *)
Definition cropping_state (r : CropRect) : AppState :=
  mkState (Some "data:image/png;base64,"%string) false EmptyString true false None
          r (mkPoint 0 0) (mkPoint 0 0) Crosshair.

(** The rectangle of the specification's [beginDrag] example. *)
Definition example_rect : CropRect := mkCrop 0 0 10 10.

(** A 100 by 50 canvas shown at its pixel size. *)
Definition example_canvas : Canvas := mkCanvas 100 50 100 50.

End Crop.

(** ** The rest of the component: state hooks, buttons, upload, drawing *)

Module App.
Import JSNumber Crop.
Local Open Scope float_scope.

(** The initial values of the state hooks, lines 11-30. *)
Definition initialState : AppState :=
  mkState None false EmptyString false false None (mkCrop 0 0 0 0)
          (mkPoint 0 0) (mkPoint 0 0) CDefault.

(** [{ x: 0, y: 0, width: canvas.width, height: canvas.height }]. *)
Definition fullCanvasCrop (canvas : Canvas) : CropRect :=
  mkCrop 0 0 (number_of_N (canvas_width canvas)) (number_of_N (canvas_height canvas)).

(** The state writes of [processImage], lines 155-220.  [result] is [None]
    when the function returns at its first test (a ref is not ready), and
    otherwise the data URL [processedCanvas.toDataURL] gives after the pixel
    pass. *)
Definition processImageState (result : option string) (st : AppState) : AppState :=
  match result with
  | None => st
  | Some url =>
      setIsLoading false
        (setProcessedImageUrl (Some url)
           (setError EmptyString (setIsLoading true st)))
  end.

(** [onClick] of "Crop Image", lines 664-671. *)
Definition onCropImageClick (canvas : option Canvas) (st : AppState) : AppState :=
  let st := setIsCropping true st in
  match canvas with
  | Some cv => setCrop (fullCanvasCrop cv) st
  | None => st
  end.

(** [onClick] of "Cancel", lines 695-699. *)
Definition onCancelClick (reprocessed : option string) (st : AppState) : AppState :=
  processImageState reprocessed (setCrop (mkCrop 0 0 0 0) (setIsCropping false st)).

(** [onClick] of "Reset Crop", lines 706-711. *)
Definition onResetCropClick (canvas : option Canvas) (st : AppState) : AppState :=
  match canvas with
  | Some cv => setCrop (fullCanvasCrop cv) st
  | None => st
  end.

(** [img.onload], lines 272-277: [processImage()], then the crop is set to
    the image's size. *)
Definition onImageLoad (reprocessed : option string) (imgWidth imgHeight : N)
    (st : AppState) : AppState :=
  setCrop (mkCrop 0 0 (number_of_N imgWidth) (number_of_N imgHeight))
          (processImageState reprocessed st).

(** [img.onerror] and [reader.onerror], lines 278-287. *)
Definition onLoadError (message : string) (st : AppState) : AppState :=
  setIsLoading false (setError message st).

(** An uploaded file, as far as [handleImageUpload] looks at it. *)
Record File := mkFile { file_name : string; file_type : string }.

Definition notAnImageMessage : string :=
  "Please upload an image file (e.g., PNG, JPG).".

(** [handleImageUpload], lines 227-246, on the [imageFile] hook and the rest
    of the state; [files] is [event.target.files].  (The invalid branch also
    clears [imgRef.current], which the state does not hold.) *)
Definition handleImageUpload (files : list File) (s : option File * AppState)
    : option File * AppState :=
  match files with
  | [] => s
  | file :: _ =>
      if negb (String.prefix "image/" (file_type file)) then
        (None,
         setCrop (mkCrop 0 0 0 0)
           (setIsCropping false
              (setProcessedImageUrl None (setError notAnImageMessage (snd s)))))
      else
        (Some file,
         setCrop (mkCrop 0 0 0 0)
           (setIsCropping false
              (setError EmptyString (setProcessedImageUrl None (snd s)))))
  end.

(** The events the component reacts to, with what the browser supplies to
    each handler. *)
Inductive Event :=
| MouseDown (pt : Point)
| MouseMove (canvas : Canvas) (pt : Point)
| MouseUp
| CropImageClick (canvas : option Canvas)
| ApplyCropClick (canvas : option Canvas)
| CancelClick (reprocessed : option string)
| ResetCropClick (canvas : option Canvas)
| Upload (files : list File)
| FileReadStart
| ImageLoad (reprocessed : option string) (imgWidth imgHeight : N)
| LoadError (message : string)
| Reprocess (reprocessed : option string).

(** One event, handled to completion.  [MouseUp] stands for mouse-up,
    mouse-leave, touch-end and touch-cancel, which share a handler;
    [FileReadStart] is the [setIsLoading(true)] of the load effect (line
    267); [Reprocess] is the effect of lines 294-298. *)
Definition step (toDataURL : Canvas -> float -> float -> float -> float -> string)
    (s : option File * AppState) (ev : Event) : option File * AppState :=
  let st := snd s in
  match ev with
  | MouseDown pt => (fst s, handleCanvasMouseDown st pt)
  | MouseMove canvas pt => (fst s, handleCanvasMouseMove canvas st pt)
  | MouseUp => (fst s, handleCanvasMouseUp st)
  | CropImageClick canvas => (fst s, onCropImageClick canvas st)
  | ApplyCropClick canvas => (fst s, handleApplyCrop toDataURL canvas st)
  | CancelClick reprocessed => (fst s, onCancelClick reprocessed st)
  | ResetCropClick canvas => (fst s, onResetCropClick canvas st)
  | Upload files => handleImageUpload files s
  | FileReadStart => (fst s, setIsLoading true st)
  | ImageLoad reprocessed w h => (fst s, onImageLoad reprocessed w h st)
  | LoadError message => (fst s, onLoadError message st)
  | Reprocess reprocessed => (fst s, processImageState reprocessed st)
  end.

(** The state after a sequence of events, from the initial render. *)
Definition run (toDataURL : Canvas -> float -> float -> float -> float -> string)
    (evs : list Event) : option File * AppState :=
  fold_left (step toDataURL) evs (None, initialState).

(** A pointer gesture: the moves that follow a pointer-down. *)
Definition dragThrough (canvas : Canvas) (st : AppState) (pts : list Point)
    : AppState :=
  fold_left (handleCanvasMouseMove canvas) pts st.

(** The real point [(vx, vy)] lies in the canvas area. *)
Definition in_canvas (canvas : Canvas) (vx vy : Q) : Prop :=
  (0 <= vx /\ vx <= inject_Z (Z.of_N (canvas_width canvas)) /\
   0 <= vy /\ vy <= inject_Z (Z.of_N (canvas_height canvas)))%Q.

(** The cursor each drag mode is announced with. *)
Definition cursorFor (m : DragMode) : Cursor :=
  match m with
  | Nw => NwResize | Ne => NeResize | Sw => SwResize | Se => SeResize
  | Move => Grab | Draw => Crosshair
  end.

(** *** Drawing: [drawCanvasContent], lines 95-149 *)

(** The calls made on the 2D context that put something on the canvas;
    style settings (fill and stroke colours, line dash) are left out.
    [Arc] is [beginPath; arc(cx, cy, radius, 0, 2 * Math.PI); fill; stroke]. *)
Inductive DrawOp :=
| ClearRect (r : CropRect)
| DrawImage (url : string) (r : CropRect)
| FillRect (r : CropRect)
| StrokeRect (r : CropRect)
| Arc (centre : Point) (radius : float).

(** The four dimming rectangles, lines 116-119: top, bottom, left, right. *)
Definition overlayRects (canvas : Canvas) (c : CropRect) : list CropRect :=
  let cw := number_of_N (canvas_width canvas) in
  let ch := number_of_N (canvas_height canvas) in
  [ mkCrop 0 0 cw (y c);
    mkCrop 0 (y c + height c) cw (ch - (y c + height c));
    mkCrop 0 (y c) (x c) (height c);
    mkCrop (x c + width c) (y c) (cw - (x c + width c)) (height c) ].

(** The [handles] array, lines 133-138. *)
Definition handles (c : CropRect) : list Point :=
  [ mkPoint (x c) (y c);
    mkPoint (x c + width c) (y c);
    mkPoint (x c) (y c + height c);
    mkPoint (x c + width c) (y c + height c) ].

(** What [drawCanvasContent] draws once the image of [processedImageUrl] has
    loaded; nothing when the canvas or the URL is missing. *)
Definition drawCanvasContent (canvas : option Canvas) (st : AppState)
    : list DrawOp :=
  match canvas, processedImageUrl st with
  | Some cv, Some url =>
      if noUrl (Some url) then []
      else
        let whole := fullCanvasCrop cv in
        let c := crop st in
        ClearRect whole :: DrawImage url whole ::
        (if isCropping st && gtb (width c) 0 && gtb (height c) 0
         then map FillRect (overlayRects cv c) ++
              StrokeRect c ::
              map (fun h => Arc h (HANDLE_SIZE / 2)) (handles c)
         else [])
  | _, _ => []
  end.

End App.

(** ** Vocabulary for further facts on the thresholding loop *)

Module ThresholdMore.
Import Threshold.

(** A gray pixel of level [v] and alpha [a]. *)
Definition gray (v a : Z) : Pixel := mkPixel v v v a.

(** An integer threshold, as [parseInt] of a slider value gives it. *)
Definition integerThreshold (t : Z) : float := PrimFloat.of_uint63 (Uint63.of_Z t).

End ThresholdMore.

(* ===================================================================== *)
(** * Part II.  Properties                                                *)
(* ===================================================================== *)

(** ** Order facts on binary64 comparisons *)

Module FloatOrder.

Lemma SFcompare_antisym a b c :
  SFcompare a b = Some c -> SFcompare b a = Some (CompOpp c).
Proof.
  destruct a as [sa|sa| |sa ma ea], b as [sb|sb| |sb mb eb]; simpl;
    try discriminate; intros [= <-];
    repeat match goal with s : bool |- _ => destruct s end; simpl; try reflexivity.
  all: rewrite (Z.compare_antisym ea eb);
    change (PosDef.Pos.compare_cont Eq) with Pos.compare;
    rewrite (Pos.compare_antisym ma mb);
    destruct (ea ?= eb)%Z; simpl; try reflexivity;
    destruct (ma ?= mb)%positive; reflexivity.
Qed.

Lemma SF_le_lt_trans a b c :
  SFleb a b = true -> SFltb b c = true -> SFltb a c = true.
Proof.
  unfold SFleb, SFltb.
  destruct a as [sa|sa| |sa ma ea], b as [sb|sb| |sb mb eb],
           c as [sc|sc| |sc mc ec]; simpl;
    try discriminate;
    repeat match goal with s : bool |- _ => destruct s end; simpl;
    try discriminate; try reflexivity.
  all: change (PosDef.Pos.compare_cont Eq) with Pos.compare;
    destruct (Z.compare_spec ea eb), (Z.compare_spec eb ec), (Z.compare_spec ea ec);
    simpl; try discriminate; try reflexivity; try lia;
    destruct (Pos.compare_spec ma mb), (Pos.compare_spec mb mc),
             (Pos.compare_spec ma mc);
    simpl; try discriminate; try reflexivity; try lia.
Qed.

(** [a <= b] excludes [b < a]. *)
Lemma leb_not_gt (a b : float) :
  PrimFloat.leb a b = true -> PrimFloat.ltb b a = false.
Proof.
  rewrite FloatAxioms.leb_spec, FloatAxioms.ltb_spec. unfold SFleb, SFltb.
  destruct (SFcompare (Prim2SF a) (Prim2SF b)) as [c|] eqn:E; [|discriminate].
  rewrite (SFcompare_antisym _ _ _ E). destruct c; simpl; congruence.
Qed.

(** [a <= b < c] gives [a < c]. *)
Lemma le_lt_trans (a b c : float) :
  PrimFloat.leb a b = true -> PrimFloat.ltb b c = true -> PrimFloat.ltb a c = true.
Proof.
  rewrite FloatAxioms.leb_spec, !FloatAxioms.ltb_spec. apply SF_le_lt_trans.
Qed.

End FloatOrder.

(** ** The thresholding loop *)

Module ThresholdFacts.
Import Threshold.

(** The four channels of the pixel that starts at index [length pre]. *)
Lemma lookup_channels (pre post : list Z) (r g b a : Z) :
  let data := pre ++ r :: g :: b :: a :: post in
  data !! length pre = Some r /\
  data !! (length pre + 1)%nat = Some g /\
  data !! (length pre + 2)%nat = Some b /\
  data !! (length pre + 3)%nat = Some a.
Proof.
  cbn zeta. repeat split.
  - by apply list_lookup_middle.
  - rewrite lookup_app_r by lia. by replace (_ + 1 - _)%nat with 1%nat by lia.
  - rewrite lookup_app_r by lia. by replace (_ + 2 - _)%nat with 2%nat by lia.
  - rewrite lookup_app_r by lia. by replace (_ + 3 - _)%nat with 3%nat by lia.
Qed.

Lemma insert_channel (pre post : list Z) (j : nat) (v : Z) :
  <[(length pre + j)%nat := v]> (pre ++ post) = pre ++ <[j := v]> post.
Proof. apply insert_app_r. Qed.

(** One iteration rewrites exactly the pixel it is positioned on. *)
Lemma processPixel_encode p (pre : list Z) (px : Pixel) (rest : list Pixel) :
  processPixel p (pre ++ encode (px :: rest)) (length pre)
  = pre ++ encode (thresholdPixel p px :: rest).
Proof.
  destruct px as [r g b a]. cbn [encode red green blue alpha].
  unfold processPixel.
  destruct (lookup_channels pre (encode rest) r g b a) as (Hr & Hg & Hb & Ha).
  cbn zeta in Hr, Hg, Hb, Ha. rewrite Hr, Hg, Hb, Ha.
  unfold thresholdPixel, fails_luminance, fails_alpha. cbn [red green blue alpha].
  destruct (gtb _ _ || PrimFloat.ltb _ _).
  - by rewrite insert_channel.
  - rewrite <- (Nat.add_0_r (length pre)) at 4.
    by rewrite !insert_channel.
Qed.

Lemma processPixel_length p data i :
  length (processPixel p data i) = length data.
Proof.
  unfold processPixel. destruct (_ || _); by rewrite !length_insert.
Qed.

(** The loop leaves by its own guard: once [fuel] covers the entries from
    [i] on, any larger amount gives the same array. *)
Lemma processLoop_fuel p (fuel1 fuel2 i : nat) (data : list Z) :
  (length data <= i + 4 * fuel1)%nat -> (fuel1 <= fuel2)%nat ->
  processLoop p fuel1 i data = processLoop p fuel2 i data.
Proof.
  revert fuel2 i data.
  induction fuel1 as [|f1 IH]; intros fuel2 i data Hlen Hle.
  - destruct fuel2 as [|f2]; [done|]. cbn [processLoop].
    destruct (Nat.ltb_spec i (length data)); [lia|done].
  - destruct fuel2 as [|f2]; [lia|]. cbn [processLoop].
    destruct (Nat.ltb_spec i (length data)); [|done].
    apply IH; [rewrite processPixel_length|]; lia.
Qed.

(** Running the loop from a pixel boundary maps [thresholdPixel] over the
    remaining pixels. *)
Lemma processLoop_encode p (todo : list Pixel) :
  forall (fuel : nat) (pre : list Z),
    (length todo <= fuel)%nat ->
    processLoop p fuel (length pre) (pre ++ encode todo)
    = pre ++ encode (thresholdPixel p <$> todo).
Proof.
  induction todo as [|px rest IH]; intros fuel pre Hfuel.
  - cbn [encode fmap list_fmap]. destruct fuel as [|f]; [done|]. cbn [processLoop].
    destruct (Nat.ltb_spec (length pre) (length (pre ++ []))) as [Hlt|]; [|done].
    rewrite length_app in Hlt. cbn in Hlt. lia.
  - destruct fuel as [|f]; [cbn in Hfuel; lia|]. cbn [processLoop].
    destruct (Nat.ltb_spec (length pre) (length (pre ++ encode (px :: rest))))
      as [_|Hge].
    + rewrite processPixel_encode.
      set (px' := thresholdPixel p px).
      cbn [encode].
      replace (pre ++ red px' :: green px' :: blue px' :: alpha px' :: encode rest)
        with ((pre ++ [red px'; green px'; blue px'; alpha px']) ++ encode rest)
        by (by rewrite <- app_assoc).
      replace (length pre + 4)%nat
        with (length (pre ++ [red px'; green px'; blue px'; alpha px']))
        by (rewrite length_app; reflexivity).
      rewrite IH by (cbn in Hfuel; lia).
      rewrite <- app_assoc. reflexivity.
    + rewrite length_app in Hge. cbn in Hge. lia.
Qed.

(** [processImage] never stops for lack of fuel: any amount from
    [length data] on gives its result. *)
Lemma processImage_fuel p (fuel : nat) (data : list Z) :
  (length data <= fuel)%nat -> processLoop p fuel 0 data = processImage p data.
Proof.
  intros H. unfold processImage. symmetry. apply processLoop_fuel; lia.
Qed.

Lemma encode_length (ps : list Pixel) : length (encode ps) = (4 * length ps)%nat.
Proof. induction ps as [|px ps IH]; cbn [encode length]; lia. Qed.

Lemma processImage_encode p (ps : list Pixel) :
  processImage p (encode ps) = encode (thresholdPixel p <$> ps).
Proof.
  unfold processImage.
  apply (processLoop_encode p ps (length (encode ps)) []).
  rewrite encode_length. lia.
Qed.

(** Every array of [4 * n] entries is the encoding of [n] pixels. *)
Lemma decode (n : nat) :
  forall data : list Z,
    length data = (4 * n)%nat -> exists ps, data = encode ps /\ length ps = n.
Proof.
  induction n as [|n IH]; intros data Hlen.
  - exists []. destruct data; [done|discriminate].
  - destruct data as [|r [|g [|b [|a data]]]]; cbn in Hlen; try lia.
    destruct (IH data) as (ps & -> & Hps); [lia|].
    exists (mkPixel r g b a :: ps). split; [reflexivity|cbn; lia].
Qed.

Lemma pixel_at_encode (ps : list Pixel) :
  forall k, pixel_at (encode ps) k = ps !! k.
Proof.
  induction ps as [|px ps IH]; intros k.
  - unfold pixel_at. cbn. done.
  - destruct k as [|k].
    + destruct px; reflexivity.
    + change ((px :: ps) !! S k) with (ps !! k).
      rewrite <- (IH k). unfold pixel_at. cbn [encode].
      replace (4 * S k)%nat with (S (S (S (S (4 * k))))) by lia.
      reflexivity.
Qed.

Lemma wf_buffer_decode (w h : nat) (data : list Z) :
  wf_buffer w h data ->
  exists ps, data = encode ps /\ length ps = (w * h)%nat.
Proof.
  intros (_ & _ & Hlen & _). apply decode. lia.
Qed.

(** The pixels of the result, in terms of the pixels of the input. *)
Lemma pixel_at_processImage p (w h : nat) (data : list Z) (k : nat) :
  wf_buffer w h data ->
  pixel_at (processImage p data) k = thresholdPixel p <$> pixel_at data k.
Proof.
  intros Hwf. destruct (wf_buffer_decode _ _ _ Hwf) as (ps & -> & _).
  rewrite processImage_encode, !pixel_at_encode. apply list_lookup_fmap.
Qed.

Lemma processImage_length p (data : list Z) :
  length (processImage p data) = length data.
Proof.
  unfold processImage. generalize (length data) at 1. generalize 0%nat.
  intros i fuel. revert i data.
  induction fuel as [|f IH]; intros i data; cbn [processLoop]; [done|].
  destruct (i <? length data)%nat; [|done].
  by rewrite IH, processPixel_length.
Qed.

End ThresholdFacts.

(** ** The thresholding engine: claims on [processImage] *)

Module ThresholdClaims.
Import Threshold ThresholdFacts.

Lemma example_image_wf : wf_buffer 4 1 example_image.
Proof.
  unfold wf_buffer, example_image, is_byte.
  repeat split; [lia | lia | repeat constructor; lia].
Qed.

(** The loop on the specification's example image: pixel 1 keeps its
    colour bytes. *)
Example processImage_example :
  processImage example_params example_image
  = [0; 0; 0; 255;  250; 250; 250; 0;  0; 0; 0; 0;  0; 0; 0; 255]%Z.
Proof. reflexivity. Qed.

(** A byte read from the array is a non-negative number. *)
Lemma js_number_byte_nonneg (a : Z) :
  is_byte a -> PrimFloat.leb 0 (js_number (Some a)) = true.
Proof.
  intros [H0 H255].
  assert (Hall : forallb (fun n => PrimFloat.leb 0 (js_number (Some (Z.of_nat n))))
                         (seq 0 256) = true) by (vm_compute; reflexivity).
  rewrite forallb_forall in Hall.
  specialize (Hall (Z.to_nat a)). rewrite Z2Nat.id in Hall by lia.
  apply Hall, in_seq. lia.
Qed.

Lemma wf_buffer_pixel (w h : nat) (data : list Z) (k : nat) :
  wf_buffer w h data -> (k < w * h)%nat -> is_Some (pixel_at data k).
Proof.
  intros Hwf Hk. destruct (wf_buffer_decode _ _ _ Hwf) as (ps & -> & Hlen).
  rewrite pixel_at_encode. apply lookup_lt_is_Some. lia.
Qed.

Lemma Forall_encode (P : Z -> Prop) (ps : list Pixel) :
  Forall P (encode ps) ->
  Forall (fun px => P (red px) /\ P (green px) /\ P (blue px) /\ P (alpha px)) ps.
Proof.
  induction ps as [|px ps IH]; cbn [encode]; intros H; [constructor|].
  inversion H as [|? ? Hr H1]; subst. inversion H1 as [|? ? Hg H2]; subst.
  inversion H2 as [|? ? Hb H3]; subst. inversion H3 as [|? ? Ha H4]; subst.
  constructor; auto.
Qed.

(** C1, as stated, fails on the specification's own example image:
    pixel 1, [(250,250,250,255)], is classified as background by the
    luminance test, and the loop only clears its alpha; the result pixel
    [(250,250,250,0)] is neither [{0,0,0,0}] nor [{0,0,0,255}]. *)
Lemma C1_background_keeps_rgb :
  wf_buffer 4 1 example_image /\
  pixel_at example_image 1 = Some (mkPixel 250 250 250 255) /\
  fails_luminance example_params (mkPixel 250 250 250 255) = true /\
  pixel_at (processImage example_params example_image) 1
    = Some (mkPixel 250 250 250 0) /\
  mkPixel 250 250 250 0 <> background /\
  mkPixel 250 250 250 0 <> ink /\
  red (mkPixel 250 250 250 0) <> 0%Z.
Proof.
  split; [exact example_image_wf|].
  repeat split; try (vm_compute; reflexivity); discriminate.
Qed.

(** C1, amended: for a well-formed buffer and any parameters, the result
    has the size of the input, and every pixel of it is either ink
    [{0,0,0,255}] or, when the input pixel is classified as background
    (luminance above the threshold, or alpha below the cutoff), the input
    pixel with its alpha set to [0] and its R, G and B bytes kept. *)
Theorem C1_threshold_pixels (w h : nat) (data : list Z) (p : ThresholdParams) :
  wf_buffer w h data ->
  length (processImage p data) = length data /\
  forall k, (k < w * h)%nat ->
    exists px,
      pixel_at data k = Some px /\
      pixel_at (processImage p data) k
      = Some (if fails_luminance p px || fails_alpha p px
              then mkPixel (red px) (green px) (blue px) 0
              else ink).
Proof.
  intros Hwf. split; [apply processImage_length|].
  intros k Hk. destruct (wf_buffer_pixel _ _ _ k Hwf Hk) as [px Hpx].
  exists px. split; [exact Hpx|].
  rewrite (pixel_at_processImage p w h) by exact Hwf. by rewrite Hpx.
Qed.

Lemma C1_threshold_pixels_example :
  wf_buffer 4 1 example_image /\
  length (processImage example_params example_image) = length example_image /\
  forall k, (k < 4 * 1)%nat ->
    exists px,
      pixel_at example_image k = Some px /\
      pixel_at (processImage example_params example_image) k
      = Some (if fails_luminance example_params px || fails_alpha example_params px
              then mkPixel (red px) (green px) (blue px) 0
              else ink).
Proof.
  split; [exact example_image_wf|].
  apply (C1_threshold_pixels 4 1 example_image example_params).
  unfold wf_buffer, example_image, is_byte.
  repeat split; [lia | lia | repeat constructor; lia].
Defined.

(** C2: for a well-formed buffer and any parameters, every pixel of the
    result has alpha [0] or [255], and a pixel of alpha [255] has
    R = G = B = 0. *)
Theorem C2_binarization_invariant (w h : nat) (data : list Z) (p : ThresholdParams) :
  wf_buffer w h data ->
  forall k, (k < w * h)%nat ->
    exists px,
      pixel_at (processImage p data) k = Some px /\
      (alpha px = 0%Z \/ alpha px = 255%Z) /\
      (alpha px = 255%Z -> red px = 0%Z /\ green px = 0%Z /\ blue px = 0%Z).
Proof.
  intros Hwf k Hk. destruct (wf_buffer_pixel _ _ _ k Hwf Hk) as [px Hpx].
  exists (thresholdPixel p px). split.
  - rewrite (pixel_at_processImage p w h) by exact Hwf. by rewrite Hpx.
  - unfold thresholdPixel. destruct (_ || _); cbn [red green blue alpha].
    + split; [by left | discriminate].
    + split; [by right | done].
Qed.

Lemma C2_binarization_invariant_example :
  wf_buffer 4 1 example_image /\
  forall k, (k < 4 * 1)%nat ->
    exists px,
      pixel_at (processImage example_params example_image) k = Some px /\
      (alpha px = 0%Z \/ alpha px = 255%Z) /\
      (alpha px = 255%Z -> red px = 0%Z /\ green px = 0%Z /\ blue px = 0%Z).
Proof.
  split; [exact example_image_wf|].
  apply (C2_binarization_invariant 4 1 example_image example_params).
  unfold wf_buffer, example_image, is_byte.
  repeat split; [lia | lia | repeat constructor; lia].
Defined.

(** A pixel that the loop has already written is written the same way
    again. *)
Lemma thresholdPixel_idem (p : ThresholdParams) (px : Pixel) :
  params_in_range p -> is_byte (alpha px) ->
  thresholdPixel p (thresholdPixel p px) = thresholdPixel p px.
Proof.
  intros (HT0 & _ & _ & HA255) Ha.
  remember (thresholdPixel p px) as q eqn:Eq.
  unfold thresholdPixel in Eq.
  destruct (fails_luminance p px) eqn:EL; cbn [orb] in Eq;
    [|destruct (fails_alpha p px) eqn:EA]; subst q.
  - unfold thresholdPixel.
    change (fails_luminance p (mkPixel (red px) (green px) (blue px) 0))
      with (fails_luminance p px).
    by rewrite EL.
  - unfold thresholdPixel.
    change (fails_luminance p (mkPixel (red px) (green px) (blue px) 0))
      with (fails_luminance p px).
    rewrite EL. cbn [orb red green blue].
    unfold fails_alpha in *. cbn [alpha].
    change (js_number (Some 0%Z)) with 0%float.
    by rewrite (FloatOrder.le_lt_trans _ _ _ (js_number_byte_nonneg _ Ha) EA).
  - unfold thresholdPixel, fails_luminance, fails_alpha, gtb.
    cbn [red green blue alpha].
    change (luminance (js_number (Some 0%Z)) (js_number (Some 0%Z))
                      (js_number (Some 0%Z))) with 0%float.
    change (js_number (Some 255%Z)) with 255%float.
    by rewrite (FloatOrder.leb_not_gt _ _ HT0), (FloatOrder.leb_not_gt _ _ HA255).
Qed.

(** C3: [threshold] is idempotent on well-formed buffers when both
    parameters lie in [0, 255]. *)
Theorem C3_threshold_idempotent (w h : nat) (data : list Z) (p : ThresholdParams) :
  wf_buffer w h data -> params_in_range p ->
  processImage p (processImage p data) = processImage p data.
Proof.
  intros Hwf Hp.
  destruct (wf_buffer_decode _ _ _ Hwf) as (ps & -> & _).
  destruct Hwf as (_ & _ & _ & Hbytes). apply Forall_encode in Hbytes.
  rewrite !processImage_encode. f_equal.
  rewrite <- list_fmap_compose.
  apply Forall_fmap_ext_1. eapply Forall_impl; [exact Hbytes|].
  intros px (_ & _ & _ & Ha). cbn. by apply thresholdPixel_idem.
Qed.

Lemma C3_threshold_idempotent_example :
  wf_buffer 4 1 example_image /\ params_in_range example_params /\
  processImage example_params (processImage example_params example_image)
  = processImage example_params example_image.
Proof.
  split; [exact example_image_wf|].
  split; [repeat split; vm_compute; reflexivity|].
  apply (C3_threshold_idempotent 4 1 example_image example_params).
  - unfold wf_buffer, example_image, is_byte.
    repeat split; [lia | lia | repeat constructor; lia].
  - repeat split; vm_compute; reflexivity.
Defined.

(** C4, as stated, fails in its second half: the 1x1 image
    [(210,210,210,255)] with cutoff 50 is background under threshold 200
    purely by the luminance test (its alpha passes), and raising the
    threshold to 220 turns it into ink. *)
Lemma C4_raising_turns_background_into_ink :
  let data := [210; 210; 210; 255]%Z in
  let low := mkParams 200 50 in
  let high := mkParams 220 50 in
  wf_buffer 1 1 data /\
  alphaThreshold low = alphaThreshold high /\
  PrimFloat.leb (luminanceThreshold low) (luminanceThreshold high) = true /\
  pixel_at data 0 = Some (mkPixel 210 210 210 255) /\
  fails_luminance low (mkPixel 210 210 210 255) = true /\
  fails_alpha low (mkPixel 210 210 210 255) = false /\
  pixel_at (processImage low data) 0 = Some (mkPixel 210 210 210 0) /\
  is_background (mkPixel 210 210 210 0) /\
  pixel_at (processImage high data) 0 = Some ink /\
  is_ink ink.
Proof.
  cbn zeta. split.
  - unfold wf_buffer, is_byte. repeat split; [lia | lia | repeat constructor; lia].
  - repeat split; vm_compute; reflexivity.
Qed.

(** C4, amended: for a fixed well-formed buffer and a fixed alpha cutoff,
    raising the luminance threshold never turns an ink pixel into
    background, and never turns into ink a pixel that the alpha test
    classifies as background; the background pixels under the higher
    threshold are among those under the lower one.  (A pixel that was
    background by the luminance test alone may become ink.) *)
Theorem C4_threshold_monotone (w h : nat) (data : list Z)
    (low high : ThresholdParams) :
  wf_buffer w h data ->
  alphaThreshold low = alphaThreshold high ->
  PrimFloat.leb (luminanceThreshold low) (luminanceThreshold high) = true ->
  forall k, (k < w * h)%nat ->
    exists px px_low px_high,
      pixel_at data k = Some px /\
      pixel_at (processImage low data) k = Some px_low /\
      pixel_at (processImage high data) k = Some px_high /\
      (is_ink px_low -> is_ink px_high) /\
      (fails_alpha low px = true -> is_background px_high) /\
      (is_background px_high -> is_background px_low).
Proof.
  intros Hwf HA HT k Hk. destruct (wf_buffer_pixel _ _ _ k Hwf Hk) as [px Hpx].
  exists px, (thresholdPixel low px), (thresholdPixel high px).
  rewrite !(pixel_at_processImage _ w h) by exact Hwf. rewrite Hpx.
  repeat split.
  - unfold is_ink, thresholdPixel.
    destruct (fails_luminance high px) eqn:EH.
    + unfold fails_luminance, gtb in *.
      rewrite (FloatOrder.le_lt_trans _ _ _ HT EH). cbn. discriminate.
    + destruct (fails_luminance low px); cbn [orb alpha]; [discriminate|].
      unfold fails_alpha. rewrite <- HA.
      destruct (PrimFloat.ltb _ _); cbn; [discriminate|done].
  - intros EA. unfold is_background, thresholdPixel, fails_alpha in *.
    rewrite <- HA, EA, orb_true_r. reflexivity.
  - unfold is_background, thresholdPixel.
    destruct (fails_luminance high px) eqn:EH.
    + unfold fails_luminance, gtb in *.
      rewrite (FloatOrder.le_lt_trans _ _ _ HT EH). reflexivity.
    + unfold fails_alpha. rewrite <- HA. cbn [orb].
      destruct (PrimFloat.ltb _ _); cbn [alpha]; [|discriminate].
      rewrite orb_true_r. reflexivity.
Qed.

Lemma C4_threshold_monotone_example :
  wf_buffer 4 1 example_image /\
  forall k, (k < 4 * 1)%nat ->
    exists px px_low px_high,
      pixel_at example_image k = Some px /\
      pixel_at (processImage (mkParams 200 50) example_image) k = Some px_low /\
      pixel_at (processImage (mkParams 251 50) example_image) k = Some px_high /\
      (is_ink px_low -> is_ink px_high) /\
      (fails_alpha (mkParams 200 50) px = true -> is_background px_high) /\
      (is_background px_high -> is_background px_low).
Proof.
  split; [exact example_image_wf|].
  apply (C4_threshold_monotone 4 1 example_image (mkParams 200 50) (mkParams 251 50)).
  - unfold wf_buffer, example_image, is_byte.
    repeat split; [lia | lia | repeat constructor; lia].
  - reflexivity.
  - vm_compute; reflexivity.
Defined.

End ThresholdClaims.


(** ** Binary64 facts used for the crop geometry *)

Module Float64Facts.
Import JSNumber.

Lemma Prim2SF_zero : Prim2SF 0 = S754_zero false.
Proof. reflexivity. Qed.

Lemma Prim2SF_nan : Prim2SF nan = S754_nan.
Proof. reflexivity. Qed.

Lemma SFcompare_refl (f : spec_float) :
  f <> S754_nan -> SFcompare f f = Some Eq.
Proof.
  destruct f as [s|s| |s m e]; intros H; try congruence; cbn.
  - reflexivity.
  - by destruct s.
  - rewrite Z.compare_refl.
    change (PosDef.Pos.compare_cont Eq) with Pos.compare.
    rewrite Pos.compare_refl. by destruct s.
Qed.

Lemma SFcompare_nan_l (f : spec_float) : SFcompare S754_nan f = None.
Proof. reflexivity. Qed.

Lemma SFcompare_nan_r (f : spec_float) : SFcompare f S754_nan = None.
Proof. by destruct f. Qed.

Lemma is_nan_true (a : float) : is_nan a = true <-> Prim2SF a = S754_nan.
Proof.
  unfold is_nan. rewrite FloatAxioms.eqb_spec. unfold SFeqb.
  destruct (Prim2SF a) as [s|s| |s m e] eqn:E.
  - rewrite SFcompare_refl by discriminate. split; discriminate.
  - rewrite SFcompare_refl by discriminate. split; discriminate.
  - cbn. tauto.
  - rewrite SFcompare_refl by discriminate. split; discriminate.
Qed.

Lemma is_nan_false (a : float) : is_nan a = false <-> Prim2SF a <> S754_nan.
Proof.
  rewrite <- is_nan_true. destruct (is_nan a); split; congruence.
Qed.

Lemma leb_numbers (a b : float) :
  PrimFloat.leb a b = true -> is_nan a = false /\ is_nan b = false.
Proof.
  rewrite FloatAxioms.leb_spec, !is_nan_false. unfold SFleb. intros H.
  split; intros E; rewrite E in H;
    [rewrite SFcompare_nan_l in H | rewrite SFcompare_nan_r in H]; discriminate.
Qed.

Lemma ltb_leb (a b : float) :
  PrimFloat.ltb a b = true -> PrimFloat.leb a b = true.
Proof.
  rewrite FloatAxioms.ltb_spec, FloatAxioms.leb_spec. unfold SFltb, SFleb.
  by destruct (SFcompare _ _) as [[]|].
Qed.

Lemma leb_refl (a : float) : is_nan a = false -> PrimFloat.leb a a = true.
Proof.
  rewrite is_nan_false, FloatAxioms.leb_spec. intros H. unfold SFleb.
  by rewrite SFcompare_refl.
Qed.

(** [Math.abs] never gives a negative number. *)
Lemma abs_not_neg (w : float) : PrimFloat.ltb (abs w) 0 = false.
Proof.
  rewrite FloatAxioms.ltb_spec, FloatAxioms.abs_spec, Prim2SF_zero.
  by destruct (Prim2SF w) as [s|s| |s m e].
Qed.

(** *** [Math.max] and [Math.min] *)

Lemma Math_max_zero (m : float) :
  Math_max 0 m
  = if is_nan m then nan else if PrimFloat.ltb 0 m then m else 0%float.
Proof.
  unfold Math_max. change (is_nan 0) with false. change (is_neg_zero 0) with false.
  cbn [orb andb]. reflexivity.
Qed.

Lemma max_zero_nonneg (m : float) :
  is_nan (Math_max 0 m) = false -> PrimFloat.leb 0 (Math_max 0 m) = true.
Proof.
  rewrite Math_max_zero. destruct (is_nan m); [discriminate|].
  destruct (PrimFloat.ltb 0 m) eqn:E; intros _; [by apply ltb_leb | reflexivity].
Qed.

(** *** Exact values *)

Lemma pow2_pos (e : Z) : (0 < Qpower 2 e)%Q.
Proof. by apply Qpower_0_lt. Qed.

(** A finite number below [0] has a negative value, one not below [0] a
    non-negative value. *)
Lemma F2Q_neg (w : float) :
  is_finite w = true -> PrimFloat.ltb w 0 = true -> (F2Q w < 0)%Q.
Proof.
  unfold is_finite, F2Q. rewrite FloatAxioms.ltb_spec, Prim2SF_zero. unfold SFltb.
  destruct (Prim2SF w) as [s|s| |s m e]; cbn; try discriminate.
  intros _. destruct s; [|discriminate]. intros _.
  pose proof (pow2_pos e) as Hp.
  assert (Hm : (inject_Z (Z.neg m) < 0)%Q) by (unfold Qlt; cbn; lia).
  nra.
Qed.

Lemma F2Q_nonneg (w : float) :
  is_finite w = true -> PrimFloat.ltb w 0 = false -> (0 <= F2Q w)%Q.
Proof.
  unfold is_finite, F2Q. rewrite FloatAxioms.ltb_spec, Prim2SF_zero. unfold SFltb.
  destruct (Prim2SF w) as [s|s| |s m e]; cbn; try discriminate; try (intros; lra).
  intros _. destruct s; [discriminate|]. intros _.
  pose proof (pow2_pos e) as Hp.
  assert (Hm : (0 < inject_Z (Z.pos m))%Q) by (unfold Qlt; cbn; lia).
  nra.
Qed.

(** The value of [Math.abs w] is the absolute value of [w]'s. *)
Lemma F2Q_abs_neg (w : float) :
  is_finite w = true -> PrimFloat.ltb w 0 = true ->
  is_finite (abs w) = true /\ (F2Q (abs w) == - F2Q w)%Q.
Proof.
  unfold is_finite, F2Q. rewrite FloatAxioms.ltb_spec, FloatAxioms.abs_spec, Prim2SF_zero.
  unfold SFltb.
  destruct (Prim2SF w) as [s|s| |s m e]; cbn; try discriminate.
  intros _. destruct s; [|discriminate]. intros _. split; [reflexivity|].
  change (inject_Z (Z.neg m)) with (- inject_Z (Z.pos m))%Q. ring.
Qed.


(** *** Products and quotients that involve [1] *)

Lemma Prim2SF_one : Prim2SF 1 = S754_finite false 4503599627370496 (-52).
Proof. reflexivity. Qed.

(** A mantissa in canonical position is returned as it is. *)
Lemma binary_round_aux_canonical (s : bool) (m : positive) (e : Z) :
  bounded prec emax m e = true ->
  binary_round_aux prec emax s (Z.pos m) e loc_Exact = S754_finite s m e.
Proof.
  unfold bounded, canonical_mantissa. intros H.
  apply andb_true_iff in H as [Hc He]. apply Z.eqb_eq in Hc.
  unfold binary_round_aux, shr_fexp. cbn [Zdigits2 shr_record_of_loc].
  rewrite Hc, Z.sub_diag. cbn [shr shr_m loc_of_shr_record round_nearest_even].
  cbn [Zdigits2 shr_record_of_loc]. rewrite Hc, Z.sub_diag. cbn [shr shr_m].
  by rewrite He.
Qed.

(** Fifty-two halvings undo a multiplication by [2^52]. *)
Lemma shr_52 (m : positive) :
  SpecFloat.iter_pos shr_1 52 (Build_shr_record (Z.pos (m * 4503599627370496)) false false)
  = Build_shr_record (Z.pos m) false false.
Proof. rewrite Pos.mul_comm. reflexivity. Qed.

Lemma digits2_pos_iter_xO (k p : positive) :
  Z.pos (digits2_pos (Pos.iter xO p k)) = (Z.pos (digits2_pos p) + Z.pos k)%Z.
Proof.
  revert p. induction k as [|k IH] using Pos.peano_ind; intros p.
  - cbn. lia.
  - rewrite Pos.iter_succ. cbn [digits2_pos]. rewrite Pos2Z.inj_succ, IH. lia.
Qed.

Lemma digits2_pos_52 (m : positive) :
  Z.pos (digits2_pos (m * 4503599627370496)) = (Z.pos (digits2_pos m) + 52)%Z.
Proof.
  rewrite Pos.mul_comm.
  change (4503599627370496 * m)%positive with (Pos.iter xO m 52).
  apply digits2_pos_iter_xO.
Qed.

(** Multiplying by [1] changes nothing. *)
Lemma mul_one (a : float) : (a * 1)%float = a.
Proof.
  apply Prim2SF_inj. rewrite FloatAxioms.mul_spec, Prim2SF_one.
  pose proof (Prim2SF_valid a) as Hv.
  unfold SF64mul.
  destruct (Prim2SF a) as [s|s| |s m e]; cbn [SFmul];
    rewrite ?xorb_false_r; try reflexivity.
  cbn [valid_binary] in Hv.
  pose proof Hv as Hb. unfold bounded, canonical_mantissa in Hb.
  apply andb_true_iff in Hb as [Hc He]. apply Z.eqb_eq in Hc.
  unfold binary_round_aux at 1, shr_fexp at 1. cbn [Zdigits2 shr_record_of_loc].
  rewrite digits2_pos_52.
  replace (Z.pos (digits2_pos m) + 52 + (e + -52))%Z
    with (Z.pos (digits2_pos m) + e)%Z by lia.
  rewrite Hc. replace (e - (e + -52))%Z with 52%Z by lia.
  cbn [shr]. rewrite shr_52.
  replace (e + -52 + 52)%Z with e by lia.
  cbn [shr_m loc_of_shr_record round_nearest_even].
  unfold shr_fexp. cbn [Zdigits2 shr_record_of_loc]. rewrite Hc, Z.sub_diag.
  cbn [shr shr_m]. by rewrite He.
Qed.

(** A finite number other than zero divided by itself is [1]. *)
Lemma div_self (w : float) (s : bool) (m : positive) (e : Z) :
  Prim2SF w = S754_finite s m e -> (w / w)%float = 1%float.
Proof.
  intros Hw. apply Prim2SF_inj. rewrite FloatAxioms.div_spec, Hw, Prim2SF_one.
  unfold SF64div. cbn [SFdiv]. unfold SFdiv_core_binary.
  rewrite Z.sub_diag, Z.sub_diag.
  change (fexp prec emax 0) with (-53)%Z.
  change (Z.min (-53) 0) with (-53)%Z.
  change (0 - -53)%Z with 53%Z. cbv iota.
  rewrite Z.shiftl_mul_pow2 by lia.
  assert (Hq : Z.div_eucl (Z.pos m * 2 ^ 53) (Z.pos m) = ((2 ^ 53)%Z, 0%Z)).
  { pose proof (Z.div_mul (2 ^ 53) (Z.pos m) ltac:(lia)) as Hd.
    pose proof (Z.mod_mul (2 ^ 53) (Z.pos m) ltac:(lia)) as Hm.
    rewrite (Z.mul_comm (2 ^ 53)) in Hd, Hm. unfold Z.div in Hd. unfold Z.modulo in Hm.
    destruct (Z.div_eucl (Z.pos m * 2 ^ 53) (Z.pos m)) as [q r].
    cbn [fst snd] in Hd, Hm. by subst. }
  rewrite Hq. rewrite xorb_nilpotent.
  assert (Hl : new_location (Z.pos m) 0 = loc_Exact).
  { unfold new_location, new_location_even, new_location_odd.
    by destruct (Z.even (Z.pos m)). }
  rewrite Hl. reflexivity.
Qed.

(** *** Unsigned integers as numbers *)

Lemma digits2_pos_bounds (p : positive) :
  (2 ^ (Z.pos (digits2_pos p) - 1) <= Z.pos p < 2 ^ Z.pos (digits2_pos p))%Z.
Proof.
  induction p as [p IH|p IH|]; cbn [digits2_pos].
  - rewrite Pos2Z.inj_succ.
    replace (Z.succ (Z.pos (digits2_pos p)) - 1)%Z
      with (Z.succ (Z.pos (digits2_pos p) - 1)) by lia.
    rewrite !Z.pow_succ_r by lia. lia.
  - rewrite Pos2Z.inj_succ.
    replace (Z.succ (Z.pos (digits2_pos p)) - 1)%Z
      with (Z.succ (Z.pos (digits2_pos p) - 1)) by lia.
    rewrite !Z.pow_succ_r by lia. lia.
  - cbn. lia.
Qed.

Lemma iter_xO_value (k p : positive) :
  Z.pos (Pos.iter xO p k) = (Z.pos p * 2 ^ Z.pos k)%Z.
Proof.
  revert p. induction k as [|k IH] using Pos.peano_ind; intros p.
  - cbn. lia.
  - rewrite Pos.iter_succ, Pos2Z.inj_succ, Z.pow_succ_r by lia.
    rewrite Pos2Z.inj_xO, IH. lia.
Qed.

(** A positive integer below [2^53], rounded to binary64, is a finite
    positive number of the same value. *)
Lemma binary_round_small (p : positive) :
  (Z.pos p < 2 ^ 53)%Z ->
  exists m e, binary_round prec emax false p 0 = S754_finite false m e /\
              (inject_Z (Z.pos m) * Qpower 2 e == inject_Z (Z.pos p))%Q.
Proof.
  intros Hp. pose proof (digits2_pos_bounds p) as Hd.
  assert (Hd53 : (Z.pos (digits2_pos p) <= 53)%Z).
  { destruct (Z.le_gt_cases (Z.pos (digits2_pos p)) 53) as [H|H]; [exact H|].
    assert (2 ^ 53 <= 2 ^ (Z.pos (digits2_pos p) - 1))%Z
      by (apply Z.pow_le_mono_r; lia).
    lia. }
  unfold binary_round.
  assert (Hf : fexp prec emax (Z.pos (digits2_pos p) + 0)
               = (Z.pos (digits2_pos p) - 53)%Z).
  { unfold fexp, emin, prec, emax. lia. }
  rewrite Hf. unfold shl_align.
  destruct (Z.pos (digits2_pos p) - 53 - 0)%Z as [|d|d] eqn:Ed.
  - exists p, 0%Z. split.
    + apply binary_round_aux_canonical.
      unfold bounded, canonical_mantissa. rewrite Hf.
      apply andb_true_iff. split; [apply Z.eqb_eq; lia | reflexivity].
    + change (Qpower 2 0) with 1%Q. ring.
  - lia.
  - exists (Pos.iter xO p d), (Z.pos (digits2_pos p) - 53)%Z. split.
    + apply binary_round_aux_canonical.
      unfold bounded, canonical_mantissa. rewrite digits2_pos_iter_xO.
      apply andb_true_iff. split.
      * apply Z.eqb_eq. unfold fexp, emin, prec, emax. lia.
      * apply Z.leb_le. unfold prec, emax. lia.
    + replace (Z.pos (digits2_pos p) - 53)%Z with (- Z.pos d)%Z by lia.
      rewrite iter_xO_value, inject_Z_mult, Zpower_Qpower by lia.
      change (inject_Z 2) with 2%Q. rewrite Qpower_opp.
      field. apply Qpower_not_0. discriminate.
Qed.

Lemma number_of_N_positive (n : N) :
  n <> 0%N -> (n < 2 ^ 53)%N ->
  exists m e, Prim2SF (number_of_N n) = S754_finite false m e /\
              (inject_Z (Z.pos m) * Qpower 2 e == inject_Z (Z.of_N n))%Q.
Proof.
  intros Hn Hlt. unfold number_of_N.
  rewrite FloatAxioms.of_uint63_spec.
  assert (Hz : (0 < Z.of_N n < 2 ^ 53)%Z).
  { split; [lia|]. change (2 ^ 53)%Z with (Z.of_N (2 ^ 53)). lia. }
  rewrite Uint63.of_Z_spec.
  rewrite Z.mod_small by (change Uint63.wB with (2 ^ 63)%Z; lia).
  destruct (Z.of_N n) as [|p|p] eqn:E; try lia.
  cbn [binary_normalize]. apply binary_round_small. lia.
Qed.

Lemma unsigned_long_small (n : N) : unsigned_long n -> (n < 2 ^ 53)%N.
Proof. unfold unsigned_long. intros H. eapply N.lt_trans; [exact H|]. reflexivity. Qed.

(** The number of an unsigned long is finite and has its value. *)
Lemma F2Q_number_of_N (n : N) :
  unsigned_long n ->
  is_finite (number_of_N n) = true /\
              (F2Q (number_of_N n) == inject_Z (Z.of_N n))%Q.
Proof.
  intros Hu. destruct (N.eq_dec n 0%N) as [->|Hn]; [split; reflexivity|].
  destruct (number_of_N_positive n Hn (unsigned_long_small n Hu)) as (m & e & E & Hv).
  unfold is_finite, F2Q. rewrite E. by split.
Qed.

(** The number of a non-zero unsigned long is not [0]. *)
Lemma number_of_N_nonzero (n : N) :
  n <> 0%N -> unsigned_long n -> PrimFloat.eqb (number_of_N n) 0 = false.
Proof.
  intros Hn Hu.
  destruct (number_of_N_positive n Hn (unsigned_long_small n Hu)) as (m & e & E & _).
  by rewrite FloatAxioms.eqb_spec, E, Prim2SF_zero.
Qed.

Lemma number_of_N_div_self (n : N) :
  n <> 0%N -> unsigned_long n -> (number_of_N n / number_of_N n)%float = 1%float.
Proof.
  intros Hn Hu.
  destruct (number_of_N_positive n Hn (unsigned_long_small n Hu)) as (m & e & E & _).
  exact (div_self _ _ _ _ E).
Qed.


(** *** The order of binary64 numbers is the order of their values *)

(** A mantissa in canonical position has at most 53 bits, and exactly 53
    above the smallest exponent. *)
Lemma bounded_mantissa (m : positive) (e : Z) :
  bounded prec emax m e = true ->
  (Z.pos m < 2 ^ 53)%Z /\ ((-1074 < e)%Z -> (2 ^ 52 <= Z.pos m)%Z).
Proof.
  unfold bounded, canonical_mantissa, fexp, emin, prec, emax. intros H.
  apply andb_true_iff in H as [Hc _]. apply Z.eqb_eq in Hc.
  pose proof (digits2_pos_bounds m) as [Hlo Hhi].
  assert (Hd : (Z.pos (digits2_pos m) <= 53)%Z) by lia.
  split.
  - eapply Z.lt_le_trans; [exact Hhi|]. apply Z.pow_le_mono_r; lia.
  - intros He. assert (Hd53 : Z.pos (digits2_pos m) = 53%Z) by lia.
    rewrite Hd53 in Hlo. exact Hlo.
Qed.

Lemma bounded_exponent (m : positive) (e : Z) :
  bounded prec emax m e = true -> (-1074 <= e)%Z.
Proof.
  unfold bounded, canonical_mantissa, fexp, emin, prec, emax. intros H.
  apply andb_true_iff in H as [Hc _]. apply Z.eqb_eq in Hc. lia.
Qed.

Lemma pow2_split (e1 e2 : Z) :
  (e1 <= e2)%Z ->
  (Qpower 2 e2 == inject_Z (2 ^ (e2 - e1)) * Qpower 2 e1)%Q.
Proof.
  intros H. rewrite Zpower_Qpower by lia.
  change (inject_Z 2) with 2%Q.
  rewrite <- Qpower_plus by discriminate.
  replace (e2 - e1 + e1)%Z with e2 by lia. reflexivity.
Qed.

(** With canonical mantissas, the smaller exponent is the smaller
    number. *)
Lemma value_lt_exponent (m1 m2 : positive) (e1 e2 : Z) :
  bounded prec emax m1 e1 = true -> bounded prec emax m2 e2 = true ->
  (e1 < e2)%Z ->
  (inject_Z (Z.pos m1) * Qpower 2 e1 < inject_Z (Z.pos m2) * Qpower 2 e2)%Q.
Proof.
  intros H1 H2 He.
  destruct (bounded_mantissa m1 e1 H1) as [Hm1 _].
  destruct (bounded_mantissa m2 e2 H2) as [_ Hm2].
  pose proof (bounded_exponent m1 e1 H1) as He1.
  specialize (Hm2 ltac:(lia)).
  rewrite (pow2_split e1 e2) by lia.
  rewrite Qmult_assoc. apply Qmult_lt_compat_r; [apply pow2_pos|].
  rewrite <- inject_Z_mult. rewrite <- Zlt_Qlt.
  assert (Hp : (2 ^ 1 <= 2 ^ (e2 - e1))%Z) by (apply Z.pow_le_mono_r; lia).
  change (2 ^ 1)%Z with 2%Z in Hp.
  change (2 ^ 53)%Z with (2 ^ 52 * 2)%Z in Hm1. nia.
Qed.

Lemma value_compare_mantissa (m1 m2 : positive) (e : Z) :
  (inject_Z (Z.pos m1) * Qpower 2 e ?= inject_Z (Z.pos m2) * Qpower 2 e)%Q
  = (m1 ?= m2)%positive.
Proof.
  pose proof (pow2_pos e) as Hp.
  destruct (Pos.compare_spec m1 m2) as [E|E|E].
  - subst. apply (proj1 (Qeq_alt _ _)). reflexivity.
  - apply (proj1 (Qlt_alt _ _)). apply Qmult_lt_compat_r; [exact Hp|]. rewrite <- Zlt_Qlt. lia.
  - apply (proj1 (Qgt_alt _ _)). apply Qmult_lt_compat_r; [exact Hp|]. rewrite <- Zlt_Qlt. lia.
Qed.

Lemma value_compare_pos (m1 m2 : positive) (e1 e2 : Z) :
  bounded prec emax m1 e1 = true -> bounded prec emax m2 e2 = true ->
  (inject_Z (Z.pos m1) * Qpower 2 e1 ?= inject_Z (Z.pos m2) * Qpower 2 e2)%Q
  = match (e1 ?= e2)%Z with
    | Lt => Lt
    | Gt => Gt
    | Eq => (m1 ?= m2)%positive
    end.
Proof.
  intros H1 H2. destruct (Z.compare_spec e1 e2) as [E|E|E].
  - subst. apply value_compare_mantissa.
  - apply (proj1 (Qlt_alt _ _)). by apply value_lt_exponent.
  - apply (proj1 (Qgt_alt _ _)). by apply value_lt_exponent.
Qed.

Lemma Qcompare_opp (a b : Q) : (- a ?= - b)%Q = CompOpp (a ?= b)%Q.
Proof.
  destruct (Qcompare_spec a b) as [E|E|E]; cbn.
  - apply (proj1 (Qeq_alt _ _)). by rewrite E.
  - apply (proj1 (Qgt_alt _ _)). by apply Qopp_lt_compat.
  - apply (proj1 (Qlt_alt _ _)). by apply Qopp_lt_compat.
Qed.

Lemma value_neg (m : positive) (e : Z) :
  (inject_Z (Z.neg m) * Qpower 2 e == - (inject_Z (Z.pos m) * Qpower 2 e))%Q.
Proof. change (inject_Z (Z.neg m)) with (- inject_Z (Z.pos m))%Q. ring. Qed.

Lemma value_pos_gt (m : positive) (e : Z) :
  (0 < inject_Z (Z.pos m) * Qpower 2 e)%Q.
Proof.
  pose proof (pow2_pos e) as Hp.
  assert (Hm : (0 < inject_Z (Z.pos m))%Q) by (unfold Qlt; cbn; lia).
  nra.
Qed.

(** Comparing two finite numbers is comparing their values. *)
Lemma F2Q_compare (a b : float) :
  is_finite a = true -> is_finite b = true ->
  SFcompare (Prim2SF a) (Prim2SF b) = Some (F2Q a ?= F2Q b)%Q.
Proof.
  unfold is_finite, F2Q.
  pose proof (Prim2SF_valid a) as Va. pose proof (Prim2SF_valid b) as Vb.
  destruct (Prim2SF a) as [sa|sa| |sa ma ea], (Prim2SF b) as [sb|sb| |sb mb eb];
    try discriminate; intros _ _; cbn [SFcompare valid_binary] in *.
  - reflexivity.
  - f_equal. symmetry. destruct sb.
    + apply (proj1 (Qgt_alt _ _)). rewrite value_neg. pose proof (value_pos_gt mb eb). lra.
    + apply (proj1 (Qlt_alt _ _)). apply value_pos_gt.
  - f_equal. symmetry. destruct sa.
    + apply (proj1 (Qlt_alt _ _)). rewrite value_neg. pose proof (value_pos_gt ma ea). lra.
    + apply (proj1 (Qgt_alt _ _)). apply value_pos_gt.
  - f_equal. symmetry.
    change (PosDef.Pos.compare_cont Eq) with Pos.compare.
    destruct sa, sb.
    + rewrite !value_neg, Qcompare_opp, (value_compare_pos ma mb ea eb Va Vb).
      by destruct (ea ?= eb)%Z.
    + apply (proj1 (Qlt_alt _ _)). rewrite value_neg.
      pose proof (value_pos_gt ma ea). pose proof (value_pos_gt mb eb). lra.
    + apply (proj1 (Qgt_alt _ _)). rewrite value_neg.
      pose proof (value_pos_gt ma ea). pose proof (value_pos_gt mb eb). lra.
    + apply (value_compare_pos ma mb ea eb Va Vb).
Qed.

Lemma ltb_F2Q (a b : float) :
  is_finite a = true -> is_finite b = true ->
  PrimFloat.ltb a b = true <-> (F2Q a < F2Q b)%Q.
Proof.
  intros Ha Hb. rewrite FloatAxioms.ltb_spec. unfold SFltb.
  rewrite (F2Q_compare a b Ha Hb), Qlt_alt.
  destruct (F2Q a ?= F2Q b)%Q; split; congruence.
Qed.

Lemma leb_F2Q (a b : float) :
  is_finite a = true -> is_finite b = true ->
  PrimFloat.leb a b = true <-> (F2Q a <= F2Q b)%Q.
Proof.
  intros Ha Hb. rewrite FloatAxioms.leb_spec. unfold SFleb.
  rewrite (F2Q_compare a b Ha Hb), Qle_alt.
  destruct (F2Q a ?= F2Q b)%Q; split; congruence.
Qed.

Lemma not_ltb_F2Q (a b : float) :
  is_finite a = true -> is_finite b = true ->
  PrimFloat.ltb a b = false <-> (F2Q b <= F2Q a)%Q.
Proof.
  intros Ha Hb. rewrite FloatAxioms.ltb_spec. unfold SFltb.
  rewrite (F2Q_compare a b Ha Hb).
  destruct (Qcompare_spec (F2Q a) (F2Q b)) as [E|E|E]; split; try done; try lra.
Qed.

Lemma is_finite_not_nan (a : float) : is_finite a = true -> is_nan a = false.
Proof.
  unfold is_finite. intros H. apply is_nan_false. intros E. by rewrite E in H.
Qed.

End Float64Facts.

(** ** Rounding to nearest, ties to even, as [SpecFloat] computes it *)

Module Rounding.
Import JSNumber Float64Facts.

(** *** Shifting a mantissa to the right *)

Lemma iter_pos_nat {A : Type} (f : A -> A) (p : positive) (a : A) :
  SpecFloat.iter_pos f p a = Nat.iter (Pos.to_nat p) f a.
Proof.
  revert a. induction p as [p IH|p IH|]; intros a; cbn [SpecFloat.iter_pos].
  - rewrite !IH, Pos2Nat.inj_xI.
    replace (S (2 * Pos.to_nat p)) with (Pos.to_nat p + S (Pos.to_nat p))%nat by lia.
    by rewrite Nat.iter_add, Nat.iter_succ_r.
  - rewrite !IH, Pos2Nat.inj_xO.
    replace (2 * Pos.to_nat p)%nat with (Pos.to_nat p + Pos.to_nat p)%nat by lia.
    by rewrite Nat.iter_add.
  - reflexivity.
Qed.

(** One step: halve, remember the bit that fell off, and whether
    anything fell off before. *)
Lemma shr_1_nonneg (m : Z) (r s : bool) :
  (0 <= m)%Z ->
  shr_1 (Build_shr_record m r s) = Build_shr_record (m / 2) (Z.odd m) (r || s).
Proof.
  intros Hm. rewrite <- Z.div2_div.
  destruct m as [|[p|p|]|p]; try lia; reflexivity.
Qed.

Lemma mod_pow2_succ (M : Z) (j : Z) :
  (0 <= j)%Z ->
  (M mod 2 ^ (j + 1) = Z.b2z (Z.odd (M / 2 ^ j)) * 2 ^ j + M mod 2 ^ j)%Z.
Proof.
  intros Hj. rewrite Z.pow_add_r by lia. change (2 ^ 1)%Z with 2%Z.
  rewrite Z.rem_mul_r by lia.
  rewrite Zmod_odd. destruct (Z.odd (M / 2 ^ j)); cbn [Z.b2z]; lia.
Qed.

(** After [j + 1] steps from a mantissa [M]: the quotient by [2^(j+1)],
    the bit of weight [2^j], and whether the bits below it are zero. *)
Lemma shr_iter (M : Z) (j : nat) :
  (0 <= M)%Z ->
  let rec := Nat.iter (S j) shr_1 (Build_shr_record M false false) in
  shr_m rec = (M / 2 ^ (Z.of_nat j + 1))%Z /\
  (M mod 2 ^ (Z.of_nat j + 1)
   = Z.b2z (shr_r rec) * 2 ^ Z.of_nat j + M mod 2 ^ Z.of_nat j)%Z /\
  shr_s rec = negb (M mod 2 ^ Z.of_nat j =? 0)%Z.
Proof.
  intros HM. induction j as [|j IH].
  - cbn [Nat.iter]. rewrite shr_1_nonneg by lia. cbn [shr_m shr_r shr_s orb].
    change (Z.of_nat 0) with 0%Z. change (2 ^ (0 + 1))%Z with 2%Z.
    change (2 ^ 0)%Z with 1%Z. rewrite Z.mod_1_r.
    split; [reflexivity|]. split; [|reflexivity].
    rewrite Zmod_odd. destruct (Z.odd M); cbn [Z.b2z]; lia.
  - cbn zeta in IH |- *. rewrite Nat.iter_succ.
    destruct IH as (Hm & Hmod & Hs).
    destruct (Nat.iter (S j) shr_1 (Build_shr_record M false false))
      as [m r s] eqn:E.
    cbn [shr_m shr_r shr_s] in Hm, Hmod, Hs.
    assert (Hm0 : (0 <= m)%Z) by (subst m; apply Z.div_pos; lia).
    rewrite shr_1_nonneg by exact Hm0. cbn [shr_m shr_r shr_s].
    replace (Z.of_nat (S j)) with (Z.of_nat j + 1)%Z by lia.
    split; [|split].
    + rewrite Hm, Z.div_div by lia.
      rewrite (Z.pow_add_r 2 (Z.of_nat j + 1) 1) by lia. reflexivity.
    + rewrite Hm. apply mod_pow2_succ. lia.
    + rewrite Hs, Hmod.
      pose proof (Z.mod_pos_bound M (2 ^ Z.of_nat j) ltac:(lia)) as Hb.
      assert (Hp : (0 < 2 ^ Z.of_nat j)%Z) by lia.
      destruct r; cbn [Z.b2z orb].
      * symmetry. apply negb_true_iff, Z.eqb_neq. lia.
      * by rewrite Z.mul_0_l, Z.add_0_l.
Qed.

(** *** The rounded mantissa

    Dropping [k] bits of [M] and rounding to nearest, ties to even, gives
    the quotient [q] or [q + 1]; it gives [q + 1] only when the bits
    dropped are worth at least half a unit, and, when they are worth
    exactly half, only when [q + 1] is even; it gives [q] only when they
    are worth at most half a unit. *)
Lemma round_shifted (M : Z) (k : positive) :
  (0 <= M)%Z ->
  let rec := SpecFloat.iter_pos shr_1 k (Build_shr_record M false false) in
  let q := (M / 2 ^ Z.pos k)%Z in
  let rem := (M mod 2 ^ Z.pos k)%Z in
  let R := round_nearest_even (shr_m rec) (loc_of_shr_record rec) in
  (R = q \/ R = (q + 1)%Z) /\
  (R = (q + 1)%Z -> (2 ^ (Z.pos k - 1) <= rem)%Z) /\
  (R = (q + 1)%Z -> rem = (2 ^ (Z.pos k - 1))%Z -> Z.even R = true) /\
  (R = q -> (rem <= 2 ^ (Z.pos k - 1))%Z).
Proof.
  intros HM. cbn zeta. rewrite iter_pos_nat.
  destruct (Pos.to_nat k) as [|j] eqn:Ej; [pose proof (Pos2Nat.is_pos k); lia|].
  assert (Hk : Z.pos k = (Z.of_nat j + 1)%Z) by lia.
  rewrite Hk. replace (Z.of_nat j + 1 - 1)%Z with (Z.of_nat j) by lia.
  destruct (shr_iter M j HM) as (Hm & Hmod & Hs). cbn zeta in Hm, Hmod, Hs.
  destruct (Nat.iter (S j) shr_1 (Build_shr_record M false false)) as [m r s].
  cbn [shr_m shr_r shr_s] in *.
  pose proof (Z.mod_pos_bound M (2 ^ Z.of_nat j) ltac:(lia)) as Hb.
  rewrite <- Hm, Hmod.
  destruct r, s; cbn [loc_of_shr_record round_nearest_even Z.b2z].
  - (* more than half *)
    symmetry in Hs. apply negb_true_iff, Z.eqb_neq in Hs.
    split; [by right|]. split; [lia|]. split; [intros _ H; lia | intros H; lia].
  - (* exactly half *)
    symmetry in Hs. apply negb_false_iff, Z.eqb_eq in Hs.
    destruct (Z.even m) eqn:Ev.
    + split; [by left|]. split; [intros H; lia|].
      split; [intros H; lia | intros _; lia].
    + split; [by right|]. split; [lia|]. split; [|intros H; lia].
      intros _ _. rewrite Z.even_add, Ev. reflexivity.
  - (* less than half *)
    split; [by left|]. split; [intros H; lia|].
    split; [intros H; lia | intros _; lia].
  - (* nothing dropped *)
    symmetry in Hs. apply negb_false_iff, Z.eqb_eq in Hs.
    split; [by left|]. split; [intros H; lia|].
    split; [intros H; lia | intros _; lia].
Qed.

(** *** Number of bits *)

Lemma digits2_pos_unique (p : positive) (n : Z) :
  (2 ^ (n - 1) <= Z.pos p < 2 ^ n)%Z -> Z.pos (digits2_pos p) = n.
Proof.
  intros [Hlo Hhi]. pose proof (digits2_pos_bounds p) as [Dlo Dhi].
  assert (Hn : (0 < n)%Z).
  { destruct (Z.lt_ge_cases 0 n) as [H|H]; [exact H|].
    assert (n = 0 \/ n < 0)%Z as [-> | Hneg] by lia; [cbn in Hhi; lia|].
    rewrite (Z.pow_neg_r 2 n Hneg) in Hhi. lia. }
  destruct (Z.lt_trichotomy (Z.pos (digits2_pos p)) n) as [H|[H|H]]; [|exact H|].
  - assert (2 ^ Z.pos (digits2_pos p) <= 2 ^ (n - 1))%Z
      by (apply Z.pow_le_mono_r; lia). lia.
  - assert (2 ^ n <= 2 ^ (Z.pos (digits2_pos p) - 1))%Z
      by (apply Z.pow_le_mono_r; lia). lia.
Qed.

(** The quotient of an [n]-bit number by [2^k] has [n - k] bits. *)
Lemma quotient_bits (p : positive) (k : Z) :
  (0 <= k < Z.pos (digits2_pos p))%Z ->
  (2 ^ (Z.pos (digits2_pos p) - k - 1) <= Z.pos p / 2 ^ k
   < 2 ^ (Z.pos (digits2_pos p) - k))%Z.
Proof.
  intros Hk. pose proof (digits2_pos_bounds p) as [Dlo Dhi].
  assert (Hp : (0 < 2 ^ k)%Z) by (apply Z.pow_pos_nonneg; lia).
  split.
  - apply Z.div_le_lower_bound; [exact Hp|].
    rewrite Z.mul_comm, <- Z.pow_add_r by lia.
    replace (Z.pos (digits2_pos p) - k - 1 + k)%Z
      with (Z.pos (digits2_pos p) - 1)%Z by lia.
    exact Dlo.
  - apply Z.div_lt_upper_bound; [exact Hp|].
    rewrite <- Z.pow_add_r by lia.
    replace (k + (Z.pos (digits2_pos p) - k))%Z
      with (Z.pos (digits2_pos p)) by lia.
    exact Dhi.
Qed.

(** *** What [binary_round_aux] returns *)

(** The second normalisation step: a mantissa of at most 53 bits at an
    exponent not below the smallest is left alone. *)
Lemma shr_fexp_small (r : positive) (E : Z) :
  (-1074 <= E)%Z -> (Z.pos (digits2_pos r) <= 53)%Z ->
  shr_fexp prec emax (Z.pos r) E loc_Exact
  = (Build_shr_record (Z.pos r) false false, E).
Proof.
  intros HE Hd. unfold shr_fexp. cbn [Zdigits2 shr_record_of_loc].
  assert (Hn : (fexp prec emax (Z.pos (digits2_pos r) + E) - E <= 0)%Z)
    by (unfold fexp, emin, prec, emax; lia).
  unfold shr.
  destruct (fexp prec emax (Z.pos (digits2_pos r) + E) - E)%Z; try reflexivity; lia.
Qed.

(** A mantissa of exactly [2^53] is halved. *)
Lemma shr_fexp_carry (E : Z) :
  (-1074 <= E)%Z ->
  shr_fexp prec emax (2 ^ 53) E loc_Exact
  = (Build_shr_record (2 ^ 52) false false, (E + 1)%Z).
Proof.
  intros HE. unfold shr_fexp.
  change (Zdigits2 (2 ^ 53)) with 54%Z.
  assert (Hn : (fexp prec emax (54 + E) - E = 1)%Z)
    by (unfold fexp, emin, prec, emax; lia).
  rewrite Hn. reflexivity.
Qed.

(** Rounding a mantissa of more than 53 bits. *)
Lemma binary_round_aux_shift (s : bool) (m : positive) (e : Z) :
  let k := (Z.pos (digits2_pos m) - 53)%Z in
  let E0 := (e + k)%Z in
  let q := (Z.pos m / 2 ^ k)%Z in
  let rem := (Z.pos m mod 2 ^ k)%Z in
  (0 < k)%Z -> (-1074 <= e)%Z ->
  exists R : Z,
    (R = q \/ R = (q + 1)%Z) /\
    (R = (q + 1)%Z -> (2 ^ (k - 1) <= rem)%Z) /\
    (R = (q + 1)%Z -> rem = (2 ^ (k - 1))%Z -> Z.even R = true) /\
    (R = q -> (rem <= 2 ^ (k - 1))%Z) /\
    (2 ^ 52 <= R <= 2 ^ 53)%Z /\
    binary_round_aux prec emax s (Z.pos m) e loc_Exact
    = if (R <? 2 ^ 53)%Z
      then (if (E0 <=? emax - prec)%Z then S754_finite s (Z.to_pos R) E0
            else S754_infinity s)
      else (if (E0 + 1 <=? emax - prec)%Z then S754_finite s (Z.to_pos (2 ^ 52)) (E0 + 1)
            else S754_infinity s).
Proof.
  cbn zeta. intros Hk He.
  destruct (Z.pos (digits2_pos m) - 53)%Z as [|kp|kp] eqn:Ek; try lia.
  assert (Hf : (fexp prec emax (Z.pos (digits2_pos m) + e) - e)%Z = Z.pos kp)
    by (unfold fexp, emin, prec, emax; lia).
  destruct (round_shifted (Z.pos m) kp ltac:(lia)) as (HR & Hhalf & Htie & Hlow).
  cbn zeta in HR, Hhalf, Htie, Hlow.
  pose proof (quotient_bits m (Z.pos kp) ltac:(lia)) as Hq.
  replace (Z.pos (digits2_pos m) - Z.pos kp - 1)%Z with 52%Z in Hq by lia.
  replace (Z.pos (digits2_pos m) - Z.pos kp)%Z with 53%Z in Hq by lia.
  set (R := round_nearest_even
              (shr_m (SpecFloat.iter_pos shr_1 kp (Build_shr_record (Z.pos m) false false)))
              (loc_of_shr_record
                 (SpecFloat.iter_pos shr_1 kp (Build_shr_record (Z.pos m) false false)))) in *.
  exists R.
  assert (HRb : (2 ^ 52 <= R <= 2 ^ 53)%Z) by (destruct HR as [-> | ->]; lia).
  split; [exact HR|]. split; [exact Hhalf|]. split; [exact Htie|].
  split; [exact Hlow|]. split; [exact HRb|].
  unfold binary_round_aux. unfold shr_fexp at 1.
  cbn [Zdigits2 shr_record_of_loc]. rewrite Hf. cbn [shr]. fold R.
  clearbody R.
  destruct (R <? 2 ^ 53)%Z eqn:Elt.
  - apply Z.ltb_lt in Elt.
    destruct R as [|r|r]; try lia.
    rewrite shr_fexp_small; [reflexivity | lia |].
    rewrite (digits2_pos_unique r 53); lia.
  - apply Z.ltb_ge in Elt. assert (ER : R = (2 ^ 53)%Z) by lia.
    rewrite ER, shr_fexp_carry by lia. reflexivity.
Qed.

(** *** What [binary_round] returns *)

(** A mantissa of at most 53 bits is shifted to the left into its place:
    nothing is lost. *)
Lemma binary_round_exact (s : bool) (m : positive) (e : Z) :
  (-1074 <= e <= 971)%Z -> (Z.pos (digits2_pos m) <= 53)%Z ->
  let E0 := Z.max (Z.pos (digits2_pos m) + e - 53) (-1074) in
  exists mz : positive,
    Z.pos mz = (Z.pos m * 2 ^ (e - E0))%Z /\
    (Z.pos mz < 2 ^ 53)%Z /\
    binary_round prec emax s m e = S754_finite s mz E0.
Proof.
  cbn zeta. intros He Hd.
  set (E0 := Z.max (Z.pos (digits2_pos m) + e - 53) (-1074)).
  assert (Hf : fexp prec emax (Z.pos (digits2_pos m) + e) = E0)
    by (unfold fexp, emin, prec, emax, E0; lia).
  assert (HE : (E0 <= e)%Z) by (unfold E0; lia).
  assert (HE' : (Z.pos (digits2_pos m) + e - 53 <= E0)%Z) by (unfold E0; lia).
  unfold binary_round. rewrite Hf. unfold shl_align.
  destruct (E0 - e)%Z as [|dd|dd] eqn:Ed; try lia.
  - exists m. replace (e - E0)%Z with 0%Z by lia. rewrite Z.mul_1_r.
    split; [reflexivity|]. split.
    + pose proof (digits2_pos_bounds m) as [_ Hhi].
      assert (2 ^ Z.pos (digits2_pos m) <= 2 ^ 53)%Z
        by (apply Z.pow_le_mono_r; lia).
      lia.
    + replace E0 with e by lia. apply binary_round_aux_canonical.
      unfold bounded, canonical_mantissa. rewrite Hf.
      apply andb_true_iff. split; [apply Z.eqb_eq; lia|].
      apply Z.leb_le. unfold prec, emax. lia.
  - exists (Pos.iter xO m dd).
    replace (e - E0)%Z with (Z.pos dd) by lia.
    split; [apply iter_xO_value|]. split.
    + pose proof (digits2_pos_bounds (Pos.iter xO m dd)) as [_ Hhi].
      rewrite digits2_pos_iter_xO, iter_xO_value in Hhi.
      assert (2 ^ (Z.pos (digits2_pos m) + Z.pos dd) <= 2 ^ 53)%Z
        by (apply Z.pow_le_mono_r; lia).
      rewrite iter_xO_value. lia.
    + apply binary_round_aux_canonical.
      unfold bounded, canonical_mantissa. rewrite digits2_pos_iter_xO.
      apply andb_true_iff. split.
      * apply Z.eqb_eq. unfold fexp, emin, prec, emax. lia.
      * apply Z.leb_le. unfold prec, emax. lia.
Qed.

(** A mantissa of more than 53 bits is rounded. *)
Lemma binary_round_shift (s : bool) (m : positive) (e : Z) :
  let k := (Z.pos (digits2_pos m) - 53)%Z in
  let E0 := (e + k)%Z in
  let q := (Z.pos m / 2 ^ k)%Z in
  let rem := (Z.pos m mod 2 ^ k)%Z in
  (0 < k)%Z -> (-1074 <= e)%Z ->
  exists R : Z,
    (R = q \/ R = (q + 1)%Z) /\
    (R = (q + 1)%Z -> (2 ^ (k - 1) <= rem)%Z) /\
    (R = (q + 1)%Z -> rem = (2 ^ (k - 1))%Z -> Z.even R = true) /\
    (R = q -> (rem <= 2 ^ (k - 1))%Z) /\
    (2 ^ 52 <= R <= 2 ^ 53)%Z /\
    binary_round prec emax s m e
    = if (R <? 2 ^ 53)%Z
      then (if (E0 <=? emax - prec)%Z then S754_finite s (Z.to_pos R) E0
            else S754_infinity s)
      else (if (E0 + 1 <=? emax - prec)%Z then S754_finite s (Z.to_pos (2 ^ 52)) (E0 + 1)
            else S754_infinity s).
Proof.
  cbn zeta. intros Hk He.
  assert (Hf : fexp prec emax (Z.pos (digits2_pos m) + e)
               = (e + (Z.pos (digits2_pos m) - 53))%Z)
    by (unfold fexp, emin, prec, emax; lia).
  unfold binary_round. rewrite Hf. unfold shl_align.
  destruct (e + (Z.pos (digits2_pos m) - 53) - e)%Z as [|dd|dd] eqn:Ed; try lia;
    exact (binary_round_aux_shift s m e Hk He).
Qed.

(** When the exponent stays in range the result is finite.  Its value is
    counted in units of [2^-1074]: that of the mantissa itself when it
    has at most 53 bits, and that of the rounded quotient [R] when it has
    [k] bits more. *)
Lemma binary_round_value (s : bool) (m : positive) (e : Z) :
  let k := (Z.pos (digits2_pos m) - 53)%Z in
  (-1074 <= e <= 971)%Z -> (e + k <= 970)%Z ->
  exists (mr : positive) (er : Z),
    binary_round prec emax s m e = S754_finite s mr er /\
    (Z.max (e + k) (-1074) <= er <= Z.max (e + k) (-1074) + 1)%Z /\
    ((k <= 0)%Z ->
     (Z.pos mr * 2 ^ (er + 1074) = Z.pos m * 2 ^ (e + 1074))%Z /\
     (Z.pos mr < 2 ^ 53)%Z) /\
    ((0 < k)%Z ->
     exists R : Z,
       (R = Z.pos m / 2 ^ k \/ R = Z.pos m / 2 ^ k + 1)%Z /\
       (R = Z.pos m / 2 ^ k + 1 -> 2 ^ (k - 1) <= Z.pos m mod 2 ^ k)%Z /\
       (R = (Z.pos m / 2 ^ k + 1)%Z -> (Z.pos m mod 2 ^ k = 2 ^ (k - 1))%Z ->
        Z.even R = true) /\
       (R = (Z.pos m / 2 ^ k)%Z -> (Z.pos m mod 2 ^ k <= 2 ^ (k - 1))%Z) /\
       (2 ^ 52 <= R <= 2 ^ 53)%Z /\
       (Z.pos mr * 2 ^ (er + 1074) = R * 2 ^ (e + k + 1074))%Z).
Proof.
  cbn zeta. intros He Hk.
  destruct (Z_le_gt_dec (Z.pos (digits2_pos m) - 53) 0) as [Hs|Hs].
  - destruct (binary_round_exact s m e He ltac:(lia)) as (mz & Hmz & Hlt & E).
    cbn zeta in Hmz, E.
    set (E0 := Z.max (Z.pos (digits2_pos m) + e - 53) (-1074)) in *.
    assert (HE : (-1074 <= E0 <= e)%Z) by (unfold E0; lia).
    exists mz, E0. split; [exact E|]. split; [lia|]. split; [|lia].
    intros _. split; [|exact Hlt].
    rewrite Hmz, <- Z.mul_assoc, <- Z.pow_add_r by lia.
    do 2 f_equal. lia.
  - destruct (binary_round_shift s m e ltac:(lia) ltac:(lia))
      as (R & HR & Hhalf & Htie & Hlow & HRb & E).
    assert (Hin : (e + (Z.pos (digits2_pos m) - 53) <=? emax - prec)%Z = true)
      by (apply Z.leb_le; unfold emax, prec; lia).
    assert (Hin' : (e + (Z.pos (digits2_pos m) - 53) + 1 <=? emax - prec)%Z = true)
      by (apply Z.leb_le; unfold emax, prec; lia).
    rewrite Hin, Hin' in E.
    destruct (R <? 2 ^ 53)%Z eqn:Elt.
    + exists (Z.to_pos R), (e + (Z.pos (digits2_pos m) - 53))%Z.
      split; [exact E|]. split; [lia|]. split; [lia|]. intros _.
      exists R. rewrite Z2Pos.id by lia.
      split; [exact HR|]. split; [exact Hhalf|]. split; [exact Htie|].
      split; [exact Hlow|]. split; [exact HRb|]. reflexivity.
    + apply Z.ltb_ge in Elt. assert (ER : R = (2 ^ 53)%Z) by lia.
      exists (Z.to_pos (2 ^ 52)), (e + (Z.pos (digits2_pos m) - 53) + 1)%Z.
      split; [exact E|]. split; [lia|]. split; [lia|]. intros _.
      exists R.
      split; [exact HR|]. split; [exact Hhalf|]. split; [exact Htie|].
      split; [exact Hlow|]. split; [exact HRb|].
      rewrite ER.
      replace (e + (Z.pos (digits2_pos m) - 53) + 1 + 1074)%Z
        with (Z.succ (e + (Z.pos (digits2_pos m) - 53) + 1074)) by lia.
      rewrite Z.pow_succ_r by lia.
      change (Z.pos (Z.to_pos (2 ^ 52))) with (2 ^ 52)%Z.
      change (2 ^ 53)%Z with (2 ^ 52 * 2)%Z. ring.
Qed.

(** *** Two bounds on the rounded value *)

Lemma pow2_gt_0 (a : Z) : (0 <= a)%Z -> (0 < 2 ^ a)%Z.
Proof. intros H. by apply Z.pow_pos_nonneg. Qed.

Lemma pow2_double (a : Z) : (0 <= a)%Z -> (2 ^ (a + 1) = 2 * 2 ^ a)%Z.
Proof. intros H. by rewrite Z.pow_add_r, Z.mul_comm. Qed.

(** A value below [2^(Ec + 53)] is rounded at an exponent not above
    [Ec]. *)
Lemma exponent_bound (m : positive) (e Ec : Z) :
  (-1074 <= e)%Z -> (-1074 <= Ec)%Z ->
  (Z.pos m * 2 ^ (e + 1074) < 2 ^ (Ec + 1127))%Z ->
  (e + (Z.pos (digits2_pos m) - 53) <= Ec)%Z.
Proof.
  intros He HEc Hv. pose proof (digits2_pos_bounds m) as [Hlo _].
  destruct (Z_le_gt_dec (e + (Z.pos (digits2_pos m) - 53)) Ec) as [H|H]; [exact H|].
  exfalso.
  assert (H1 : (2 ^ (Ec + 1127) <= 2 ^ (Z.pos (digits2_pos m) - 1 + (e + 1074)))%Z)
    by (apply Z.pow_le_mono_r; lia).
  rewrite (Z.pow_add_r 2 (Z.pos (digits2_pos m) - 1) (e + 1074)) in H1 by lia.
  pose proof (pow2_gt_0 (e + 1074) ltac:(lia)) as HW.
  assert (H2 : (2 ^ (Z.pos (digits2_pos m) - 1) * 2 ^ (e + 1074)
                <= Z.pos m * 2 ^ (e + 1074))%Z)
    by (apply Z.mul_le_mono_nonneg_r; lia).
  lia.
Qed.

(** Rounding carries at most half a unit in the last place. *)
Lemma round_up_bound (s : bool) (m : positive) (e Ec : Z) :
  (-1074 <= e <= 971)%Z -> (-1073 <= Ec <= 970)%Z ->
  (Z.pos m * 2 ^ (e + 1074) < 2 ^ (Ec + 1127))%Z ->
  exists (mr : positive) (er : Z),
    binary_round prec emax s m e = S754_finite s mr er /\
    (Z.pos mr * 2 ^ (er + 1074)
     <= Z.pos m * 2 ^ (e + 1074) + 2 ^ (Ec + 1073))%Z.
Proof.
  intros He HEc Hv.
  pose proof (exponent_bound m e Ec ltac:(lia) ltac:(lia) Hv) as HE.
  destruct (binary_round_value s m e He ltac:(lia))
    as (mr & er & E & Her & Hex & Hsh).
  exists mr, er. split; [exact E|].
  pose proof (pow2_gt_0 (Ec + 1073) ltac:(lia)) as HU.
  destruct (Z_le_gt_dec (Z.pos (digits2_pos m) - 53) 0) as [Hs|Hs].
  - destruct (Hex Hs) as [-> _]. lia.
  - destruct (Hsh ltac:(lia)) as (R & HR & Hhalf & _ & _ & HRb & ->).
    set (k := (Z.pos (digits2_pos m) - 53)%Z) in *.
    pose proof (pow2_gt_0 (e + 1074) ltac:(lia)) as HW.
    pose proof (pow2_gt_0 (k - 1) ltac:(lia)) as HQ.
    pose proof (Z.div_mod (Z.pos m) (2 ^ k) ltac:(lia)) as Hdm.
    pose proof (Z.mod_pos_bound (Z.pos m) (2 ^ k) ltac:(lia)) as Hrem.
    assert (HP : (2 ^ k = 2 * 2 ^ (k - 1))%Z).
    { replace k with (k - 1 + 1)%Z at 1 by lia. apply pow2_double. lia. }
    assert (H1 : (R * 2 ^ k <= Z.pos m + 2 ^ (k - 1))%Z).
    { destruct HR as [-> | ->]; [nia|]. specialize (Hhalf eq_refl). nia. }
    replace (e + k + 1074)%Z with (k + (e + 1074))%Z by lia.
    rewrite Z.pow_add_r, Z.mul_assoc by lia.
    assert (H2 : (2 ^ (k - 1) * 2 ^ (e + 1074) <= 2 ^ (Ec + 1073))%Z).
    { rewrite <- Z.pow_add_r by lia. apply Z.pow_le_mono_r; lia. }
    assert (H3 : (R * 2 ^ k * 2 ^ (e + 1074)
                  <= (Z.pos m + 2 ^ (k - 1)) * 2 ^ (e + 1074))%Z)
      by (apply Z.mul_le_mono_nonneg_r; lia).
    lia.
Qed.

(** A value not above a number is not rounded past it; nor is a value
    not more than half a unit in the last place above a number with an
    even mantissa. *)
Lemma round_below (s : bool) (m : positive) (e : Z) (mc : positive) (Ec : Z) :
  (-1074 <= e <= 971)%Z -> (-1073 <= Ec <= 970)%Z ->
  (2 ^ 52 <= Z.pos mc < 2 ^ 53)%Z ->
  (Z.pos m * 2 ^ (e + 1074)
   <= Z.pos mc * 2 ^ (Ec + 1074) + 2 ^ (Ec + 1073))%Z ->
  (Z.even (Z.pos mc) = true \/
   (Z.pos m * 2 ^ (e + 1074) <= Z.pos mc * 2 ^ (Ec + 1074))%Z) ->
  exists (mr : positive) (er : Z),
    binary_round prec emax s m e = S754_finite s mr er /\
    (Z.pos mr * 2 ^ (er + 1074) <= Z.pos mc * 2 ^ (Ec + 1074))%Z.
Proof.
  intros He HEc Hmc Hv Hd.
  pose proof (pow2_gt_0 (Ec + 1073) ltac:(lia)) as HU.
  assert (HC : (2 ^ (Ec + 1074) = 2 * 2 ^ (Ec + 1073))%Z).
  { replace (Ec + 1074)%Z with (Ec + 1073 + 1)%Z by lia. apply pow2_double. lia. }
  assert (HT : (2 ^ (Ec + 1127) = 2 ^ 53 * 2 ^ (Ec + 1074))%Z).
  { replace (Ec + 1127)%Z with (53 + (Ec + 1074))%Z by lia.
    apply Z.pow_add_r; lia. }
  assert (Hlt : (Z.pos m * 2 ^ (e + 1074) < 2 ^ (Ec + 1127))%Z).
  { rewrite HT, HC. rewrite HC in Hv. nia. }
  pose proof (exponent_bound m e Ec ltac:(lia) ltac:(lia) Hlt) as HE.
  destruct (binary_round_value s m e He ltac:(lia))
    as (mr & er & E & Her & Hex & Hsh).
  exists mr, er. split; [exact E|].
  assert (Hsmall : forall (R E0 : Z), (0 <= R <= 2 ^ 53)%Z -> (-1074 <= E0 < Ec)%Z ->
            (R * 2 ^ (E0 + 1074) <= Z.pos mc * 2 ^ (Ec + 1074))%Z).
  { intros R E0 HR HE0.
    pose proof (pow2_gt_0 (E0 + 1074) ltac:(lia)) as HW0.
    assert (H1 : (2 ^ (E0 + 1074 + 1) <= 2 ^ (Ec + 1074))%Z)
      by (apply Z.pow_le_mono_r; lia).
    rewrite pow2_double in H1 by lia.
    assert (H2 : (R * 2 ^ (E0 + 1074) <= 2 ^ 53 * 2 ^ (E0 + 1074))%Z)
      by (apply Z.mul_le_mono_nonneg_r; lia).
    assert (H3 : (2 ^ 52 * 2 ^ (Ec + 1074) <= Z.pos mc * 2 ^ (Ec + 1074))%Z)
      by (apply Z.mul_le_mono_nonneg_r; lia).
    change (2 ^ 53)%Z with (2 ^ 52 * 2)%Z in H2. nia. }
  destruct (Z_le_gt_dec (Z.pos (digits2_pos m) - 53) 0) as [Hs|Hs].
  - (* nothing is rounded: the value is a number, and no number lies
       strictly between two neighbours *)
    destruct (Hex Hs) as [Hval Hmr]. rewrite <- Hval in Hv.
    destruct (Z_lt_ge_dec er Ec) as [Hlow|Hhigh].
    + apply Hsmall; lia.
    + replace (er + 1074)%Z with (er - Ec + (Ec + 1074))%Z in * by lia.
      rewrite Z.pow_add_r, Z.mul_assoc in * by lia.
      pose proof (pow2_gt_0 (er - Ec) ltac:(lia)) as HX.
      rewrite HC in *.
      assert (HXm : (Z.pos mr * 2 ^ (er - Ec) <= Z.pos mc)%Z) by nia.
      nia.
  - destruct (Hsh ltac:(lia)) as (R & HR & Hhalf & Htie & _ & HRb & ->).
    set (k := (Z.pos (digits2_pos m) - 53)%Z) in *.
    destruct (Z_lt_ge_dec (e + k) Ec) as [Hlow|Hhigh].
    + apply Hsmall; lia.
    + assert (EE : (e + k)%Z = Ec) by lia.
      pose proof (pow2_gt_0 (e + 1074) ltac:(lia)) as HW.
      pose proof (pow2_gt_0 (k - 1) ltac:(lia)) as HQ.
      pose proof (Z.div_mod (Z.pos m) (2 ^ k) ltac:(lia)) as Hdm.
      pose proof (Z.mod_pos_bound (Z.pos m) (2 ^ k) ltac:(lia)) as Hrem.
      assert (HP : (2 ^ k = 2 * 2 ^ (k - 1))%Z).
      { replace k with (k - 1 + 1)%Z at 1 by lia. apply pow2_double. lia. }
      assert (HcP : (2 ^ (Ec + 1074) = 2 ^ k * 2 ^ (e + 1074))%Z).
      { rewrite <- Z.pow_add_r by lia. f_equal. lia. }
      assert (HcQ : (2 ^ (Ec + 1073) = 2 ^ (k - 1) * 2 ^ (e + 1074))%Z).
      { rewrite <- Z.pow_add_r by lia. f_equal. lia. }
      assert (Hm : (Z.pos m <= Z.pos mc * 2 ^ k + 2 ^ (k - 1))%Z).
      { rewrite HcP, HcQ in Hv.
        apply (Z.mul_le_mono_pos_r _ _ (2 ^ (e + 1074)) HW).
        rewrite Z.mul_add_distr_r, <- Z.mul_assoc. exact Hv. }
      assert (HRmc : (R <= Z.pos mc)%Z).
      { assert (Hq : (Z.pos m / 2 ^ k < Z.pos mc + 1)%Z)
          by (apply Z.div_lt_upper_bound; lia).
        destruct HR as [-> | ER]; [lia|].
        destruct (Z.eq_dec (Z.pos m / 2 ^ k)%Z (Z.pos mc)) as [Eq|Ne]; [|lia].
        exfalso. specialize (Hhalf ER).
        assert (Hr : (Z.pos m mod 2 ^ k = 2 ^ (k - 1))%Z)
          by (rewrite Eq in Hdm; lia).
        destruct Hd as [Hev|Hle].
        - specialize (Htie ER Hr).
          rewrite ER, Eq, Z.even_add, Hev in Htie. discriminate.
        - rewrite HcP, Z.mul_assoc in Hle.
          apply (Z.mul_le_mono_pos_r _ _ (2 ^ (e + 1074)) HW) in Hle.
          rewrite Eq in Hdm. lia. }
      replace (e + k + 1074)%Z with (Ec + 1074)%Z by lia.
      apply Z.mul_le_mono_nonneg_r; lia.
Qed.

(** Conversely, a value that is rounded to a number not above [c] is at
    most half a unit in the last place of [c] above [c]. *)
Lemma round_not_far (s : bool) (m : positive) (e : Z) (mc : positive) (Ec : Z)
    (mr : positive) (er : Z) :
  (-1074 <= e <= 971)%Z -> (-1073 <= Ec <= 969)%Z ->
  (2 ^ 52 <= Z.pos mc < 2 ^ 53)%Z ->
  (Z.pos m * 2 ^ (e + 1074) < 2 ^ (Ec + 1128))%Z ->
  binary_round prec emax s m e = S754_finite s mr er ->
  (Z.pos mr * 2 ^ (er + 1074) <= Z.pos mc * 2 ^ (Ec + 1074))%Z ->
  (Z.pos m * 2 ^ (e + 1074)
   <= Z.pos mc * 2 ^ (Ec + 1074) + 2 ^ (Ec + 1073))%Z.
Proof.
  intros He HEc Hmc Hlt E Hle.
  pose proof (pow2_gt_0 (Ec + 1073) ltac:(lia)) as HU.
  pose proof (pow2_gt_0 (Ec + 1074) ltac:(lia)) as HC.
  replace (Ec + 1128)%Z with (Ec + 1 + 1127)%Z in Hlt by lia.
  pose proof (exponent_bound m e (Ec + 1) ltac:(lia) ltac:(lia) Hlt) as HE.
  destruct (binary_round_value s m e He ltac:(lia))
    as (mr' & er' & E' & Her & Hex & Hsh).
  rewrite E' in E. injection E as -> ->.
  destruct (Z_le_gt_dec (Z.pos (digits2_pos m) - 53) 0) as [Hs|Hs].
  - destruct (Hex Hs) as [<- _]. lia.
  - destruct (Hsh ltac:(lia)) as (R & HR & _ & _ & Hlow & HRb & Hval).
    rewrite Hval in Hle.
    set (k := (Z.pos (digits2_pos m) - 53)%Z) in *.
    pose proof (pow2_gt_0 (e + 1074) ltac:(lia)) as HW.
    pose proof (pow2_gt_0 (k - 1) ltac:(lia)) as HQ.
    pose proof (pow2_gt_0 (e + k + 1074) ltac:(lia)) as HV.
    pose proof (Z.div_mod (Z.pos m) (2 ^ k) ltac:(lia)) as Hdm.
    pose proof (Z.mod_pos_bound (Z.pos m) (2 ^ k) ltac:(lia)) as Hrem.
    assert (HP : (2 ^ k = 2 * 2 ^ (k - 1))%Z).
    { replace k with (k - 1 + 1)%Z at 1 by lia. apply pow2_double. lia. }
    assert (HEk : (e + k <= Ec)%Z).
    { destruct (Z_le_gt_dec (e + k) Ec) as [H|H]; [exact H|]. exfalso.
      assert (H1 : (2 ^ (Ec + 1074 + 1) <= 2 ^ (e + k + 1074))%Z)
        by (apply Z.pow_le_mono_r; lia).
      rewrite pow2_double in H1 by lia.
      assert (H2 : (2 ^ 52 * 2 ^ (e + k + 1074) <= R * 2 ^ (e + k + 1074))%Z)
        by (apply Z.mul_le_mono_nonneg_r; lia).
      assert (H3 : (Z.pos mc * 2 ^ (Ec + 1074) < 2 ^ 53 * 2 ^ (Ec + 1074))%Z)
        by (apply Z.mul_lt_mono_pos_r; lia).
      change (2 ^ 53)%Z with (2 ^ 52 * 2)%Z in H3. lia. }
    assert (H1 : (Z.pos m <= R * 2 ^ k + 2 ^ (k - 1))%Z).
    { destruct HR as [ER | ER].
      - specialize (Hlow ER). rewrite ER. lia.
      - rewrite ER. lia. }
    assert (H2 : (Z.pos m * 2 ^ (e + 1074)
                  <= (R * 2 ^ k + 2 ^ (k - 1)) * 2 ^ (e + 1074))%Z)
      by (apply Z.mul_le_mono_nonneg_r; lia).
    rewrite Z.mul_add_distr_r, <- Z.mul_assoc, <- !Z.pow_add_r in H2 by lia.
    replace (k + (e + 1074))%Z with (e + k + 1074)%Z in H2 by lia.
    assert (H3 : (2 ^ (k - 1 + (e + 1074)) <= 2 ^ (Ec + 1073))%Z)
      by (apply Z.pow_le_mono_r; lia).
    lia.
Qed.

(** *** Values in units of [2^-1074] *)

Lemma valid_exponent (a : float) (s : bool) (m : positive) (e : Z) :
  Prim2SF a = S754_finite s m e ->
  (-1074 <= e <= 971)%Z /\ (Z.pos m < 2 ^ 53)%Z /\
  ((-1074 < e)%Z -> (2 ^ 52 <= Z.pos m)%Z).
Proof.
  intros E. pose proof (Prim2SF_valid a) as Hv. rewrite E in Hv.
  cbn [valid_binary] in Hv.
  pose proof (bounded_exponent m e Hv) as Hlo.
  pose proof (bounded_mantissa m e Hv) as [Hm Hn].
  unfold bounded in Hv. apply andb_true_iff in Hv as [_ Hhi].
  apply Z.leb_le in Hhi. unfold emax, prec in Hhi. repeat split; try lia; auto.
Qed.

Lemma F2Q_scaled (a : float) :
  is_finite a = true -> (F2Q a == inject_Z (scaled a) * Qpower 2 (-1074))%Q.
Proof.
  unfold is_finite, F2Q, scaled.
  destruct (Prim2SF a) as [s|s| |s m e] eqn:E; try discriminate; intros _.
  - ring.
  - destruct (valid_exponent a s m e E) as ([Hlo _] & _).
    rewrite inject_Z_mult, Zpower_Qpower by lia.
    change (inject_Z 2) with 2%Q.
    rewrite <- Qmult_assoc, <- Qpower_plus by discriminate.
    replace (e + 1074 + -1074)%Z with e by lia. reflexivity.
Qed.

Lemma leb_scaled (a b : float) :
  is_finite a = true -> is_finite b = true ->
  PrimFloat.leb a b = true <-> (scaled a <= scaled b)%Z.
Proof.
  intros Ha Hb. rewrite (leb_F2Q a b Ha Hb), (F2Q_scaled a Ha), (F2Q_scaled b Hb).
  rewrite Qmult_le_r by apply pow2_pos. by rewrite Zle_Qle.
Qed.

Lemma not_ltb_scaled (a b : float) :
  is_finite a = true -> is_finite b = true ->
  PrimFloat.ltb a b = false <-> (scaled b <= scaled a)%Z.
Proof.
  intros Ha Hb. rewrite (not_ltb_F2Q a b Ha Hb), (F2Q_scaled a Ha), (F2Q_scaled b Hb).
  rewrite Qmult_le_r by apply pow2_pos. by rewrite Zle_Qle.
Qed.

Lemma ltb_scaled (a b : float) :
  is_finite a = true -> is_finite b = true ->
  PrimFloat.ltb a b = true <-> (scaled a < scaled b)%Z.
Proof.
  intros Ha Hb. pose proof (not_ltb_scaled a b Ha Hb) as H.
  destruct (PrimFloat.ltb a b); split; intros H1; try done; lia.
Qed.

(** *** Sums and differences of finite numbers *)

Lemma shl_align_value (m : positive) (e e' : Z) :
  (e' <= e)%Z -> Z.pos (fst (shl_align m e e')) = (Z.pos m * 2 ^ (e - e'))%Z.
Proof.
  intros H. unfold shl_align.
  destruct (e' - e)%Z as [|d|d] eqn:Ed; cbn [fst]; try lia.
  - replace (e - e')%Z with 0%Z by lia. lia.
  - rewrite iter_xO_value. do 2 f_equal. lia.
Qed.

Lemma aligned_value (s : bool) (m : positive) (e ez : Z) :
  (-1074 <= ez <= e)%Z ->
  (cond_Zopp s (Z.pos (fst (shl_align m e ez))) * 2 ^ (ez + 1074)
   = (if s then Z.neg m else Z.pos m) * 2 ^ (e + 1074))%Z.
Proof.
  intros H. rewrite shl_align_value by lia.
  replace (e + 1074)%Z with (e - ez + (ez + 1074))%Z by lia.
  rewrite (Z.pow_add_r 2 (e - ez) (ez + 1074)) by lia.
  destruct s; cbn [cond_Zopp]; [change (Z.neg m) with (- Z.pos m)%Z|]; ring.
Qed.

(** The sum of two finite numbers other than zero is their exact sum,
    rounded. *)
Lemma add_finite (a b : float) (sa : bool) (ma : positive) (ea : Z)
    (sb : bool) (mb : positive) (eb : Z) :
  Prim2SF a = S754_finite sa ma ea -> Prim2SF b = S754_finite sb mb eb ->
  exists M ez : Z,
    (-1074 <= ez <= 971)%Z /\
    (M * 2 ^ (ez + 1074) = scaled a + scaled b)%Z /\
    Prim2SF (a + b) = binary_normalize prec emax M ez false.
Proof.
  intros Ea Eb.
  destruct (valid_exponent a _ _ _ Ea) as (Ha & _).
  destruct (valid_exponent b _ _ _ Eb) as (Hb & _).
  exists (cond_Zopp sa (Z.pos (fst (shl_align ma ea (Z.min ea eb))))
          + cond_Zopp sb (Z.pos (fst (shl_align mb eb (Z.min ea eb)))))%Z,
         (Z.min ea eb).
  split; [lia|]. split.
  - rewrite Z.mul_add_distr_r, !aligned_value by lia.
    unfold scaled. by rewrite Ea, Eb.
  - rewrite FloatAxioms.add_spec, Ea, Eb. reflexivity.
Qed.

Lemma sub_finite (a b : float) (sa : bool) (ma : positive) (ea : Z)
    (sb : bool) (mb : positive) (eb : Z) :
  Prim2SF a = S754_finite sa ma ea -> Prim2SF b = S754_finite sb mb eb ->
  exists M ez : Z,
    (-1074 <= ez <= 971)%Z /\
    (M * 2 ^ (ez + 1074) = scaled a - scaled b)%Z /\
    Prim2SF (a - b) = binary_normalize prec emax M ez false.
Proof.
  intros Ea Eb.
  destruct (valid_exponent a _ _ _ Ea) as (Ha & _).
  destruct (valid_exponent b _ _ _ Eb) as (Hb & _).
  exists (cond_Zopp sa (Z.pos (fst (shl_align ma ea (Z.min ea eb))))
          - cond_Zopp sb (Z.pos (fst (shl_align mb eb (Z.min ea eb)))))%Z,
         (Z.min ea eb).
  split; [lia|]. split.
  - rewrite Z.mul_sub_distr_r, !aligned_value by lia.
    unfold scaled. by rewrite Ea, Eb.
  - rewrite FloatAxioms.sub_spec, Ea, Eb. reflexivity.
Qed.

(** Subtracting [0] changes nothing. *)
Lemma sub_zero (a : float) : (a - 0)%float = a.
Proof.
  apply Prim2SF_inj. rewrite FloatAxioms.sub_spec, Prim2SF_zero.
  by destruct (Prim2SF a) as [[]|[]| |s m e].
Qed.

(** Adding to [0]: the order does not see the difference. *)
Lemma SFcompare_add_zero (f g : spec_float) :
  SFcompare f (SF64add (S754_zero false) g) = SFcompare f g.
Proof. by destruct g as [[]|[]| |s m e], f as [[]|[]| |s' m' e']. Qed.

Lemma ltb_add_zero (c w : float) :
  PrimFloat.ltb c (0 + w) = PrimFloat.ltb c w.
Proof.
  rewrite !FloatAxioms.ltb_spec, FloatAxioms.add_spec, Prim2SF_zero.
  unfold SFltb. by rewrite SFcompare_add_zero.
Qed.

(** *** Below a number with an even mantissa *)

Lemma scaled_finite (a : float) (s : bool) (m : positive) (e : Z) :
  Prim2SF a = S754_finite s m e ->
  scaled a = ((if s then Z.neg m else Z.pos m) * 2 ^ (e + 1074))%Z.
Proof. intros E. unfold scaled. by rewrite E. Qed.

Lemma scaled_nonneg_sign (a : float) (s : bool) (m : positive) (e : Z) :
  Prim2SF a = S754_finite s m e -> (0 <= scaled a)%Z -> s = false.
Proof.
  intros E H. rewrite (scaled_finite a s m e E) in H.
  destruct (valid_exponent a s m e E) as (He & _).
  pose proof (pow2_gt_0 (e + 1074) ltac:(lia)) as HW.
  destruct s; [|reflexivity]. exfalso.
  pose proof (Z.mul_neg_pos (Z.neg m) (2 ^ (e + 1074)) ltac:(lia) HW). lia.
Qed.

Lemma scaled_pos (a : float) (m : positive) (e : Z) :
  Prim2SF a = S754_finite false m e -> (0 < scaled a)%Z.
Proof.
  intros E. rewrite (scaled_finite a false m e E).
  destruct (valid_exponent a false m e E) as (He & _).
  pose proof (pow2_gt_0 (e + 1074) ltac:(lia)) as HW.
  apply Z.mul_pos_pos; lia.
Qed.

(** The difference [c - w] for [0 <= w <= c]: not below [0], not above
    [c], and at most half a unit in the last place of [c] above the
    exact difference. *)
Lemma sub_bounds (c w : float) (mc : positive) (Ec : Z) :
  Prim2SF c = S754_finite false mc Ec ->
  (-1073 <= Ec <= 970)%Z ->
  is_finite w = true -> (0 <= scaled w <= scaled c)%Z ->
  is_finite (c - w) = true /\
  (0 <= scaled (c - w) <= scaled c)%Z /\
  (scaled (c - w) <= scaled c - scaled w + 2 ^ (Ec + 1073))%Z.
Proof.
  intros Hc HEc Fw [Hw0 Hwc].
  destruct (valid_exponent c _ _ _ Hc) as (_ & Hm53 & Hm52).
  specialize (Hm52 ltac:(lia)).
  pose proof (scaled_finite c _ _ _ Hc) as Sc. cbv iota in Sc.
  pose proof (pow2_gt_0 (Ec + 1073) ltac:(lia)) as HU.
  pose proof (pow2_gt_0 (Ec + 1074) ltac:(lia)) as HC.
  assert (HT : (2 ^ (Ec + 1127) = 2 ^ 53 * 2 ^ (Ec + 1074))%Z).
  { replace (Ec + 1127)%Z with (53 + (Ec + 1074))%Z by lia.
    apply Z.pow_add_r; lia. }
  assert (Hc53 : (scaled c < 2 ^ (Ec + 1127))%Z).
  { rewrite Sc, HT. apply Z.mul_lt_mono_pos_r; lia. }
  unfold is_finite in Fw.
  destruct (Prim2SF w) as [sw|sw| |sw mw ew] eqn:Ew; try discriminate.
  - assert (E : (c - w)%float = c).
    { apply Prim2SF_inj. by rewrite FloatAxioms.sub_spec, Hc, Ew. }
    assert (Sw : scaled w = 0%Z) by (unfold scaled; by rewrite Ew).
    rewrite E. unfold is_finite. rewrite Hc. split; [reflexivity|]. lia.
  - pose proof (scaled_nonneg_sign w _ _ _ Ew Hw0) as ->.
    destruct (sub_finite c w _ _ _ _ _ _ Hc Ew) as (M & ez & Hez & HM & E).
    pose proof (pow2_gt_0 (ez + 1074) ltac:(lia)) as HW.
    pose proof (scaled_pos w _ _ Ew) as Hwp.
    destruct M as [|p|p]; cbn [binary_normalize] in E.
    + assert (S0 : scaled (c - w) = 0%Z) by (unfold scaled; by rewrite E).
      unfold is_finite. rewrite E, S0. split; [reflexivity|]. lia.
    + destruct (round_up_bound false p ez Ec Hez HEc ltac:(lia))
        as (mr & er & E1 & B1).
      assert (Hle : (Z.pos p * 2 ^ (ez + 1074) <= Z.pos mc * 2 ^ (Ec + 1074))%Z)
        by lia.
      destruct (round_below false p ez mc Ec Hez HEc ltac:(lia) ltac:(lia)
                  (or_intror Hle))
        as (mr' & er' & E2 & B2).
      rewrite E1 in E2. injection E2 as <- <-. rewrite E1 in E.
      pose proof (scaled_pos (c - w) _ _ E) as Hpos.
      rewrite (scaled_finite _ _ _ _ E) in *.
      unfold is_finite. rewrite E. split; [reflexivity|]. lia.
    + exfalso.
      pose proof (Z.mul_neg_pos (Z.neg p) (2 ^ (ez + 1074)) ltac:(lia) HW). lia.
Qed.

(** The sum [v + w] of two numbers not below [0] whose exact sum is at
    most half a unit in the last place above [c] is not above [c]. *)
Lemma add_bounds (c v w : float) (mc : positive) (Ec : Z) :
  Prim2SF c = S754_finite false mc Ec -> Z.even (Z.pos mc) = true ->
  (-1073 <= Ec <= 970)%Z ->
  is_finite v = true -> is_finite w = true ->
  (0 <= scaled v <= scaled c)%Z -> (0 <= scaled w <= scaled c)%Z ->
  (scaled v + scaled w <= scaled c + 2 ^ (Ec + 1073))%Z ->
  is_finite (v + w) = true /\ (scaled (v + w) <= scaled c)%Z.
Proof.
  intros Hc Hev HEc Fv Fw [Hv0 Hvc] [Hw0 Hwc] Hsum.
  destruct (valid_exponent c _ _ _ Hc) as (_ & Hm53 & Hm52).
  specialize (Hm52 ltac:(lia)).
  pose proof (scaled_finite c _ _ _ Hc) as Sc. cbv iota in Sc.
  unfold is_finite in Fv, Fw.
  destruct (Prim2SF v) as [sv|sv| |sv mv ev] eqn:Ev; try discriminate;
    destruct (Prim2SF w) as [sw|sw| |sw mw ew] eqn:Ew; try discriminate.
  - assert (E : exists z, Prim2SF (v + w) = S754_zero z).
    { rewrite FloatAxioms.add_spec, Ev, Ew. destruct sv, sw; by eexists. }
    destruct E as [z E].
    assert (S0 : scaled (v + w) = 0%Z) by (unfold scaled; by rewrite E).
    unfold is_finite. rewrite E, S0. split; [reflexivity|]. lia.
  - assert (E : (v + w)%float = w).
    { apply Prim2SF_inj. by rewrite FloatAxioms.add_spec, Ev, Ew. }
    rewrite E. unfold is_finite. rewrite Ew. split; [reflexivity|]. lia.
  - assert (E : (v + w)%float = v).
    { apply Prim2SF_inj. by rewrite FloatAxioms.add_spec, Ev, Ew. }
    rewrite E. unfold is_finite. rewrite Ev. split; [reflexivity|]. lia.
  - pose proof (scaled_nonneg_sign v _ _ _ Ev Hv0) as ->.
    pose proof (scaled_nonneg_sign w _ _ _ Ew Hw0) as ->.
    destruct (add_finite v w _ _ _ _ _ _ Ev Ew) as (M & ez & Hez & HM & E).
    pose proof (pow2_gt_0 (ez + 1074) ltac:(lia)) as HW.
    pose proof (scaled_pos v _ _ Ev) as Hvp.
    pose proof (scaled_pos w _ _ Ew) as Hwp.
    destruct M as [|p|p]; cbn [binary_normalize] in E.
    + exfalso. lia.
    + destruct (round_below false p ez mc Ec Hez HEc ltac:(lia) ltac:(lia)
                  (or_introl Hev))
        as (mr & er & E2 & B2).
      rewrite E2 in E. rewrite (scaled_finite _ _ _ _ E).
      unfold is_finite. rewrite E. split; [reflexivity|]. lia.
    + exfalso.
      pose proof (Z.mul_neg_pos (Z.neg p) (2 ^ (ez + 1074)) ltac:(lia) HW). lia.
Qed.

(** A sum [v + w] that binary64 finds not above [c] is, exactly, at most
    half a unit in the last place of [c] above [c]. *)
Lemma add_not_far (c v w : float) (mc : positive) (Ec : Z) :
  Prim2SF c = S754_finite false mc Ec -> (-1073 <= Ec <= 969)%Z ->
  is_finite v = true -> is_finite w = true ->
  (0 <= scaled v <= scaled c)%Z -> (0 <= scaled w <= scaled c)%Z ->
  PrimFloat.ltb c (v + w) = false ->
  (scaled v + scaled w <= scaled c + 2 ^ (Ec + 1073))%Z.
Proof.
  intros Hc HEc Fv Fw [Hv0 Hvc] [Hw0 Hwc] Hs.
  destruct (valid_exponent c _ _ _ Hc) as (_ & Hm53 & Hm52).
  specialize (Hm52 ltac:(lia)).
  pose proof (scaled_finite c _ _ _ Hc) as Sc. cbv iota in Sc.
  pose proof (pow2_gt_0 (Ec + 1073) ltac:(lia)) as HU.
  pose proof (pow2_gt_0 (Ec + 1074) ltac:(lia)) as HC.
  assert (Fc : is_finite c = true) by (unfold is_finite; by rewrite Hc).
  unfold is_finite in Fv, Fw.
  destruct (Prim2SF v) as [sv|sv| |sv mv ev] eqn:Ev; try discriminate;
    destruct (Prim2SF w) as [sw|sw| |sw mw ew] eqn:Ew; try discriminate.
  - assert (scaled v = 0%Z) by (unfold scaled; by rewrite Ev). lia.
  - assert (scaled v = 0%Z) by (unfold scaled; by rewrite Ev). lia.
  - assert (scaled w = 0%Z) by (unfold scaled; by rewrite Ew). lia.
  - pose proof (scaled_nonneg_sign v _ _ _ Ev Hv0) as ->.
    pose proof (scaled_nonneg_sign w _ _ _ Ew Hw0) as ->.
    destruct (add_finite v w _ _ _ _ _ _ Ev Ew) as (M & ez & Hez & HM & E).
    pose proof (pow2_gt_0 (ez + 1074) ltac:(lia)) as HW.
    pose proof (scaled_pos v _ _ Ev) as Hvp.
    pose proof (scaled_pos w _ _ Ew) as Hwp.
    assert (HT : (2 ^ (Ec + 1128) = 2 * (2 ^ 53 * 2 ^ (Ec + 1074)))%Z).
    { replace (Ec + 1128)%Z with (53 + (Ec + 1074) + 1)%Z by lia.
      rewrite pow2_double by lia. f_equal. apply Z.pow_add_r; lia. }
    assert (H53 : (Z.pos mc * 2 ^ (Ec + 1074) < 2 ^ 53 * 2 ^ (Ec + 1074))%Z)
      by (apply Z.mul_lt_mono_pos_r; lia).
    destruct M as [|p|p]; cbn [binary_normalize] in E.
    + exfalso. lia.
    + assert (Hlt : (Z.pos p * 2 ^ (ez + 1074) < 2 ^ (Ec + 1128))%Z) by lia.
      assert (Hlt' : (Z.pos p * 2 ^ (ez + 1074) < 2 ^ (Ec + 1 + 1127))%Z)
        by (replace (Ec + 1 + 1127)%Z with (Ec + 1128)%Z by lia; exact Hlt).
      pose proof (exponent_bound p ez (Ec + 1) ltac:(lia) ltac:(lia) Hlt') as HE.
      destruct (binary_round_value false p ez Hez ltac:(lia))
        as (mr & er & Er & _).
      rewrite Er in E.
      assert (Fs : is_finite (v + w) = true) by (unfold is_finite; by rewrite E).
      apply (not_ltb_scaled c (v + w) Fc Fs) in Hs.
      rewrite (scaled_finite _ _ _ _ E) in Hs. cbv iota in Hs.
      rewrite <- HM, Sc.
      apply (round_not_far false p ez mc Ec mr er Hez HEc ltac:(lia) Hlt Er).
      lia.
    + exfalso.
      pose proof (Z.mul_neg_pos (Z.neg p) (2 ^ (ez + 1074)) ltac:(lia) HW). lia.
Qed.

(** *** The far edge at a clamped origin *)

Lemma not_ltb_leb (a b : float) :
  is_nan a = false -> is_nan b = false ->
  PrimFloat.ltb b a = false -> PrimFloat.leb a b = true.
Proof.
  rewrite !is_nan_false, FloatAxioms.ltb_spec, FloatAxioms.leb_spec.
  unfold SFltb, SFleb. intros Ha Hb.
  destruct (SFcompare (Prim2SF a) (Prim2SF b)) as [c|] eqn:E.
  - rewrite (FloatOrder.SFcompare_antisym _ _ _ E). by destruct c.
  - exfalso.
    destruct (Prim2SF a) as [[]|[]| |[] ma ea], (Prim2SF b) as [[]|[]| |[] mb eb];
      cbn in E; congruence.
Qed.

(** What is not below a number above [0] is above [0] itself; and if it
    is finite, so is that number. *)
Lemma pos_le_pos (y d : float) :
  PrimFloat.ltb 0 y = true -> PrimFloat.leb y d = true ->
  PrimFloat.ltb 0 d = true /\ (is_finite d = true -> is_finite y = true).
Proof.
  rewrite !FloatAxioms.ltb_spec, FloatAxioms.leb_spec, Prim2SF_zero.
  unfold SFltb, SFleb, is_finite.
  destruct (Prim2SF y) as [[]|[]| |[] my ey], (Prim2SF d) as [[]|[]| |[] md ed];
    cbn; intros H1 H2; try congruence; split; auto.
Qed.

(** Rounding a negative value never gives a number above [0]. *)
Lemma binary_round_neg (m : positive) (e : Z) :
  SFltb (S754_zero false) (binary_round prec emax true m e) = false.
Proof.
  unfold binary_round. destruct (shl_align m e _) as [mz ez].
  unfold binary_round_aux.
  destruct (shr_fexp prec emax (Z.pos mz) ez loc_Exact) as [mrs' e'].
  destruct (shr_fexp prec emax _ e' loc_Exact) as [mrs'' e''].
  destruct (shr_m mrs'') as [|p|p]; [reflexivity| |reflexivity].
  by destruct (e'' <=? emax - prec)%Z.
Qed.

(** A difference [c - w] above [0], with [w] not below [0]: [w] is finite
    and at most [c]. *)
Lemma sub_positive (c w : float) (mc : positive) (Ec : Z) :
  Prim2SF c = S754_finite false mc Ec ->
  PrimFloat.ltb w 0 = false -> PrimFloat.ltb 0 (c - w) = true ->
  is_finite w = true /\ (0 <= scaled w <= scaled c)%Z.
Proof.
  intros Hc Hw Hd. pose proof (scaled_pos c _ _ Hc) as Hcp.
  rewrite FloatAxioms.ltb_spec, Prim2SF_zero in Hw.
  rewrite FloatAxioms.ltb_spec, Prim2SF_zero in Hd.
  unfold is_finite.
  destruct (Prim2SF w) as [sw|sw| |sw mw ew] eqn:Ew.
  - assert (S0 : scaled w = 0%Z) by (unfold scaled; by rewrite Ew).
    split; [reflexivity|]. lia.
  - exfalso. rewrite FloatAxioms.sub_spec, Hc, Ew in Hd.
    destruct sw; cbn in Hw, Hd; discriminate.
  - exfalso. rewrite FloatAxioms.sub_spec, Hc, Ew in Hd. discriminate.
  - destruct sw; [cbn in Hw; discriminate|].
    pose proof (scaled_pos w _ _ Ew) as Hwp.
    split; [reflexivity|]. split; [lia|].
    destruct (sub_finite c w _ _ _ _ _ _ Hc Ew) as (M & ez & Hez & HM & E).
    rewrite E in Hd.
    destruct M as [|p|p]; cbn [binary_normalize] in Hd.
    + discriminate.
    + pose proof (pow2_gt_0 (ez + 1074) ltac:(lia)) as HW.
      pose proof (Z.mul_pos_pos (Z.pos p) (2 ^ (ez + 1074)) ltac:(lia) HW). lia.
    + rewrite binary_round_neg in Hd. discriminate.
Qed.

(** An origin [y] above [0] and not above the rounded difference [c - w]
    leaves the far edge [y + w], as binary64 computes it, not above [c]:
    the rounding error of the difference is at most half a unit in the
    last place of [c], and a sum that close above [c] rounds to [c],
    whose mantissa is even. *)
Lemma clamp_fits (c w y : float) (mc : positive) (Ec : Z) :
  Prim2SF c = S754_finite false mc Ec -> Z.even (Z.pos mc) = true ->
  (-1073 <= Ec <= 970)%Z ->
  PrimFloat.ltb w 0 = false -> PrimFloat.ltb 0 y = true ->
  PrimFloat.leb y (c - w) = true ->
  PrimFloat.ltb c (y + w) = false.
Proof.
  intros Hc Hev HEc Hw Hy Hyd.
  destruct (pos_le_pos y (c - w) Hy Hyd) as [Hd Fy].
  destruct (sub_positive c w mc Ec Hc Hw Hd) as [Fw Hwb].
  destruct (sub_bounds c w mc Ec Hc HEc Fw Hwb) as (Fd & Hdb & Hdr).
  specialize (Fy Fd).
  apply (leb_scaled y (c - w) Fy Fd) in Hyd.
  apply (ltb_scaled 0 y eq_refl Fy) in Hy. change (scaled 0) with 0%Z in Hy.
  destruct (add_bounds c y w mc Ec Hc Hev HEc Fy Fw ltac:(lia) Hwb ltac:(lia))
    as [Fs Hs].
  assert (Fc : is_finite c = true) by (unfold is_finite; by rewrite Hc).
  by apply (not_ltb_scaled c (y + w) Fc Fs).
Qed.

(** *** Canvas sizes *)

(** The number of a canvas size is [0] or a finite number above [0] of
    moderate size. *)
Lemma number_of_N_cases (n : N) :
  number_of_N n = 0%float \/
  exists (mc : positive) (Ec : Z),
    Prim2SF (number_of_N n) = S754_finite false mc Ec /\ (-52 <= Ec <= 11)%Z.
Proof.
  unfold number_of_N.
  pose proof (Uint63.to_Z_bounded (Uint63.of_Z (Z.of_N n))) as Hb.
  change Uint63.wB with (2 ^ 63)%Z in Hb.
  destruct (Uint63.to_Z (Uint63.of_Z (Z.of_N n))) as [|p|p] eqn:E; try lia.
  - left. apply Prim2SF_inj. by rewrite FloatAxioms.of_uint63_spec, E.
  - right. rewrite FloatAxioms.of_uint63_spec, E. cbn [binary_normalize].
    pose proof (digits2_pos_bounds p) as [Dlo _].
    assert (Hd : (Z.pos (digits2_pos p) <= 63)%Z).
    { destruct (Z_le_gt_dec (Z.pos (digits2_pos p)) 63) as [H|H]; [exact H|].
      assert (2 ^ 63 <= 2 ^ (Z.pos (digits2_pos p) - 1))%Z
        by (apply Z.pow_le_mono_r; lia).
      lia. }
    pose proof (Pos2Z.is_pos (digits2_pos p)) as Hd0.
    destruct (binary_round_value false p 0 ltac:(lia) ltac:(lia))
      as (mr & er & Er & Her & _).
    exists mr, er. split; [exact Er|]. lia.
Qed.

(** The number of an unsigned long other than [0] has an even mantissa:
    it has at most 32 bits. *)
Lemma number_of_N_even (n : N) :
  n <> 0%N -> unsigned_long n ->
  exists (mc : positive) (Ec : Z),
    Prim2SF (number_of_N n) = S754_finite false mc Ec /\
    Z.even (Z.pos mc) = true /\ (-52 <= Ec <= -21)%Z.
Proof.
  intros Hn Hu. unfold unsigned_long in Hu. unfold number_of_N.
  rewrite FloatAxioms.of_uint63_spec.
  assert (Hz : (0 < Z.of_N n < 2 ^ 32)%Z).
  { split; [lia|]. change (2 ^ 32)%Z with (Z.of_N (2 ^ 32)). lia. }
  rewrite Uint63.of_Z_spec.
  rewrite Z.mod_small by (change Uint63.wB with (2 ^ 63)%Z; lia).
  destruct (Z.of_N n) as [|p|p] eqn:E; try lia.
  cbn [binary_normalize].
  pose proof (digits2_pos_bounds p) as [Dlo _].
  assert (Hd : (Z.pos (digits2_pos p) <= 32)%Z).
  { destruct (Z_le_gt_dec (Z.pos (digits2_pos p)) 32) as [H|H]; [exact H|].
    assert (2 ^ 32 <= 2 ^ (Z.pos (digits2_pos p) - 1))%Z
      by (apply Z.pow_le_mono_r; lia).
    lia. }
  destruct (binary_round_exact false p 0 ltac:(lia) ltac:(lia))
    as (mz & Hmz & _ & Er).
  cbn zeta in Hmz, Er.
  replace (Z.max (Z.pos (digits2_pos p) + 0 - 53) (-1074))
    with (Z.pos (digits2_pos p) - 53)%Z in * by lia.
  exists mz, (Z.pos (digits2_pos p) - 53)%Z.
  split; [exact Er|]. split; [|lia].
  rewrite Hmz.
  replace (0 - (Z.pos (digits2_pos p) - 53))%Z
    with (52 - Z.pos (digits2_pos p) + 1)%Z by lia.
  rewrite pow2_double by lia.
  rewrite Z.mul_assoc, (Z.mul_comm (Z.pos p) 2), <- Z.mul_assoc.
  by rewrite Z.even_mul.
Qed.

End Rounding.

(** ** The crop handlers: hit tests, cascade, guards *)

Module CropFacts.
Import JSNumber Crop Float64Facts Rounding.

Lemma point_eta (pt : Point) : mkPoint (px pt) (py pt) = pt.
Proof. by destruct pt. Qed.

(** [HANDLE_SIZE / 2] is computed without error. *)
Lemma half_handle : (HANDLE_SIZE / 2)%float = 6%float.
Proof. reflexivity. Qed.

(** [isInsideHandle] is the zone of [in_hit_zone], ends included. *)
Lemma hitsb_true pt r c : hitsb pt r c = true <-> hits pt r c.
Proof.
  unfold hitsb, hits, isInsideHandle, in_hit_zone, geb. rewrite half_handle.
  rewrite !andb_true_iff. tauto.
Qed.

Lemma hitsb_false pt r c : hitsb pt r c = false <-> ~ hits pt r c.
Proof.
  rewrite <- hitsb_true. destruct (hitsb pt r c); split; congruence.
Qed.

Lemma insideCrop_spec (pt : Point) (c : CropRect) :
  insideCrop (px pt) (py pt) c = true <-> strictly_inside pt c.
Proof.
  unfold insideCrop, strictly_inside, gtb. rewrite !andb_true_iff. tauto.
Qed.

Lemma insideCrop_false (pt : Point) (c : CropRect) :
  insideCrop (px pt) (py pt) c = false <-> ~ strictly_inside pt c.
Proof.
  rewrite <- insideCrop_spec. destruct (insideCrop _ _ _); split; congruence.
Qed.

(** The handler, once its guard is passed, as a cascade over the corners. *)
Lemma handleCanvasMouseDown_unfold (st : AppState) (pt : Point) :
  isCropping st = true -> isLoading st = false ->
  handleCanvasMouseDown st pt =
  let st1 := setIsDragging true st in
  let r := crop st in
  if hitsb pt r CornerNW then setDragMode (Some Nw) st1
  else if hitsb pt r CornerNE then setDragMode (Some Ne) st1
  else if hitsb pt r CornerSW then setDragMode (Some Sw) st1
  else if hitsb pt r CornerSE then setDragMode (Some Se) st1
  else if insideCrop (px pt) (py pt) r then
    setDragOffset (mkPoint (px pt - x r) (py pt - y r)) (setDragMode (Some Move) st1)
  else
    setCrop (mkCrop (px pt) (py pt) 0 0)
      (setStartPoint (mkPoint (px pt) (py pt)) (setDragMode (Some Draw) st1)).
Proof.
  intros Hc Hl. unfold handleCanvasMouseDown. rewrite Hc, Hl. reflexivity.
Qed.

(** The first corner, in test order, whose hit-zone holds the pointer
    decides the mode; the rectangle is not touched. *)
Lemma mouseDown_first_hit (st : AppState) (pt : Point) (c : Corner) :
  isCropping st = true -> isLoading st = false ->
  hits pt (crop st) c ->
  (forall c', earlier c' c -> ~ hits pt (crop st) c') ->
  dragMode (handleCanvasMouseDown st pt) = Some (corner_mode c) /\
  crop (handleCanvasMouseDown st pt) = crop st /\
  isDragging (handleCanvasMouseDown st pt) = true.
Proof.
  intros Hc Hl Hhit Hfirst.
  rewrite handleCanvasMouseDown_unfold by assumption. cbn zeta.
  apply hitsb_true in Hhit.
  assert (Hno : forall c', earlier c' c -> hitsb pt (crop st) c' = false)
    by (intros c' Hc'; apply hitsb_false; auto).
  destruct c.
  - rewrite Hhit. done.
  - rewrite (Hno CornerNW) by (unfold earlier; cbn; lia). rewrite Hhit. done.
  - rewrite (Hno CornerNW), (Hno CornerNE) by (unfold earlier; cbn; lia).
    rewrite Hhit. done.
  - rewrite (Hno CornerNW), (Hno CornerNE), (Hno CornerSW)
      by (unfold earlier; cbn; lia).
    rewrite Hhit. done.
Qed.

(** Among the corners whose zone holds the pointer there is a first one. *)
Lemma first_hit_exists (pt : Point) (r : CropRect) (c : Corner) :
  hits pt r c ->
  exists c', (c' = c \/ earlier c' c) /\ hits pt r c' /\
             forall c'', earlier c'' c' -> ~ hits pt r c''.
Proof.
  intros Hhit.
  destruct (hitsb pt r CornerNW) eqn:E0.
  { exists CornerNW. split; [destruct c; (by left) || (right; unfold earlier; cbn; lia)|].
    split; [by apply hitsb_true|]. intros c'' H. unfold earlier in H.
    destruct c''; cbn in H; lia. }
  destruct (hitsb pt r CornerNE) eqn:E1.
  { exists CornerNE. split.
    - destruct c; try (by left); try (right; unfold earlier; cbn; lia).
      apply hitsb_true in Hhit. congruence.
    - split; [by apply hitsb_true|]. intros c'' H. unfold earlier in H.
      destruct c''; cbn in H; try lia. by apply hitsb_false. }
  destruct (hitsb pt r CornerSW) eqn:E2.
  { exists CornerSW. split.
    - destruct c; try (by left); try (right; unfold earlier; cbn; lia);
        apply hitsb_true in Hhit; congruence.
    - split; [by apply hitsb_true|]. intros c'' H. unfold earlier in H.
      destruct c''; cbn in H; try lia; by apply hitsb_false. }
  exists c. split; [by left|]. split; [done|].
  intros c'' H. unfold earlier in H. apply hitsb_false.
  destruct c, c''; cbn in H; try lia; try done;
    apply hitsb_true in Hhit; congruence.
Qed.

(** No handle under the pointer: the interior test decides between
    [move] and [draw]. *)
Lemma mouseDown_no_hit (st : AppState) (pt : Point) :
  isCropping st = true -> isLoading st = false ->
  (forall c, ~ hits pt (crop st) c) ->
  let st' := handleCanvasMouseDown st pt in
  isDragging st' = true /\
  (strictly_inside pt (crop st) ->
   dragMode st' = Some Move /\
   dragOffset st' = mkPoint (px pt - x (crop st)) (py pt - y (crop st)) /\
   crop st' = crop st) /\
  (~ strictly_inside pt (crop st) ->
   dragMode st' = Some Draw /\
   startPoint st' = pt /\
   crop st' = mkCrop (px pt) (py pt) 0 0).
Proof.
  intros Hc Hl Hno. cbn zeta.
  rewrite handleCanvasMouseDown_unfold by assumption. cbn zeta.
  rewrite !(proj2 (hitsb_false _ _ _)) by apply Hno.
  destruct (insideCrop (px pt) (py pt) (crop st)) eqn:E.
  - apply insideCrop_spec in E.
    split; [done|]. split; [done|]. intros Hn. by destruct Hn.
  - apply insideCrop_false in E.
    split; [done|]. split; [intros Hi; by destruct E|].
    intros _. cbn. by rewrite point_eta.
Qed.

Lemma mouseDown_isDragging (st : AppState) (pt : Point) :
  isCropping st = true -> isLoading st = false ->
  isDragging (handleCanvasMouseDown st pt) = true.
Proof.
  intros Hc Hl. rewrite handleCanvasMouseDown_unfold by assumption. cbn zeta.
  destruct (hitsb pt (crop st) CornerNW); [done|].
  destruct (hitsb pt (crop st) CornerNE); [done|].
  destruct (hitsb pt (crop st) CornerSW); [done|].
  destruct (hitsb pt (crop st) CornerSE); [done|].
  destruct (insideCrop (px pt) (py pt) (crop st)); done.
Qed.

(** A pointer-down that passes the guard sets a drag mode. *)
Lemma mouseDown_mode_set (st : AppState) (pt : Point) :
  isCropping st = true -> isLoading st = false ->
  exists m, dragMode (handleCanvasMouseDown st pt) = Some m.
Proof.
  intros Hc Hl. rewrite handleCanvasMouseDown_unfold by assumption. cbn zeta.
  destruct (hitsb pt (crop st) CornerNW); [cbn; eauto|].
  destruct (hitsb pt (crop st) CornerNE); [cbn; eauto|].
  destruct (hitsb pt (crop st) CornerSW); [cbn; eauto|].
  destruct (hitsb pt (crop st) CornerSE); [cbn; eauto|].
  destruct (insideCrop (px pt) (py pt) (crop st)); cbn; eauto.
Qed.

(** The cursor feedback writes the cursor only. *)
Lemma hoverCursor_frame (st : AppState) (cx cy : float) :
  exists k, hoverCursor st cx cy = setCurrentCursor k st.
Proof.
  unfold hoverCursor.
  destruct (isCropping st && negb (isDragging st)).
  - destruct (isInsideHandle cx cy (x (crop st)) (y (crop st))); [eauto|].
    destruct (isInsideHandle cx cy (x (crop st) + width (crop st)) (y (crop st)));
      [eauto|].
    destruct (isInsideHandle cx cy (x (crop st)) (y (crop st) + height (crop st)));
      [eauto|].
    destruct (isInsideHandle cx cy (x (crop st) + width (crop st))
                (y (crop st) + height (crop st))); [eauto|].
    destruct (insideCrop cx cy (crop st)); eauto.
  - destruct (negb (isCropping st)); [eauto|].
    exists (currentCursor st). by destruct st.
Qed.

(** While a drag is active the cursor feedback is skipped. *)
Lemma hoverCursor_dragging (st : AppState) (cx cy : float) :
  isCropping st = true -> isDragging st = true -> hoverCursor st cx cy = st.
Proof. intros Hc Hd. unfold hoverCursor. by rewrite Hc, Hd. Qed.

Lemma handleCanvasMouseMove_dragging (canvas : Canvas) (st : AppState) (pt : Point) :
  isCropping st = true -> isLoading st = false -> isDragging st = true ->
  handleCanvasMouseMove canvas st pt
  = setCrop (updateDrag canvas (dragMode st) (dragOffset st) (startPoint st)
                        (px pt) (py pt) (crop st)) st.
Proof.
  intros Hc Hl Hd. unfold handleCanvasMouseMove.
  rewrite hoverCursor_dragging by assumption. by rewrite Hc, Hl, Hd.
Qed.

(** The flags and the drag bookkeeping are out of reach of a pointer
    move. *)
Lemma handleCanvasMouseMove_frame (canvas : Canvas) (st : AppState) (pt : Point) :
  let st' := handleCanvasMouseMove canvas st pt in
  processedImageUrl st' = processedImageUrl st /\
  isLoading st' = isLoading st /\ error st' = error st /\
  isCropping st' = isCropping st /\ isDragging st' = isDragging st /\
  dragMode st' = dragMode st /\ dragOffset st' = dragOffset st /\
  startPoint st' = startPoint st.
Proof.
  cbn zeta. unfold handleCanvasMouseMove.
  destruct (hoverCursor_frame st (px pt) (py pt)) as [k ->].
  destruct (negb (isDragging st) || negb (isCropping st) || isLoading st);
    cbn [setCrop setCurrentCursor processedImageUrl isLoading error isCropping
         isDragging dragMode dragOffset startPoint]; done.
Qed.

(** With no drag active, outside crop mode or while loading, a pointer
    move does not write the rectangle. *)
Lemma pointer_move_guarded (canvas : Canvas) (st : AppState) (pt : Point) :
  isCropping st = false \/ isLoading st = true \/ isDragging st = false ->
  crop (handleCanvasMouseMove canvas st pt) = crop st.
Proof.
  intros H. unfold handleCanvasMouseMove.
  destruct (hoverCursor_frame st (px pt) (py pt)) as [k ->].
  destruct (negb (isDragging st) || negb (isCropping st) || isLoading st) eqn:E;
    [done|].
  apply orb_false_elim in E as [E El]. apply orb_false_elim in E as [Ed Ec].
  apply negb_false_iff in Ed, Ec. destruct H as [H|[H|H]]; congruence.
Qed.

(** *** Normalisation and the boundary check *)

(** A normalised rectangle never has a width or height below [0]. *)
Lemma normalizeCrop_not_neg (r : CropRect) :
  PrimFloat.ltb (width (normalizeCrop r)) 0 = false /\
  PrimFloat.ltb (height (normalizeCrop r)) 0 = false.
Proof.
  unfold normalizeCrop.
  destruct (PrimFloat.ltb (width r) 0) eqn:Ew,
           (PrimFloat.ltb (height r) 0) eqn:Eh; cbn [width height];
    split; try assumption; apply abs_not_neg.
Qed.

(** A rectangle whose width and height are not below [0] is left as it
    is. *)
Lemma normalizeCrop_id (r : CropRect) :
  PrimFloat.ltb (width r) 0 = false -> PrimFloat.ltb (height r) 0 = false ->
  normalizeCrop r = r.
Proof.
  intros Hw Hh. unfold normalizeCrop. rewrite Hw, Hh. by destruct r.
Qed.

(** The boundary check: what [updateDrag] returns, in terms of the
    normalised rectangle [n] it clamps. *)
Lemma updateDrag_Some (canvas : Canvas) (m : DragMode) (off start : Point)
    (cx cy : float) (prev : CropRect) :
  exists n,
    PrimFloat.ltb (width n) 0 = false /\ PrimFloat.ltb (height n) 0 = false /\
    let cw := number_of_N (canvas_width canvas) in
    let ch := number_of_N (canvas_height canvas) in
    let r := updateDrag canvas (Some m) off start cx cy prev in
    x r = Math_max 0 (Math_min (x n) (cw - width n)) /\
    y r = Math_max 0 (Math_min (y n) (ch - height n)) /\
    width r = (if PrimFloat.ltb cw (x r + width n) then cw - x r else width n)%float /\
    height r = (if PrimFloat.ltb ch (y r + height n) then ch - y r else height n)%float.
Proof.
  unfold updateDrag.
  destruct m;
    match goal with
    | |- context [normalizeCrop ?t] => exists (normalizeCrop t)
    end;
    (split; [apply normalizeCrop_not_neg|]);
    (split; [apply normalizeCrop_not_neg|]);
    cbn zeta; cbn [x y width height]; unfold gtb; done.
Qed.

(** The footprint of a rectangle whose origin was moved by its negative
    size, in exact arithmetic. *)
Lemma flipped_axis (X W X' W' t : Q) :
  (W < 0)%Q -> (X' == X + W)%Q -> (W' == - W)%Q ->
  between X' (X' + W') t <-> between X (X + W) t.
Proof.
  intros HW HX HW'. unfold between.
  destruct (Q.min_spec X' (X' + W')) as [[? Hm1]|[? Hm1]];
    destruct (Q.max_spec X' (X' + W')) as [[? Hm2]|[? Hm2]];
    destruct (Q.min_spec X (X + W)) as [[? Hm3]|[? Hm3]];
    destruct (Q.max_spec X (X + W)) as [[? Hm4]|[? Hm4]];
    split; intros [Hlo Hhi]; split; lra.
Qed.

(** *** Where no rounding occurs, the code's tests are the exact ones *)

Lemma F2Q_six : (F2Q 6 == 6)%Q.
Proof. vm_compute. reflexivity. Qed.

(** One side of the handle test. *)
Lemma zone_axis_exact (h p : float) (eh : Q) :
  is_finite h = true -> is_finite p = true -> (F2Q h == eh)%Q ->
  exact_diff h 6 -> exact_sum h 6 ->
  (PrimFloat.leb (h - 6) p = true /\ PrimFloat.leb p (h + 6) = true)
  <-> (Qabs (F2Q p - eh) <= 6)%Q.
Proof.
  intros Hh Hp He [Hfd Hd] [Hfs Hs].
  rewrite (leb_F2Q _ _ Hfd Hp), (leb_F2Q _ _ Hp Hfs), Qabs_Qle_condition.
  pose proof F2Q_six as H6.
  split; intros [H1 H2]; split; lra.
Qed.

(** With corner and bounds computed exactly, the zone the code measures
    is the exact closed square. *)
Lemma hits_exact (pt : Point) (r : CropRect) (c : Corner) :
  zone_exact r c -> finite_point pt ->
  hits pt r c <-> in_exact_zone pt r c.
Proof.
  intros (Fx & Fy & Ex & Ey & Dx & Sx & Dy & Sy) [Fpx Fpy].
  unfold hits, in_hit_zone, in_exact_zone.
  rewrite <- (zone_axis_exact _ _ _ Fx Fpx Ex Dx Sx).
  rewrite <- (zone_axis_exact _ _ _ Fy Fpy Ey Dy Sy). tauto.
Qed.

(** With the far edges computed exactly, the interior test is the exact
    one. *)
Lemma strictly_inside_exact_iff (pt : Point) (r : CropRect) :
  far_edges_exact r -> finite_point pt ->
  strictly_inside pt r <-> strictly_inside_exact pt r.
Proof.
  intros ((Fx & Fy & Fw & Fh) & [Fsx Sx] & [Fsy Sy]) [Fpx Fpy].
  unfold strictly_inside, strictly_inside_exact.
  rewrite (ltb_F2Q _ _ Fx Fpx), (ltb_F2Q _ _ Fpx Fsx),
          (ltb_F2Q _ _ Fy Fpy), (ltb_F2Q _ _ Fpy Fsy).
  split; intros (H1 & H2 & H3 & H4); repeat split; lra.
Qed.

(** *** The boundary check in binary64 *)

(** [Math.min(p, d)], when it is a number, is not above [d]. *)
Lemma Math_min_le (p d : float) :
  is_nan (Math_min p d) = false -> PrimFloat.leb (Math_min p d) d = true.
Proof.
  unfold Math_min. destruct (is_nan p || is_nan d) eqn:N; [discriminate|].
  apply orb_false_iff in N as [Np Nd]. intros _.
  destruct (PrimFloat.ltb d p) eqn:E; [by apply leb_refl|].
  destruct (is_pos_zero p && is_neg_zero d); [by apply leb_refl|].
  by apply not_ltb_leb.
Qed.

Lemma ltb_irrefl (a : float) : PrimFloat.ltb a a = false.
Proof.
  destruct (is_nan a) eqn:N.
  - apply is_nan_true in N. rewrite FloatAxioms.ltb_spec, N. reflexivity.
  - by apply FloatOrder.leb_not_gt, leb_refl.
Qed.

Lemma number_of_N_not_neg (n : N) :
  PrimFloat.ltb (number_of_N n) 0 = false.
Proof.
  destruct (number_of_N_cases n) as [->|(mc & Ec & E & _)]; [reflexivity|].
  by rewrite FloatAxioms.ltb_spec, E, Prim2SF_zero.
Qed.

(** With a size not below [0], [0 - size] is not above [0]. *)
Lemma zero_sub_not_pos (w : float) :
  PrimFloat.ltb w 0 = false -> PrimFloat.ltb 0 (0 - w) = false.
Proof.
  rewrite !FloatAxioms.ltb_spec, FloatAxioms.sub_spec, Prim2SF_zero.
  by destruct (Prim2SF w) as [[]|[]| |[] m e].
Qed.

(** The sum with NaN is NaN, and nothing is below it. *)
Lemma ltb_nan_add (c w : float) : PrimFloat.ltb c (nan + w) = false.
Proof.
  rewrite FloatAxioms.ltb_spec, FloatAxioms.add_spec, Prim2SF_nan.
  unfold SFltb. cbn [SF64add SFadd]. by rewrite SFcompare_nan_r.
Qed.

(** The far edge passes the canvas border, as binary64 computes it, only
    from the origin [0]: an origin above [0] is at most the rounded
    difference [canvas size - size], and then the rounded sum of origin
    and size is at most the canvas size, an integer below [2^32]. *)
Lemma shrink_at_origin (n : N) (p w : float) :
  let c := number_of_N n in
  let v := Math_max 0 (Math_min p (c - w)) in
  unsigned_long n -> PrimFloat.ltb w 0 = false ->
  PrimFloat.ltb c (v + w) = true -> v = 0%float.
Proof.
  cbn zeta. intros Hu Hw. rewrite Math_max_zero.
  destruct (is_nan (Math_min p (number_of_N n - w))) eqn:Ny.
  - by rewrite ltb_nan_add.
  - destruct (PrimFloat.ltb 0 (Math_min p (number_of_N n - w))) eqn:Py;
      [|reflexivity].
    intros H. exfalso.
    pose proof (Math_min_le _ _ Ny) as Hle.
    destruct (N.eq_dec n 0%N) as [->|Hn].
    + change (number_of_N 0) with 0%float in *.
      destruct (pos_le_pos _ _ Py Hle) as [Hd _].
      rewrite (zero_sub_not_pos w Hw) in Hd. discriminate.
    + destruct (number_of_N_even n Hn Hu) as (mc & Ec & E & Hev & HEc).
      rewrite (clamp_fits _ w _ mc Ec E Hev ltac:(lia) Hw Py Hle) in H.
      discriminate.
Qed.

(** One axis of the boundary check: the returned size is not below [0]
    and the far edge, as binary64 computes it, is not beyond the canvas;
    the size is cut only at the origin [0], to the canvas size. *)
Lemma boundary_axis (n : N) (p w : float) :
  let c := number_of_N n in
  let v := Math_max 0 (Math_min p (c - w)) in
  let s := (if PrimFloat.ltb c (v + w) then c - v else w)%float in
  unsigned_long n -> PrimFloat.ltb w 0 = false ->
  PrimFloat.ltb s 0 = false /\ PrimFloat.ltb c (v + s) = false /\
  (PrimFloat.ltb c (v + w) = true -> v = 0%float /\ s = c).
Proof.
  cbn zeta. intros Hu Hw.
  destruct (PrimFloat.ltb (number_of_N n)
              (Math_max 0 (Math_min p (number_of_N n - w)) + w)) eqn:E.
  - pose proof (shrink_at_origin n p w Hu Hw E) as Hv. cbn zeta in Hv.
    rewrite Hv, sub_zero, ltb_add_zero, ltb_irrefl.
    split; [apply number_of_N_not_neg|]. by split.
  - split; [exact Hw|]. split; [exact E|]. discriminate.
Qed.

(** One axis of a [move] step: a size between [0] and the canvas size is
    never cut. *)
Lemma move_axis (n : N) (p w : float) :
  let c := number_of_N n in
  let v := Math_max 0 (Math_min p (c - w)) in
  unsigned_long n -> PrimFloat.ltb w 0 = false -> PrimFloat.leb w c = true ->
  PrimFloat.ltb c (v + w) = false.
Proof.
  cbn zeta. intros Hu Hw Hwc.
  destruct (PrimFloat.ltb (number_of_N n)
              (Math_max 0 (Math_min p (number_of_N n - w)) + w)) eqn:E;
    [|reflexivity].
  pose proof (shrink_at_origin n p w Hu Hw E) as Hv. cbn zeta in Hv.
  rewrite Hv, ltb_add_zero, (FloatOrder.leb_not_gt _ _ Hwc) in E. discriminate.
Qed.

(** A number between [0] and a finite number is finite. *)
Lemma between_finite (w c : float) :
  PrimFloat.ltb w 0 = false -> PrimFloat.leb w c = true ->
  is_finite c = true -> is_finite w = true.
Proof.
  rewrite FloatAxioms.ltb_spec, FloatAxioms.leb_spec, Prim2SF_zero.
  unfold SFltb, SFleb, is_finite.
  by destruct (Prim2SF w) as [[]|[]| |[] m e], (Prim2SF c) as [[]|[]| |[] m' e'].
Qed.

(** The returned size is never below [0], on a canvas of any size: it is
    the size it was, or the difference between the canvas size and an
    origin that is not beyond it. *)
Lemma boundary_size_sign (n : N) (p w : float) :
  let c := number_of_N n in
  let v := Math_max 0 (Math_min p (c - w)) in
  let s := (if PrimFloat.ltb c (v + w) then c - v else w)%float in
  PrimFloat.ltb w 0 = false -> PrimFloat.ltb s 0 = false.
Proof.
  cbn zeta. intros Hw. rewrite Math_max_zero.
  destruct (is_nan (Math_min p (number_of_N n - w))) eqn:Ny;
    [by rewrite ltb_nan_add|].
  destruct (PrimFloat.ltb 0 (Math_min p (number_of_N n - w))) eqn:Py.
  - destruct (PrimFloat.ltb (number_of_N n) (Math_min p (number_of_N n - w) + w));
      [|exact Hw].
    pose proof (Math_min_le _ _ Ny) as Hle.
    destruct (pos_le_pos _ _ Py Hle) as [Hd Fy].
    destruct (number_of_N_cases n) as [E|(mc & Ec & E & HEc)].
    + rewrite E in Hd. rewrite (zero_sub_not_pos w Hw) in Hd. discriminate.
    + destruct (sub_positive _ w mc Ec E Hw Hd) as [Fw Hwb].
      destruct (sub_bounds _ w mc Ec E ltac:(lia) Fw Hwb) as (Fd & Hdb & _).
      specialize (Fy Fd).
      apply (leb_scaled _ _ Fy Fd) in Hle.
      apply (ltb_scaled 0 _ eq_refl Fy) in Py. change (scaled 0) with 0%Z in Py.
      destruct (sub_bounds _ (Math_min p (number_of_N n - w)) mc Ec E
                  ltac:(lia) Fy ltac:(lia)) as (Fs & Hsb & _).
      apply (not_ltb_scaled _ 0 Fs eq_refl). change (scaled 0) with 0%Z. lia.
  - destruct (PrimFloat.ltb (number_of_N n) (0 + w)); [|exact Hw].
    rewrite sub_zero. apply number_of_N_not_neg.
Qed.

(** One axis of the boundary check, in exact values counted in units of
    [2^-1074]: when origin and size are numbers they are finite and not
    below [0], and the far edge is beyond the canvas size by at most the
    fraction [2^-53] of it. *)
Lemma boundary_axis_scaled (n : N) (p w : float) :
  let c := number_of_N n in
  let v := Math_max 0 (Math_min p (c - w)) in
  let s := (if PrimFloat.ltb c (v + w) then c - v else w)%float in
  unsigned_long n -> PrimFloat.ltb w 0 = false ->
  is_nan v = false -> is_nan s = false ->
  is_finite v = true /\ is_finite s = true /\
  (0 <= scaled v)%Z /\ (0 <= scaled s)%Z /\
  (2 ^ 53 * (scaled v + scaled s) <= (2 ^ 53 + 1) * scaled c)%Z.
Proof.
  cbn zeta. intros Hu Hw. rewrite Math_max_zero.
  destruct (is_nan (Math_min p (number_of_N n - w))) eqn:Ny; [discriminate|].
  assert (Fc : is_finite (number_of_N n) = true)
    by (destruct (number_of_N_cases n) as [->|(mc & Ec & E & _)];
        [reflexivity | unfold is_finite; by rewrite E]).
  assert (Hc0 : (0 <= scaled (number_of_N n))%Z).
  { apply (not_ltb_scaled _ 0 Fc eq_refl), number_of_N_not_neg. }
  destruct (PrimFloat.ltb 0 (Math_min p (number_of_N n - w))) eqn:Py.
  - intros _. pose proof (Math_min_le _ _ Ny) as Hle.
    destruct (pos_le_pos _ _ Py Hle) as [Hd Fy].
    destruct (N.eq_dec n 0%N) as [->|Hn].
    { change (number_of_N 0) with 0%float in Hd.
      rewrite (zero_sub_not_pos w Hw) in Hd. discriminate. }
    destruct (number_of_N_even n Hn Hu) as (mc & Ec & E & Hev & HEc).
    destruct (valid_exponent _ _ _ _ E) as (_ & _ & Hm52).
    specialize (Hm52 ltac:(lia)).
    pose proof (scaled_finite _ _ _ _ E) as Sc. cbv iota in Sc.
    destruct (sub_positive _ w mc Ec E Hw Hd) as [Fw Hwb].
    destruct (sub_bounds _ w mc Ec E ltac:(lia) Fw Hwb) as (Fd & Hdb & _).
    specialize (Fy Fd).
    rewrite (clamp_fits _ w _ mc Ec E Hev ltac:(lia) Hw Py Hle). intros _.
    pose proof (clamp_fits _ w _ mc Ec E Hev ltac:(lia) Hw Py Hle) as Hfit.
    apply (leb_scaled _ _ Fy Fd) in Hle.
    apply (ltb_scaled 0 _ eq_refl Fy) in Py. change (scaled 0) with 0%Z in Py.
    pose proof (add_not_far _ _ w mc Ec E ltac:(lia) Fy Fw ltac:(lia) Hwb Hfit)
      as Hsum.
    split; [exact Fy|]. split; [exact Fw|]. split; [lia|]. split; [lia|].
    assert (Hh : (2 ^ 53 * 2 ^ (Ec + 1073) <= scaled (number_of_N n))%Z).
    { rewrite Sc. replace (Ec + 1074)%Z with (Ec + 1073 + 1)%Z by lia.
      rewrite pow2_double by lia.
      pose proof (pow2_gt_0 (Ec + 1073) ltac:(lia)) as HU.
      change (2 ^ 53)%Z with (2 ^ 52 * 2)%Z.
      rewrite <- Z.mul_assoc.
      apply Z.mul_le_mono_nonneg_r; lia. }
    lia.
  - intros _. rewrite ltb_add_zero.
    change (scaled 0) with 0%Z.
    destruct (PrimFloat.ltb (number_of_N n) w) eqn:Ew.
    + rewrite sub_zero. intros _.
      split; [reflexivity|]. split; [exact Fc|]. lia.
    + intros Nw.
      assert (Nc : is_nan (number_of_N n) = false) by (by apply is_finite_not_nan).
      pose proof (not_ltb_leb w _ Nw Nc Ew) as Hle.
      pose proof (between_finite w _ Hw Hle Fc) as Fw.
      apply (leb_scaled _ _ Fw Fc) in Hle.
      apply (not_ltb_scaled _ 0 Fw eq_refl) in Hw. change (scaled 0) with 0%Z in Hw.
      split; [reflexivity|]. split; [exact Fw|]. lia.
Qed.

(** The same in exact rational values. *)
Lemma boundary_axis_value (n : N) (p w : float) :
  let c := number_of_N n in
  let v := Math_max 0 (Math_min p (c - w)) in
  let s := (if PrimFloat.ltb c (v + w) then c - v else w)%float in
  unsigned_long n -> PrimFloat.ltb w 0 = false ->
  is_nan v = false -> is_nan s = false ->
  axis_nearly_inside n v s.
Proof.
  cbn zeta. intros Hu Hw Nv Ns.
  destruct (boundary_axis_scaled n p w Hu Hw Nv Ns) as (Fv & Fs & Hv & Hs & Hsum).
  destruct (F2Q_number_of_N n Hu) as [Fc Ec].
  split; [exact Fv|]. split; [exact Fs|].
  rewrite <- Ec, (F2Q_scaled _ Fv), (F2Q_scaled _ Fs), (F2Q_scaled _ Fc).
  pose proof (pow2_pos (-1074)) as Hp.
  rewrite Zle_Qle in Hv, Hs, Hsum.
  rewrite !inject_Z_mult, inject_Z_plus in Hsum.
  change (inject_Z (2 ^ 53 + 1)) with (9007199254740993 # 1)%Q in Hsum.
  change (inject_Z (2 ^ 53)) with (9007199254740992 # 1)%Q in Hsum.
  change (inject_Z 0) with 0%Q in Hv, Hs.
  unfold unit_roundoff.
  set (a := inject_Z (scaled (Math_max 0 (Math_min p (number_of_N n - w))))) in *.
  set (b := inject_Z (scaled _)) in Hs, Hsum |- *.
  set (cc := inject_Z (scaled (number_of_N n))) in *.
  set (u := Qpower 2 (-1074)) in *.
  split; [nra|]. split; [nra|].
  assert (H : ((a + b) <= cc * (1 + (1 # 9007199254740992)))%Q) by lra.
  nra.
Qed.

(** A far edge that binary64 finds inside the canvas, and computes
    without rounding error, is inside. *)
Lemma exact_sum_inside (n : N) (v s : float) :
  unsigned_long n -> PrimFloat.ltb (number_of_N n) (v + s) = false ->
  exact_sum v s -> (F2Q v + F2Q s <= inject_Z (Z.of_N n))%Q.
Proof.
  intros Hu Hle [Fs Es]. destruct (F2Q_number_of_N n Hu) as [Fc Ec].
  apply (not_ltb_F2Q _ _ Fc Fs) in Hle. lra.
Qed.

(** The rectangle [updateDrag] returns has been through the boundary
    check. *)
Lemma updateDrag_clamped (canvas : Canvas) (m : DragMode)
    (off start : Point) (cx cy : float) (prev : CropRect) :
  unsigned_long (canvas_width canvas) -> unsigned_long (canvas_height canvas) ->
  clamped canvas (updateDrag canvas (Some m) off start cx cy prev).
Proof.
  intros Hnw Hnh.
  destruct (updateDrag_Some canvas m off start cx cy prev)
    as (n & Hwn & Hhn & Hx & Hy & Hw & Hh).
  cbn zeta in Hx, Hy, Hw, Hh.
  set (r := updateDrag canvas (Some m) off start cx cy prev) in *.
  rewrite Hx in Hw. rewrite Hy in Hh.
  destruct (boundary_axis (canvas_width canvas) (x n) (width n) Hnw Hwn)
    as (Hw0 & Hwe & _).
  destruct (boundary_axis (canvas_height canvas) (y n) (height n) Hnh Hhn)
    as (Hh0 & Hhe & _).
  pose proof (boundary_axis_value (canvas_width canvas) (x n) (width n) Hnw Hwn)
    as Hwv.
  pose proof (boundary_axis_value (canvas_height canvas) (y n) (height n) Hnh Hhn)
    as Hhv.
  cbn zeta in Hw0, Hwe, Hh0, Hhe, Hwv, Hhv.
  rewrite <- Hw in Hw0, Hwe, Hwv. rewrite <- Hx in Hwe, Hwv.
  rewrite <- Hh in Hh0, Hhe, Hhv. rewrite <- Hy in Hhe, Hhv.
  unfold clamped.
  split; [|split; [|split; [|split; [|split; [|split; [|split; [|split;
    [|split]]]]]]]]; try assumption.
  - destruct (is_nan (x r)) eqn:E; [by right|]. left.
    rewrite Hx in E |- *. by apply max_zero_nonneg.
  - destruct (is_nan (y r)) eqn:E; [by right|]. left.
    rewrite Hy in E |- *. by apply max_zero_nonneg.
  - destruct (is_nan (width r)) eqn:E; [by right|]. left.
    by apply not_ltb_leb.
  - destruct (is_nan (height r)) eqn:E; [by right|]. left.
    by apply not_ltb_leb.
  - by apply exact_sum_inside.
  - by apply exact_sum_inside.
Qed.

(** Width and height stay not below [0], on a canvas of any size and
    with or without a drag mode. *)
Lemma updateDrag_size_sign (canvas : Canvas) (mode : option DragMode)
    (off start : Point) (cx cy : float) (prev : CropRect) :
  PrimFloat.ltb (width prev) 0 = false -> PrimFloat.ltb (height prev) 0 = false ->
  let r := updateDrag canvas mode off start cx cy prev in
  PrimFloat.ltb (width r) 0 = false /\ PrimFloat.ltb (height r) 0 = false.
Proof.
  intros Hw Hh. cbn zeta. destruct mode as [m|]; [|by split].
  destruct (updateDrag_Some canvas m off start cx cy prev)
    as (n & Hwn & Hhn & Hx & Hy & Ew & Eh).
  cbn zeta in Hx, Hy, Ew, Eh. rewrite Hx in Ew. rewrite Hy in Eh.
  rewrite Ew, Eh. split; by apply boundary_size_sign.
Qed.

(** A [move] step keeps a size that is between [0] and the canvas
    size. *)
Lemma updateDrag_move_keeps (canvas : Canvas) (off start : Point) (cx cy : float)
    (r : CropRect) :
  unsigned_long (canvas_width canvas) -> unsigned_long (canvas_height canvas) ->
  PrimFloat.ltb (width r) 0 = false ->
  PrimFloat.leb (width r) (number_of_N (canvas_width canvas)) = true ->
  PrimFloat.ltb (height r) 0 = false ->
  PrimFloat.leb (height r) (number_of_N (canvas_height canvas)) = true ->
  let r' := updateDrag canvas (Some Move) off start cx cy r in
  width r' = width r /\ height r' = height r.
Proof.
  intros Hnw Hnh Hw Hwc Hh Hhc. cbn zeta. unfold updateDrag.
  rewrite normalizeCrop_id by assumption.
  cbn [x y width height]. unfold gtb.
  pose proof (move_axis (canvas_width canvas) (cx - px off) (width r) Hnw Hw Hwc)
    as Hfx.
  pose proof (move_axis (canvas_height canvas) (cy - py off) (height r) Hnh Hh Hhc)
    as Hfy.
  cbn zeta in Hfx, Hfy. by rewrite Hfx, Hfy.
Qed.

End CropFacts.

(** ** The crop claims *)

Module CropClaims.
Import JSNumber Crop Float64Facts Rounding CropFacts.

(** C5, as stated, fails in binary64: dragging the rectangle
    [{0, 0, 20.3, 20.3}] in [move] mode far beyond the lower right corner
    of the 100 by 50 canvas leaves it at [x = 100 - 20.3], a difference
    that is rounded upwards; the exact value of [x + width] then exceeds
    the canvas width 100 (by [2^-48]). *)
Lemma C5_rounded_origin_overshoots :
  let r := updateDrag example_canvas (Some Move) (mkPoint 10 10) (mkPoint 0 0)
                      500 500 (mkCrop 0 0 20.3 20.3) in
  r = mkCrop 79.700000000000003 29.699999999999999 20.3 20.3 /\
  finite_rect r /\
  (inject_Z (Z.of_N (canvas_width example_canvas)) < F2Q (x r) + F2Q (width r))%Q /\
  ~ contained example_canvas r.
Proof.
  cbn zeta. split; [reflexivity|]. split; [by repeat split|].
  assert (H : (inject_Z (Z.of_N (canvas_width example_canvas))
               < F2Q 79.700000000000003 + F2Q 20.3)%Q) by (vm_compute; reflexivity).
  split; [exact H|].
  intros (_ & _ & Hx & _). change (x _) with 79.700000000000003%float in Hx.
  change (width _) with 20.3%float in Hx.
  exact (Qlt_not_le _ _ H Hx).
Qed.

(** C5, amended: what the boundary check of [updateDrag] guarantees in
    binary64, in any of the six drag modes, for any pointer position and
    any previous rectangle, on a canvas whose width and height are
    unsigned longs.  No field of the returned rectangle is below [0]:
    each is at least [0] unless it is NaN.  The far edges [x + width] and
    [y + height], as binary64 computes them, do not exceed the canvas
    size.  On each axis, when origin and size are numbers they are
    finite and not below [0], and the exact far edge is beyond the canvas
    size by at most the fraction [2^-53] of it; it is not beyond the
    canvas size at all when the sum of origin and size carries no
    rounding error. *)
Theorem C5_updateDrag_clamped (canvas : Canvas) (m : DragMode)
    (off start : Point) (cx cy : float) (prev : CropRect) :
  unsigned_long (canvas_width canvas) -> unsigned_long (canvas_height canvas) ->
  let cw := number_of_N (canvas_width canvas) in
  let ch := number_of_N (canvas_height canvas) in
  let r := updateDrag canvas (Some m) off start cx cy prev in
  (PrimFloat.leb 0 (x r) = true \/ is_nan (x r) = true) /\
  (PrimFloat.leb 0 (y r) = true \/ is_nan (y r) = true) /\
  (PrimFloat.leb 0 (width r) = true \/ is_nan (width r) = true) /\
  (PrimFloat.leb 0 (height r) = true \/ is_nan (height r) = true) /\
  PrimFloat.ltb cw (x r + width r) = false /\
  PrimFloat.ltb ch (y r + height r) = false /\
  (is_nan (x r) = false -> is_nan (width r) = false ->
   axis_nearly_inside (canvas_width canvas) (x r) (width r)) /\
  (is_nan (y r) = false -> is_nan (height r) = false ->
   axis_nearly_inside (canvas_height canvas) (y r) (height r)) /\
  (exact_sum (x r) (width r) ->
   (F2Q (x r) + F2Q (width r) <= inject_Z (Z.of_N (canvas_width canvas)))%Q) /\
  (exact_sum (y r) (height r) ->
   (F2Q (y r) + F2Q (height r) <= inject_Z (Z.of_N (canvas_height canvas)))%Q).
Proof.
  intros Hnw Hnh.
  exact (updateDrag_clamped canvas m off start cx cy prev Hnw Hnh).
Qed.

Lemma C5_updateDrag_clamped_example :
  let r := updateDrag example_canvas (Some Move) (mkPoint 10 10) (mkPoint 0 0)
                      500 500 (mkCrop 0 0 20.3 20.3) in
  unsigned_long (canvas_width example_canvas) /\
  unsigned_long (canvas_height example_canvas) /\
  r = mkCrop 79.700000000000003 29.699999999999999 20.3 20.3 /\
  PrimFloat.ltb (number_of_N (canvas_width example_canvas)) (x r + width r) = false /\
  axis_nearly_inside (canvas_width example_canvas) (x r) (width r).
Proof.
  cbn zeta.
  assert (Hw : unsigned_long (canvas_width example_canvas)) by reflexivity.
  assert (Hh : unsigned_long (canvas_height example_canvas)) by reflexivity.
  pose (H := C5_updateDrag_clamped example_canvas Move (mkPoint 10 10) (mkPoint 0 0)
               500 500 (mkCrop 0 0 20.3 20.3) Hw Hh).
  split; [exact Hw|]. split; [exact Hh|]. split; [reflexivity|].
  split; [exact (proj1 (proj2 (proj2 (proj2 (proj2 H)))))|].
  exact (proj1 (proj2 (proj2 (proj2 (proj2 (proj2 (proj2 H)))))) eq_refl eq_refl).
Defined.

(** C6, as stated, fails in binary64 at the edge of a hit-zone.  On the
    rectangle [{1, 10, 15.1, 30}] the pointer [(10.1, 4)] is at distance
    6 on both axes from the exact position of the NE corner, so it lies
    in the closed square around it, and in no zone tested earlier; but
    the code measures from the rounded corner [1 + 15.1] and its rounded
    lower bound, finds the pointer outside, and starts a [draw], which
    resets the rectangle. *)
Lemma C6_rounded_corner_misses :
  let r := mkCrop 1 10 15.1 30 in
  let pt := mkPoint 10.1 4 in
  let st' := handleCanvasMouseDown (cropping_state r) pt in
  in_exact_zone pt r CornerNE /\
  ~ in_exact_zone pt r CornerNW /\
  dragMode st' = Some Draw /\
  crop st' = mkCrop 10.1 4 0 0 /\
  Some Draw <> Some (corner_mode CornerNE).
Proof.
  cbn zeta. split; [|split; [|split; [|split]]].
  - split; vm_compute; discriminate.
  - intros [H _]. vm_compute in H. by apply H.
  - reflexivity.
  - reflexivity.
  - discriminate.
Qed.

(** C6, amended: [beginDrag] tests the four corner hit-zones in the order
    NW, NE, SW, SE and takes the first that holds the pointer, each zone
    being the square the code measures in binary64: the corner sits at
    [x], [x + width], [y], [y + height] as computed, and the zone runs
    from [corner - 6] to [corner + 6] as computed, ends included.  With
    no handle hit, a pointer strictly inside the rectangle (against the
    computed far edges) gives [move] with offset = point - origin, the
    binary64 difference; otherwise [draw], with [startPoint] = point and
    the rectangle reset to the empty rectangle at the point.  Wherever
    the corner and the bounds of its zone are computed without rounding
    error the measured zone is the exact closed square of half-width 6
    around the corner, and wherever the far edges are, the interior test
    is the exact one.  Point (5,5) on [{0,0,10,10}] is [nw] although it is
    also in the NE zone and in the interior. *)
Theorem C6_beginDrag_classification :
  (forall (st : AppState) (pt : Point),
     isCropping st = true -> isLoading st = false ->
     let st' := handleCanvasMouseDown st pt in
     let r := crop st in
     isDragging st' = true /\
     (forall c, hits pt r c -> (forall c', earlier c' c -> ~ hits pt r c') ->
                dragMode st' = Some (corner_mode c) /\ crop st' = r) /\
     ((forall c, ~ hits pt r c) -> strictly_inside pt r ->
      dragMode st' = Some Move /\
      dragOffset st' = mkPoint (px pt - x r) (py pt - y r) /\
      crop st' = r) /\
     ((forall c, ~ hits pt r c) -> ~ strictly_inside pt r ->
      dragMode st' = Some Draw /\
      startPoint st' = pt /\
      crop st' = mkCrop (px pt) (py pt) 0 0)) /\
  (forall (r : CropRect) (pt : Point) (c : Corner),
     zone_exact r c -> finite_point pt ->
     (hits pt r c <-> in_exact_zone pt r c)) /\
  (forall (r : CropRect) (pt : Point),
     far_edges_exact r -> finite_point pt ->
     (strictly_inside pt r <-> strictly_inside_exact pt r)) /\
  (dragMode (handleCanvasMouseDown (cropping_state example_rect) (mkPoint 5 5))
   = Some Nw /\
   hits (mkPoint 5 5) example_rect CornerNE /\
   in_exact_zone (mkPoint 5 5) example_rect CornerNE /\
   strictly_inside (mkPoint 5 5) example_rect).
Proof.
  split; [|split; [|split]].
  - intros st pt Hc Hl. cbn zeta.
    split; [by apply mouseDown_isDragging|]. split; [|split].
    + intros c Hhit Hfirst.
      destruct (mouseDown_first_hit st pt c Hc Hl Hhit Hfirst) as (? & ? & _). done.
    + intros Hno Hin. by apply (mouseDown_no_hit st pt Hc Hl Hno).
    + intros Hno Hout. by apply (mouseDown_no_hit st pt Hc Hl Hno).
  - intros r pt c. apply hits_exact.
  - intros r pt. apply strictly_inside_exact_iff.
  - split; [reflexivity|]. split; [|split].
    + apply hitsb_true. reflexivity.
    + split; vm_compute; discriminate.
    + apply (insideCrop_spec (mkPoint 5 5) example_rect). reflexivity.
Qed.

Lemma C6_beginDrag_example :
  isCropping (cropping_state example_rect) = true /\
  isLoading (cropping_state example_rect) = false /\
  hits (mkPoint 5 5) example_rect CornerNW /\
  dragMode (handleCanvasMouseDown (cropping_state example_rect) (mkPoint 5 5))
  = Some (corner_mode CornerNW) /\
  crop (handleCanvasMouseDown (cropping_state example_rect) (mkPoint 5 5))
  = example_rect.
Proof.
  assert (Hhit : hits (mkPoint 5 5) example_rect CornerNW)
    by (apply hitsb_true; reflexivity).
  split; [reflexivity|]. split; [reflexivity|]. split; [exact Hhit|].
  refine (proj1 (proj2 (proj1 C6_beginDrag_classification
            (cropping_state example_rect) (mkPoint 5 5) eq_refl eq_refl))
            CornerNW Hhit _).
  intros c' H. unfold earlier in H. destruct c'; cbn in H; lia.
Defined.

(** C7, as stated, fails in binary64: normalising
    [{0.1, 0.7, -0.2, -0.1}] puts [y] at the rounded sum [0.7 + -0.1],
    which lies above the exact top edge (by [2^-55]); the point on that
    edge is covered by the given rectangle and not by the normalised
    one. *)
Lemma C7_rounded_edge_moves :
  let r := mkCrop 0.1 0.7 (-0.2) (-0.1) in
  let n := normalizeCrop r in
  let vx := F2Q (x r) in
  let vy := (F2Q (y r) + F2Q (height r))%Q in
  finite_rect r /\ finite_rect n /\
  (vy < F2Q (y n))%Q /\
  covers r vx vy /\ ~ covers n vx vy.
Proof.
  cbn zeta. split; [by repeat split|]. split; [by repeat split|].
  split; [vm_compute; reflexivity|]. split.
  - split; split; vm_compute; discriminate.
  - intros [_ [H _]]. vm_compute in H. by apply H.
Qed.

(** C7, amended: [normalizeCrop] returns a rectangle whose width and
    height are never below [0]; a negative width is replaced by its
    absolute value and [x] by the binary64 sum [x + width] (likewise for
    the height and [y]), and a width that is not negative leaves both as
    they are.  For a rectangle of finite numbers, whenever the sums taken
    are exact the result covers exactly the real points the given
    rectangle covers. *)
Theorem C7_normalizeCrop_footprint (r : CropRect) :
  let n := normalizeCrop r in
  PrimFloat.ltb (width n) 0 = false /\ PrimFloat.ltb (height n) 0 = false /\
  (PrimFloat.ltb (width r) 0 = true ->
   x n = (x r + width r)%float /\ width n = abs (width r)) /\
  (PrimFloat.ltb (width r) 0 = false -> x n = x r /\ width n = width r) /\
  (PrimFloat.ltb (height r) 0 = true ->
   y n = (y r + height r)%float /\ height n = abs (height r)) /\
  (PrimFloat.ltb (height r) 0 = false -> y n = y r /\ height n = height r) /\
  (finite_rect r ->
   (PrimFloat.ltb (width r) 0 = true -> exact_sum (x r) (width r)) ->
   (PrimFloat.ltb (height r) 0 = true -> exact_sum (y r) (height r)) ->
   finite_rect n /\
   (0 <= F2Q (width n))%Q /\ (0 <= F2Q (height n))%Q /\
   forall vx vy : Q, covers n vx vy <-> covers r vx vy).
Proof.
  cbn zeta.
  destruct (normalizeCrop_not_neg r) as [Hwn Hhn].
  split; [exact Hwn|]. split; [exact Hhn|].
  assert (Ex : x (normalizeCrop r)
               = if PrimFloat.ltb (width r) 0 then (x r + width r)%float else x r)
    by (unfold normalizeCrop;
        destruct (PrimFloat.ltb (width r) 0), (PrimFloat.ltb (height r) 0); done).
  assert (Ew : width (normalizeCrop r)
               = if PrimFloat.ltb (width r) 0 then abs (width r) else width r)
    by (unfold normalizeCrop;
        destruct (PrimFloat.ltb (width r) 0), (PrimFloat.ltb (height r) 0); done).
  assert (Ey : y (normalizeCrop r)
               = if PrimFloat.ltb (height r) 0 then (y r + height r)%float else y r)
    by (unfold normalizeCrop;
        destruct (PrimFloat.ltb (width r) 0), (PrimFloat.ltb (height r) 0); done).
  assert (Eh : height (normalizeCrop r)
               = if PrimFloat.ltb (height r) 0 then abs (height r) else height r)
    by (unfold normalizeCrop;
        destruct (PrimFloat.ltb (width r) 0), (PrimFloat.ltb (height r) 0); done).
  split; [intros H; rewrite H in Ex, Ew; done|].
  split; [intros H; rewrite H in Ex, Ew; done|].
  split; [intros H; rewrite H in Ey, Eh; done|].
  split; [intros H; rewrite H in Ey, Eh; done|].
  intros (Fx & Fy & Fw & Fh) Hsx Hsy.
  assert (Hxaxis : is_finite (x (normalizeCrop r)) = true /\
                   is_finite (width (normalizeCrop r)) = true /\
                   forall v, between (F2Q (x (normalizeCrop r)))
                               (F2Q (x (normalizeCrop r)) + F2Q (width (normalizeCrop r))) v
                             <-> between (F2Q (x r)) (F2Q (x r) + F2Q (width r)) v).
  { rewrite Ex, Ew. destruct (PrimFloat.ltb (width r) 0) eqn:E.
    - destruct (Hsx eq_refl) as [Hf Hs].
      destruct (F2Q_abs_neg (width r) Fw E) as [Hfa Ha].
      split; [exact Hf|]. split; [exact Hfa|]. intros v.
      apply flipped_axis; [by apply F2Q_neg | exact Hs | exact Ha].
    - split; [exact Fx|]. split; [exact Fw|]. intros v. reflexivity. }
  assert (Hyaxis : is_finite (y (normalizeCrop r)) = true /\
                   is_finite (height (normalizeCrop r)) = true /\
                   forall v, between (F2Q (y (normalizeCrop r)))
                               (F2Q (y (normalizeCrop r)) + F2Q (height (normalizeCrop r))) v
                             <-> between (F2Q (y r)) (F2Q (y r) + F2Q (height r)) v).
  { rewrite Ey, Eh. destruct (PrimFloat.ltb (height r) 0) eqn:E.
    - destruct (Hsy eq_refl) as [Hf Hs].
      destruct (F2Q_abs_neg (height r) Fh E) as [Hfa Ha].
      split; [exact Hf|]. split; [exact Hfa|]. intros v.
      apply flipped_axis; [by apply F2Q_neg | exact Hs | exact Ha].
    - split; [exact Fy|]. split; [exact Fh|]. intros v. reflexivity. }
  destruct Hxaxis as (Fxn & Fwn & Hbx). destruct Hyaxis as (Fyn & Fhn & Hby).
  split; [by repeat split|].
  split; [by apply F2Q_nonneg|]. split; [by apply F2Q_nonneg|].
  intros vx vy. unfold covers. by rewrite Hbx, Hby.
Qed.

Lemma C7_normalizeCrop_footprint_example :
  let r := mkCrop 10 10 (-4) (-6) in
  finite_rect r /\ exact_sum (x r) (width r) /\ exact_sum (y r) (height r) /\
  normalizeCrop r = mkCrop 6 4 4 6 /\
  forall vx vy : Q, covers (normalizeCrop r) vx vy <-> covers r vx vy.
Proof.
  cbn zeta.
  assert (Hf : finite_rect (mkCrop 10 10 (-4) (-6))) by (by repeat split).
  assert (Hx : exact_sum 10 (-4)) by (split; [reflexivity | vm_compute; reflexivity]).
  assert (Hy : exact_sum 10 (-6)) by (split; [reflexivity | vm_compute; reflexivity]).
  split; [exact Hf|]. split; [exact Hx|]. split; [exact Hy|].
  split; [reflexivity|].
  pose (H := proj2 (proj2 (proj2 (proj2 (proj2 (proj2
                (C7_normalizeCrop_footprint (mkCrop 10 10 (-4) (-6))))))))).
  exact (proj2 (proj2 (proj2 (H Hf (fun _ => Hx) (fun _ => Hy))))).
Defined.

(** C8: with an image loaded, [applyCrop] fails with the invalid-crop
    error exactly when the rectangle's width or height is zero; the failure
    changes nothing but the error message (rectangle and processed image
    stay), and a rectangle with both dimensions non-zero raises no error. *)
Theorem C8_applyCrop_invalid
    (toDataURL : Canvas -> float -> float -> float -> float -> string)
    (canvas : Canvas) (st : AppState) :
  noUrl (processedImageUrl st) = false ->
  let st' := handleApplyCrop toDataURL (Some canvas) st in
  ((PrimFloat.eqb (width (crop st)) 0 = true \/ PrimFloat.eqb (height (crop st)) 0 = true)
   <-> error st' = invalidCropMessage) /\
  (error st' = invalidCropMessage ->
   st' = setError invalidCropMessage st /\
   crop st' = crop st /\ processedImageUrl st' = processedImageUrl st) /\
  (PrimFloat.eqb (width (crop st)) 0 = false ->
   PrimFloat.eqb (height (crop st)) 0 = false -> error st' = EmptyString).
Proof.
  intros Hurl. cbn zeta. unfold handleApplyCrop. rewrite Hurl. cbn [orb].
  destruct (PrimFloat.eqb (width (crop st)) 0) eqn:Ew; cbn [orb].
  { split; [split; [done | intros _; by left]|].
    split; [done | discriminate]. }
  destruct (PrimFloat.eqb (height (crop st)) 0) eqn:Eh.
  { split; [split; [done | intros _; by right]|].
    split; [done | discriminate]. }
  split; [|split].
  - split; [intros [H|H]; discriminate | cbn; discriminate].
  - cbn. discriminate.
  - done.
Qed.

Lemma C8_applyCrop_invalid_example :
  let st := cropping_state (mkCrop 0 0 0 5) in
  let st' := handleApplyCrop (fun _ _ _ _ _ => EmptyString) (Some example_canvas) st in
  noUrl (processedImageUrl st) = false /\
  error st' = invalidCropMessage /\
  crop st' = mkCrop 0 0 0 5 /\
  processedImageUrl st' = processedImageUrl st.
Proof.
  cbn zeta. split; [reflexivity|].
  pose (H := C8_applyCrop_invalid (fun _ _ _ _ _ => EmptyString) example_canvas
               (cropping_state (mkCrop 0 0 0 5)) eq_refl).
  assert (He : error (handleApplyCrop (fun _ _ _ _ _ => EmptyString)
                        (Some example_canvas) (cropping_state (mkCrop 0 0 0 5)))
               = invalidCropMessage).
  { apply (proj1 H). left. reflexivity. }
  split; [exact He|]. exact (proj2 (proj1 (proj2 H) He)).
Defined.

(** C9, as stated, fails in binary64: a pointer-down at (10,10) inside
    [{0, 0, 20.3, 20.3}] starts a [move]; a move to (500,500) on the 100
    by 50 canvas, which is wider and higher than the rectangle, puts the
    origin at the rounded difference [100 - 20.3], and the rectangle is
    then not inside the canvas: the exact value of [x + width] exceeds
    100. *)
Lemma C9_clamped_origin_overshoots :
  let st := handleCanvasMouseDown (cropping_state (mkCrop 0 0 20.3 20.3))
                                  (mkPoint 10 10) in
  let r' := crop (handleCanvasMouseMove example_canvas st (mkPoint 500 500)) in
  dragMode st = Some Move /\
  PrimFloat.leb (width (crop st)) (number_of_N (canvas_width example_canvas)) = true /\
  PrimFloat.leb (height (crop st)) (number_of_N (canvas_height example_canvas)) = true /\
  width r' = width (crop st) /\ height r' = height (crop st) /\
  finite_rect r' /\
  (inject_Z (Z.of_N (canvas_width example_canvas)) < F2Q (x r') + F2Q (width r'))%Q /\
  ~ contained example_canvas r'.
Proof.
  cbn zeta. repeat (split; [reflexivity|]). split; [by repeat split|].
  assert (H : (inject_Z (Z.of_N (canvas_width example_canvas))
               < F2Q 79.700000000000003 + F2Q 20.3)%Q) by (vm_compute; reflexivity).
  split; [exact H|].
  intros (_ & _ & Hx & _). exact (Qlt_not_le _ _ H Hx).
Qed.

(** C9, amended: during a [move] drag, on a canvas whose width and height
    are unsigned longs, of a rectangle whose width and height are not
    below [0] and not above the canvas size, [updateDrag] leaves width
    and height unchanged and puts the origin at
    [max(0, min(point - offset, canvas size - size))], every operation
    being the binary64 one.  The far edges [x + width] and [y + height],
    as binary64 computes them, do not exceed the canvas size.  On each
    axis, when the origin is a number it is finite and not below [0],
    and the exact far edge is beyond the canvas size by at most the
    fraction [2^-53] of it; it is not beyond the canvas size at all when
    the sum of origin and size carries no rounding error. *)
Theorem C9_move_keeps_size (canvas : Canvas) (st : AppState) (pt : Point) :
  isCropping st = true -> isLoading st = false -> isDragging st = true ->
  dragMode st = Some Move ->
  unsigned_long (canvas_width canvas) -> unsigned_long (canvas_height canvas) ->
  let cw := number_of_N (canvas_width canvas) in
  let ch := number_of_N (canvas_height canvas) in
  let r := crop st in
  let r' := crop (handleCanvasMouseMove canvas st pt) in
  PrimFloat.ltb (width r) 0 = false -> PrimFloat.leb (width r) cw = true ->
  PrimFloat.ltb (height r) 0 = false -> PrimFloat.leb (height r) ch = true ->
  width r' = width r /\ height r' = height r /\
  x r' = Math_max 0 (Math_min (px pt - px (dragOffset st)) (cw - width r)) /\
  y r' = Math_max 0 (Math_min (py pt - py (dragOffset st)) (ch - height r)) /\
  PrimFloat.ltb cw (x r' + width r') = false /\
  PrimFloat.ltb ch (y r' + height r') = false /\
  (is_nan (x r') = false ->
   axis_nearly_inside (canvas_width canvas) (x r') (width r')) /\
  (is_nan (y r') = false ->
   axis_nearly_inside (canvas_height canvas) (y r') (height r')) /\
  (exact_sum (x r') (width r') ->
   (F2Q (x r') + F2Q (width r') <= inject_Z (Z.of_N (canvas_width canvas)))%Q) /\
  (exact_sum (y r') (height r') ->
   (F2Q (y r') + F2Q (height r') <= inject_Z (Z.of_N (canvas_height canvas)))%Q).
Proof.
  intros Hc Hl Hd Hm Hnw Hnh. cbn zeta. intros Hw Hwc Hh Hhc.
  rewrite handleCanvasMouseMove_dragging by assumption.
  cbn [crop setCrop]. rewrite Hm. unfold updateDrag.
  rewrite normalizeCrop_id by assumption.
  cbn [x y width height]. unfold gtb.
  pose proof (move_axis (canvas_width canvas) (px pt - px (dragOffset st))
                (width (crop st)) Hnw Hw Hwc) as Hfx.
  pose proof (move_axis (canvas_height canvas) (py pt - py (dragOffset st))
                (height (crop st)) Hnh Hh Hhc) as Hfy.
  pose proof (boundary_axis_value (canvas_width canvas)
                (px pt - px (dragOffset st)) (width (crop st)) Hnw Hw) as Hvx.
  pose proof (boundary_axis_value (canvas_height canvas)
                (py pt - py (dragOffset st)) (height (crop st)) Hnh Hh) as Hvy.
  cbn zeta in Hfx, Hfy, Hvx, Hvy.
  rewrite Hfx in Hvx |- *. rewrite Hfy in Hvy |- *.
  destruct (leb_numbers _ _ Hwc) as [Nw _].
  destruct (leb_numbers _ _ Hhc) as [Nh _].
  split; [reflexivity|]. split; [reflexivity|].
  split; [reflexivity|]. split; [reflexivity|].
  split; [exact Hfx|]. split; [exact Hfy|].
  split; [intros N; by apply Hvx|]. split; [intros N; by apply Hvy|].
  split; intros He; by apply exact_sum_inside.
Qed.

Lemma C9_move_keeps_size_example :
  let st := handleCanvasMouseDown (cropping_state (mkCrop 0 0 20.3 20.3))
                                  (mkPoint 10 10) in
  let r' := crop (handleCanvasMouseMove example_canvas st (mkPoint 500 500)) in
  dragMode st = Some Move /\
  r' = mkCrop 79.700000000000003 29.699999999999999 20.3 20.3 /\
  width r' = width (crop st) /\ height r' = height (crop st) /\
  axis_nearly_inside (canvas_width example_canvas) (x r') (width r').
Proof.
  cbn zeta.
  pose (H := C9_move_keeps_size example_canvas
               (handleCanvasMouseDown (cropping_state (mkCrop 0 0 20.3 20.3))
                                      (mkPoint 10 10))
               (mkPoint 500 500) eq_refl eq_refl eq_refl eq_refl eq_refl eq_refl
               eq_refl eq_refl eq_refl eq_refl).
  split; [reflexivity|]. split; [reflexivity|].
  split; [exact (proj1 H)|]. split; [exact (proj1 (proj2 H))|].
  exact (proj1 (proj2 (proj2 (proj2 (proj2 (proj2 (proj2 H)))))) eq_refl).
Defined.

(** C10, as stated, fails in two ways.  Where hit-zones overlap: on
    [{0,0,10,10}] the point (4,6) is at distance exactly 6, on both axes,
    from the NE corner (10,0), yet it is classified as [nw], whose zone
    also holds it and is tested first.  And by rounding: on
    [{1, 10, 15.1, 30}] the point [(10.1, 4)] is at distance exactly 6, on
    both axes, from the exact NE corner and in no other zone, yet it is
    classified as [draw]. *)
Lemma C10_boundary_point_other_mode :
  (on_exact_zone_corner (mkPoint 4 6) example_rect CornerNE /\
   dragMode (handleCanvasMouseDown (cropping_state example_rect) (mkPoint 4 6))
   = Some Nw /\
   Some Nw <> Some (corner_mode CornerNE)) /\
  (on_exact_zone_corner (mkPoint 10.1 4) (mkCrop 1 10 15.1 30) CornerNE /\
   dragMode (handleCanvasMouseDown (cropping_state (mkCrop 1 10 15.1 30))
                                   (mkPoint 10.1 4))
   = Some Draw).
Proof.
  split.
  - split; [split; vm_compute; reflexivity|]. split; [reflexivity|discriminate].
  - split; [split; vm_compute; reflexivity|]. reflexivity.
Qed.

(** C10, amended: the hit test is boundary-inclusive.  A pointer whose
    horizontal and vertical distances from a corner are both exactly 6 is
    classified as a corner resize mode, never as [move] or [draw],
    provided the corner's position and the bounds of its zone are
    computed without rounding error; so is a pointer whose coordinates
    are the bounds [corner - 6] or [corner + 6] as binary64 computes
    them.  The mode is that of the corner, unless the zone of a corner
    tested earlier (order NW, NE, SW, SE) also holds the pointer, in which
    case it is the mode of the first such corner. *)
Theorem C10_handle_boundary_inclusive (st : AppState) (pt : Point) (c : Corner) :
  isCropping st = true -> isLoading st = false ->
  on_zone_edge pt (crop st) c ->
  let st' := handleCanvasMouseDown st pt in
  hits pt (crop st) c /\
  (exists c',
     (c' = c \/ earlier c' c) /\
     hits pt (crop st) c' /\
     (forall c'', earlier c'' c' -> ~ hits pt (crop st) c'') /\
     dragMode st' = Some (corner_mode c')) /\
  ((forall c', earlier c' c -> ~ hits pt (crop st) c') ->
   dragMode st' = Some (corner_mode c)) /\
  dragMode st' <> Some Move /\ dragMode st' <> Some Draw.
Proof.
  intros Hc Hl Hedge. cbn zeta.
  assert (Hhit : hits pt (crop st) c).
  { destruct Hedge as [(Hz & Hf & [Hx Hy]) | ([Hox Hoy] & [Hx Hy])].
    - apply (hits_exact pt (crop st) c Hz Hf).
      split; [rewrite Hx | rewrite Hy]; apply Qle_refl.
    - unfold hits, in_hit_zone.
      destruct (leb_numbers _ _ Hox) as [Hx1 Hx2].
      destruct (leb_numbers _ _ Hoy) as [Hy1 Hy2].
      destruct Hx as [-> | ->], Hy as [-> | ->];
        repeat split; try assumption; by apply leb_refl. }
  split; [exact Hhit|].
  destruct (first_hit_exists pt (crop st) c Hhit) as (c' & Hord & Hhit' & Hfirst).
  destruct (mouseDown_first_hit st pt c' Hc Hl Hhit' Hfirst) as (Hm & _ & _).
  split; [by exists c'|]. split.
  - intros Hnone. destruct Hord as [->|He]; [exact Hm|].
    by destruct (Hnone c' He).
  - rewrite Hm. split; destruct c'; discriminate.
Qed.

Lemma C10_handle_boundary_example :
  let st := cropping_state (mkCrop 0 0 100 40) in
  let pt := mkPoint 106 (-6) in
  zone_exact (crop st) CornerNE /\ finite_point pt /\
  on_exact_zone_corner pt (crop st) CornerNE /\
  dragMode (handleCanvasMouseDown st pt) = Some (corner_mode CornerNE) /\
  dragMode (handleCanvasMouseDown st pt) <> Some Move /\
  dragMode (handleCanvasMouseDown st pt) <> Some Draw.
Proof.
  cbn zeta.
  assert (Hz : zone_exact (crop (cropping_state (mkCrop 0 0 100 40))) CornerNE).
  { repeat split; try reflexivity; vm_compute; reflexivity. }
  assert (Hf : finite_point (mkPoint 106 (-6))) by (split; reflexivity).
  assert (Hon : on_exact_zone_corner (mkPoint 106 (-6))
                  (crop (cropping_state (mkCrop 0 0 100 40))) CornerNE)
    by (split; vm_compute; reflexivity).
  split; [exact Hz|]. split; [exact Hf|]. split; [exact Hon|].
  pose (H := C10_handle_boundary_inclusive (cropping_state (mkCrop 0 0 100 40))
               (mkPoint 106 (-6)) CornerNE eq_refl eq_refl
               (or_introl (conj Hz (conj Hf Hon)))).
  split; [|exact (proj2 (proj2 (proj2 H)))].
  apply (proj1 (proj2 (proj2 H))).
  intros c' He. unfold earlier in He.
  destruct c'; cbn in He; try lia.
  apply hitsb_false. reflexivity.
Defined.

End CropClaims.

(* ===================================================================== *)
(** * Part III.  Further properties of the code                           *)
(* ===================================================================== *)

(** ** More on binary64 comparisons *)

Module FloatOrderMore.

Lemma SF_lt_le_trans a b c :
  SFltb a b = true -> SFleb b c = true -> SFltb a c = true.
Proof.
  unfold SFleb, SFltb.
  destruct a as [sa|sa| |sa ma ea], b as [sb|sb| |sb mb eb],
           c as [sc|sc| |sc mc ec]; simpl;
    try discriminate;
    repeat match goal with s : bool |- _ => destruct s end; simpl;
    try discriminate; try reflexivity.
  all: change (PosDef.Pos.compare_cont Eq) with Pos.compare;
    destruct (Z.compare_spec ea eb), (Z.compare_spec eb ec), (Z.compare_spec ea ec);
    simpl; try discriminate; try reflexivity; try lia;
    destruct (Pos.compare_spec ma mb), (Pos.compare_spec mb mc),
             (Pos.compare_spec ma mc);
    simpl; try discriminate; try reflexivity; try lia.
Qed.

(** [a < b <= c] gives [a < c]. *)
Lemma lt_le_trans (a b c : float) :
  PrimFloat.ltb a b = true -> PrimFloat.leb b c = true -> PrimFloat.ltb a c = true.
Proof.
  rewrite FloatAxioms.leb_spec, !FloatAxioms.ltb_spec. apply SF_lt_le_trans.
Qed.

End FloatOrderMore.

(** ** The thresholding loop on arbitrary arrays *)

Module ThresholdMoreFacts.
Import Threshold ThresholdFacts ThresholdMore.

(** An iteration placed after a prefix works on the rest alone. *)
Lemma processPixel_shift p (pre data : list Z) (i : nat) :
  processPixel p (pre ++ data) (length pre + i) = pre ++ processPixel p data i.
Proof.
  unfold processPixel.
  rewrite !(lookup_app_r pre data) by lia.
  replace (length pre + i - length pre)%nat with i by lia.
  replace (length pre + i + 1 - length pre)%nat with (i + 1)%nat by lia.
  replace (length pre + i + 2 - length pre)%nat with (i + 2)%nat by lia.
  replace (length pre + i + 3 - length pre)%nat with (i + 3)%nat by lia.
  destruct (_ || _).
  - by rewrite <- Nat.add_assoc, insert_app_r.
  - rewrite <- !Nat.add_assoc. by rewrite !insert_app_r.
Qed.

Lemma processLoop_shift p (fuel : nat) :
  forall (i : nat) (pre data : list Z),
    processLoop p fuel (length pre + i) (pre ++ data)
    = pre ++ processLoop p fuel i data.
Proof.
  induction fuel as [|f IH]; intros i pre data; cbn [processLoop]; [done|].
  rewrite length_app.
  destruct (Nat.ltb_spec (length pre + i) (length pre + length data));
    destruct (Nat.ltb_spec i (length data)); try lia; [|done].
  rewrite processPixel_shift, <- Nat.add_assoc. apply IH.
Qed.

(** The first iteration, whatever follows the first pixel. *)
Lemma processPixel_head p (px : Pixel) (tail : list Z) :
  processPixel p (red px :: green px :: blue px :: alpha px :: tail) 0
  = encode [thresholdPixel p px] ++ tail.
Proof.
  destruct px as [r g b a]. unfold processPixel, thresholdPixel, fails_luminance,
    fails_alpha. cbn [red green blue alpha lookup list_lookup Nat.add].
  destruct (_ || _); reflexivity.
Qed.

(** Whole pixels at the front are rewritten on their own; the loop then
    carries on with what follows them. *)
Lemma processLoop_prefix p (ps : list Pixel) :
  forall (fuel : nat) (rest : list Z),
    (length ps <= fuel)%nat ->
    processLoop p fuel 0 (encode ps ++ rest)
    = encode (thresholdPixel p <$> ps) ++ processLoop p (fuel - length ps) 0 rest.
Proof.
  induction ps as [|px ps IH]; intros fuel rest Hfuel.
  - cbn. by rewrite Nat.sub_0_r.
  - destruct fuel as [|f]; [cbn in Hfuel; lia|].
    cbn [processLoop encode app length].
    destruct (Nat.ltb_spec 0 (S (S (S (S (length (encode ps ++ rest)))))));
      [|lia].
    rewrite processPixel_head.
    change (0 + 4)%nat with (length (encode [thresholdPixel p px]) + 0)%nat.
    rewrite processLoop_shift, IH by (cbn in Hfuel; lia).
    cbn [fmap list_fmap encode app length Nat.sub]. reflexivity.
Qed.

Lemma processImage_prefix p (ps : list Pixel) (rest : list Z) :
  processImage p (encode ps ++ rest)
  = encode (thresholdPixel p <$> ps) ++ processImage p rest.
Proof.
  unfold processImage at 1.
  rewrite processLoop_prefix by (rewrite length_app, encode_length; lia).
  f_equal. apply processImage_fuel.
  rewrite length_app, encode_length. lia.
Qed.

(** One iteration only ever stores [0] or [255]. *)
Lemma processPixel_bytes p (data : list Z) (i j : nat) (v : Z) :
  processPixel p data i !! j = Some v ->
  v = 0%Z \/ v = 255%Z \/ data !! j = Some v.
Proof.
  unfold processPixel.
  assert (Hins : forall (l : list Z) (k : nat) (c : Z),
             <[k := c]> l !! j = Some v -> v = c \/ l !! j = Some v).
  { intros l k c H. destruct (decide (k = j)) as [->|Hne].
    - destruct (decide (j < length l)%nat) as [Hlt|Hge].
      + rewrite list_lookup_insert_eq in H by done. left. congruence.
      + rewrite list_insert_ge in H by lia. by right.
    - rewrite list_lookup_insert_ne in H by done. by right. }
  destruct (_ || _); intros H.
  - apply Hins in H as [->|H]; auto.
  - apply Hins in H as [->|H]; auto.
    apply Hins in H as [->|H]; auto.
    apply Hins in H as [->|H]; auto.
    apply Hins in H as [->|H]; auto.
Qed.

Lemma processLoop_bytes p (fuel : nat) :
  forall (i : nat) (data : list Z) (j : nat) (v : Z),
    processLoop p fuel i data !! j = Some v ->
    v = 0%Z \/ v = 255%Z \/ data !! j = Some v.
Proof.
  induction fuel as [|f IH]; intros i data j v H; cbn [processLoop] in H; [auto|].
  destruct (i <? length data)%nat; [|auto].
  apply IH in H as [->|[->|H]]; auto.
  by apply processPixel_bytes in H.
Qed.

Lemma byte_le_255 (a : Z) :
  is_byte a -> PrimFloat.leb (js_number (Some a)) 255 = true.
Proof.
  intros [H0 H255].
  assert (Hall : forallb (fun n => PrimFloat.leb (js_number (Some (Z.of_nat n))) 255)
                         (seq 0 256) = true) by (vm_compute; reflexivity).
  rewrite forallb_forall in Hall.
  specialize (Hall (Z.to_nat a)). rewrite Z2Nat.id in Hall by lia.
  apply Hall, in_seq. lia.
Qed.

Lemma byte_ge_0 (a : Z) :
  is_byte a -> PrimFloat.leb 0 (js_number (Some a)) = true.
Proof.
  intros [H0 H255].
  assert (Hall : forallb (fun n => PrimFloat.leb 0 (js_number (Some (Z.of_nat n))))
                         (seq 0 256) = true) by (vm_compute; reflexivity).
  rewrite forallb_forall in Hall.
  specialize (Hall (Z.to_nat a)). rewrite Z2Nat.id in Hall by lia.
  apply Hall, in_seq. lia.
Qed.

(** The luminance test on gray pixels against integer thresholds, checked
    on all 256 x 256 pairs. *)
Lemma gray_table :
  forallb (fun v =>
    forallb (fun t =>
      Bool.eqb (fails_luminance (mkParams (integerThreshold (Z.of_nat t)) 0)
                                (gray (Z.of_nat v) 0))
               (Z.of_nat t <? Z.of_nat v)%Z)
      (seq 0 256))
    (seq 0 256) = true.
Proof. vm_compute. reflexivity. Qed.

Lemma wf_buffer_bytes (w h : nat) (data : list Z) (k : nat) (px : Pixel) :
  wf_buffer w h data -> pixel_at data k = Some px ->
  is_byte (red px) /\ is_byte (green px) /\ is_byte (blue px) /\ is_byte (alpha px).
Proof.
  intros Hwf Hpx. destruct (wf_buffer_decode _ _ _ Hwf) as (ps & -> & _).
  destruct Hwf as (_ & _ & _ & Hbytes).
  apply ThresholdClaims.Forall_encode in Hbytes.
  rewrite pixel_at_encode in Hpx.
  rewrite Forall_lookup in Hbytes. exact (Hbytes k px Hpx).
Qed.

End ThresholdMoreFacts.

(** ** The thresholding engine: further properties *)

Module ThresholdExtras.
Import Threshold ThresholdFacts ThresholdMore ThresholdMoreFacts.

(** On any array, of any length, the pixel pass keeps the length, and every
    byte of the result is the byte that was there, [0] or [255]. *)
Theorem processImage_any_array (p : ThresholdParams) (data : list Z) :
  length (processImage p data) = length data /\
  forall (j : nat) (v : Z),
    processImage p data !! j = Some v ->
    v = 0%Z \/ v = 255%Z \/ data !! j = Some v.
Proof.
  split; [apply processImage_length|].
  intros j v H. unfold processImage in H. by apply processLoop_bytes in H.
Qed.

(** Pixels are processed independently: the pass over an array that starts
    with whole pixels is the pass over those pixels followed by the pass
    over the rest. *)
Theorem processImage_app (p : ThresholdParams) (a b : list Z) (n : nat) :
  length a = (4 * n)%nat ->
  processImage p (a ++ b) = processImage p a ++ processImage p b.
Proof.
  intros Hlen. destruct (decode n a Hlen) as (ps & -> & _).
  by rewrite processImage_prefix, processImage_encode.
Qed.

Lemma processImage_app_example :
  processImage example_params ([10; 10; 10; 255] ++ [250; 250; 250; 255; 7; 7])%Z
  = processImage example_params [10; 10; 10; 255]%Z
    ++ processImage example_params [250; 250; 250; 255; 7; 7]%Z.
Proof.
  apply (processImage_app example_params [10; 10; 10; 255]%Z
           [250; 250; 250; 255; 7; 7]%Z 1).
  reflexivity.
Defined.

(** Raising the alpha cutoff, with the luminance threshold fixed, never
    turns a background pixel into ink: background stays background, and
    what is ink under the higher cutoff was ink under the lower one. *)
Theorem alpha_threshold_monotone (w h : nat) (data : list Z)
    (low high : ThresholdParams) :
  wf_buffer w h data ->
  luminanceThreshold low = luminanceThreshold high ->
  PrimFloat.leb (alphaThreshold low) (alphaThreshold high) = true ->
  forall k, (k < w * h)%nat ->
    exists px_low px_high,
      pixel_at (processImage low data) k = Some px_low /\
      pixel_at (processImage high data) k = Some px_high /\
      (is_background px_low -> is_background px_high) /\
      (is_ink px_high -> is_ink px_low).
Proof.
  intros Hwf HT HA k Hk.
  destruct (ThresholdClaims.wf_buffer_pixel _ _ _ k Hwf Hk) as [px Hpx].
  exists (thresholdPixel low px), (thresholdPixel high px).
  rewrite !(pixel_at_processImage _ w h) by exact Hwf. rewrite Hpx.
  split; [done|]. split; [done|].
  unfold is_background, is_ink, thresholdPixel, fails_luminance, fails_alpha.
  rewrite <- HT.
  destruct (gtb _ (luminanceThreshold low)); cbn [orb alpha];
    [split; [done|discriminate]|].
  destruct (PrimFloat.ltb (js_number (Some (alpha px))) (alphaThreshold low)) eqn:EL.
  - rewrite (FloatOrderMore.lt_le_trans _ _ _ EL HA). cbn [alpha].
    split; [done|discriminate].
  - cbn [alpha]. split; [discriminate|done].
Qed.

Lemma alpha_threshold_monotone_example :
  wf_buffer 4 1 example_image /\
  forall k, (k < 4 * 1)%nat ->
    exists px_low px_high,
      pixel_at (processImage (mkParams 200 50) example_image) k = Some px_low /\
      pixel_at (processImage (mkParams 200 220) example_image) k = Some px_high /\
      (is_background px_low -> is_background px_high) /\
      (is_ink px_high -> is_ink px_low).
Proof.
  assert (Hwf : wf_buffer 4 1 example_image).
  { unfold wf_buffer, example_image, is_byte.
    repeat split; [lia | lia | repeat constructor; lia]. }
  split; [exact Hwf|].
  apply (alpha_threshold_monotone 4 1 example_image (mkParams 200 50)
           (mkParams 200 220) Hwf).
  - reflexivity.
  - vm_compute; reflexivity.
Defined.

(** On gray pixels the binary64 luminance test is the integer comparison:
    with an integer threshold [t] in [0, 255], a gray pixel of level [v]
    that passes the alpha test becomes ink when [v <= t] and background
    (alpha cleared) when [v > t]. *)
Theorem gray_pixel_threshold (w h : nat) (data : list Z) (k : nat)
    (v a t : Z) (cutoff : float) :
  wf_buffer w h data ->
  pixel_at data k = Some (gray v a) ->
  is_byte t ->
  PrimFloat.ltb (js_number (Some a)) cutoff = false ->
  pixel_at (processImage (mkParams (integerThreshold t) cutoff) data) k
  = Some (if (t <? v)%Z then gray v 0 else ink).
Proof.
  intros Hwf Hpx Ht Ha.
  destruct (wf_buffer_bytes _ _ _ _ _ Hwf Hpx) as (Hv & _).
  cbn [gray red] in Hv.
  rewrite (pixel_at_processImage _ w h) by exact Hwf. rewrite Hpx.
  cbn [fmap option_fmap option_map]. f_equal.
  pose proof gray_table as Htab. rewrite forallb_forall in Htab.
  specialize (Htab (Z.to_nat v)). rewrite forallb_forall in Htab.
  specialize (Htab ltac:(apply in_seq; unfold is_byte in Hv; lia) (Z.to_nat t)
                   ltac:(apply in_seq; unfold is_byte in Ht; lia)).
  unfold is_byte in Hv, Ht. rewrite !Z2Nat.id in Htab by lia.
  apply eqb_prop in Htab.
  assert (HL : fails_luminance (mkParams (integerThreshold t) cutoff) (gray v a)
               = (t <? v)%Z) by (rewrite <- Htab; reflexivity).
  assert (HA : fails_alpha (mkParams (integerThreshold t) cutoff) (gray v a) = false)
    by exact Ha.
  unfold thresholdPixel. rewrite HL, HA, orb_false_r.
  destruct (t <? v)%Z; reflexivity.
Qed.

Lemma gray_pixel_threshold_example :
  pixel_at (processImage (mkParams (integerThreshold 200) 50) [200; 200; 200; 255]%Z) 0
  = Some ink.
Proof.
  refine (gray_pixel_threshold 1 1 [200; 200; 200; 255]%Z 0 200 255 200 50 _ _ _ _).
  - unfold wf_buffer, is_byte. repeat split; [lia | lia | repeat constructor; lia].
  - reflexivity.
  - unfold is_byte. lia.
  - vm_compute; reflexivity.
Defined.

(** The two ends of the alpha cutoff.  At [0] (the slider's minimum) or
    below, the alpha test never fails and only the luminance decides; above
    [255] every pixel fails it: the pass clears every alpha and leaves the
    colours. *)
Theorem alpha_cutoff_extremes (w h : nat) (data : list Z) (p : ThresholdParams) :
  wf_buffer w h data ->
  (PrimFloat.leb (alphaThreshold p) 0 = true ->
   forall k px, pixel_at data k = Some px ->
     pixel_at (processImage p data) k
     = Some (if fails_luminance p px
             then mkPixel (red px) (green px) (blue px) 0 else ink)) /\
  (PrimFloat.ltb 255 (alphaThreshold p) = true ->
   forall k px, pixel_at data k = Some px ->
     pixel_at (processImage p data) k
     = Some (mkPixel (red px) (green px) (blue px) 0)).
Proof.
  intros Hwf. split; intros Hc k px Hpx;
    destruct (wf_buffer_bytes _ _ _ _ _ Hwf Hpx) as (_ & _ & _ & Ha);
    rewrite (pixel_at_processImage _ w h) by exact Hwf; rewrite Hpx;
    cbn [fmap option_fmap option_map]; f_equal; unfold thresholdPixel.
  - assert (E : fails_alpha p px = false).
    { unfold fails_alpha.
      destruct (PrimFloat.ltb (js_number (Some (alpha px))) (alphaThreshold p)) eqn:E;
        [|done].
      pose proof (FloatOrder.le_lt_trans _ _ _ (byte_ge_0 _ Ha) E) as H0.
      rewrite (FloatOrder.leb_not_gt _ _ Hc) in H0. discriminate. }
    by rewrite E, orb_false_r.
  - assert (E : fails_alpha p px = true).
    { unfold fails_alpha. exact (FloatOrder.le_lt_trans _ _ _ (byte_le_255 _ Ha) Hc). }
    by rewrite E, orb_true_r.
Qed.

Lemma alpha_cutoff_extremes_example :
  (forall k px, pixel_at example_image k = Some px ->
     pixel_at (processImage (mkParams 200 0) example_image) k
     = Some (if fails_luminance (mkParams 200 0) px
             then mkPixel (red px) (green px) (blue px) 0 else ink)) /\
  (forall k px, pixel_at example_image k = Some px ->
     pixel_at (processImage (mkParams 200 256) example_image) k
     = Some (mkPixel (red px) (green px) (blue px) 0)).
Proof.
  assert (Hwf : wf_buffer 4 1 example_image).
  { unfold wf_buffer, example_image, is_byte.
    repeat split; [lia | lia | repeat constructor; lia]. }
  split.
  - apply (proj1 (alpha_cutoff_extremes 4 1 example_image (mkParams 200 0) Hwf)).
    vm_compute; reflexivity.
  - apply (proj2 (alpha_cutoff_extremes 4 1 example_image (mkParams 200 256) Hwf)).
    vm_compute; reflexivity.
Defined.

(** A thresholded buffer is left alone by a second pass with any other
    parameters, provided the second luminance threshold is at least [0] and
    the second alpha cutoff lies in (0, 255]. *)
Theorem rethreshold_fixed (w h : nat) (data : list Z) (p1 p2 : ThresholdParams) :
  wf_buffer w h data ->
  PrimFloat.leb 0 (luminanceThreshold p2) = true ->
  PrimFloat.ltb 0 (alphaThreshold p2) = true ->
  PrimFloat.leb (alphaThreshold p2) 255 = true ->
  processImage p2 (processImage p1 data) = processImage p1 data.
Proof.
  intros Hwf HT Hpos H255.
  destruct (wf_buffer_decode _ _ _ Hwf) as (ps & -> & _).
  rewrite !processImage_encode. f_equal.
  rewrite <- list_fmap_compose. apply list_fmap_ext. intros i px Hi.
  unfold compose. remember (thresholdPixel p1 px) as q eqn:Eq.
  unfold thresholdPixel in Eq.
  destruct (fails_luminance p1 px || fails_alpha p1 px); subst q.
  - unfold thresholdPixel, fails_alpha. cbn [alpha].
    change (js_number (Some 0%Z)) with 0%float. by rewrite Hpos, orb_true_r.
  - unfold thresholdPixel, fails_luminance, fails_alpha, gtb.
    cbn [red green blue alpha].
    change (luminance (js_number (Some 0%Z)) (js_number (Some 0%Z))
                      (js_number (Some 0%Z))) with 0%float.
    change (js_number (Some 255%Z)) with 255%float.
    by rewrite (FloatOrder.leb_not_gt _ _ HT), (FloatOrder.leb_not_gt _ _ H255).
Qed.

Lemma rethreshold_fixed_example :
  processImage (mkParams 30 1) (processImage example_params example_image)
  = processImage example_params example_image.
Proof.
  apply (rethreshold_fixed 4 1 example_image example_params (mkParams 30 1)).
  - unfold wf_buffer, example_image, is_byte.
    repeat split; [lia | lia | repeat constructor; lia].
  - vm_compute; reflexivity.
  - vm_compute; reflexivity.
  - vm_compute; reflexivity.
Defined.

(** With a cutoff of [0] the second pass is not the identity: a background
    pixel kept its colour bytes, and passes both tests again. *)
Remark rethreshold_cutoff_zero :
  processImage (mkParams 255 0) (processImage example_params example_image)
  <> processImage example_params example_image.
Proof. vm_compute. discriminate. Qed.

End ThresholdExtras.

(** ** The crop geometry controller: further properties *)

Module CropExtras.
Import JSNumber Crop Float64Facts CropFacts.

(** A [move] step reads nothing of the previous rectangle but its
    size. *)
Lemma updateDrag_move_size (canvas : Canvas) (off start : Point) (cx cy : float)
    (a b : CropRect) :
  width a = width b -> height a = height b ->
  updateDrag canvas (Some Move) off start cx cy a
  = updateDrag canvas (Some Move) off start cx cy b.
Proof. intros Hw Hh. unfold updateDrag. by rewrite Hw, Hh. Qed.

(** Moving has no memory: in [move] mode, on a canvas whose width and
    height are unsigned longs, for a rectangle whose width and height are
    not below [0] and not above the canvas size, the rectangle after two
    pointer moves is the one the second move alone would give; the first
    move leaves width and height as they were. *)
Theorem move_depends_on_last_point (canvas : Canvas) (off start p1 p2 : Point)
    (r : CropRect) :
  unsigned_long (canvas_width canvas) -> unsigned_long (canvas_height canvas) ->
  PrimFloat.ltb (width r) 0 = false ->
  PrimFloat.leb (width r) (number_of_N (canvas_width canvas)) = true ->
  PrimFloat.ltb (height r) 0 = false ->
  PrimFloat.leb (height r) (number_of_N (canvas_height canvas)) = true ->
  let r1 := updateDrag canvas (Some Move) off start (px p1) (py p1) r in
  width r1 = width r /\ height r1 = height r /\
  updateDrag canvas (Some Move) off start (px p2) (py p2) r1
  = updateDrag canvas (Some Move) off start (px p2) (py p2) r.
Proof.
  intros Hnw Hnh Hw Hwc Hh Hhc. cbn zeta.
  destruct (updateDrag_move_keeps canvas off start (px p1) (py p1) r
              Hnw Hnh Hw Hwc Hh Hhc) as [Ew Eh].
  split; [exact Ew|]. split; [exact Eh|].
  by apply updateDrag_move_size.
Qed.

Lemma move_depends_on_last_point_example :
  let r := mkCrop 0 0 20.3 20.3 in
  let off := mkPoint 10 10 in
  let r1 := updateDrag example_canvas (Some Move) off (mkPoint 0 0) 500 500 r in
  r1 = mkCrop 79.700000000000003 29.699999999999999 20.3 20.3 /\
  updateDrag example_canvas (Some Move) off (mkPoint 0 0) 35 45 r1
  = updateDrag example_canvas (Some Move) off (mkPoint 0 0) 35 45 r /\
  updateDrag example_canvas (Some Move) off (mkPoint 0 0) 35 45 r
  = mkCrop 25 29.699999999999999 20.3 20.3.
Proof.
  cbn zeta. split; [reflexivity|]. split; [|reflexivity].
  exact (proj2 (proj2 (move_depends_on_last_point example_canvas (mkPoint 10 10)
                         (mkPoint 0 0) (mkPoint 500 500) (mkPoint 35 45)
                         (mkCrop 0 0 20.3 20.3)
                         eq_refl eq_refl eq_refl eq_refl eq_refl eq_refl))).
Defined.

End CropExtras.

(** ** Handlers, buttons and the event loop: further properties *)

Module HandlerExtras.
Import JSNumber Crop Float64Facts CropFacts App.

(** The cursor shown while hovering announces the drag that a pointer-down
    at the same place starts: a resize cursor over a handle, [grab] inside
    the rectangle, [crosshair] elsewhere. *)
Theorem hover_cursor_announces_mode (canvas : Canvas) (st : AppState) (pt : Point) :
  isCropping st = true -> isLoading st = false -> isDragging st = false ->
  exists m,
    dragMode (handleCanvasMouseDown st pt) = Some m /\
    currentCursor (handleCanvasMouseMove canvas st pt) = cursorFor m.
Proof.
  intros Hc Hl Hd.
  rewrite handleCanvasMouseDown_unfold by assumption.
  unfold handleCanvasMouseMove, hoverCursor, hitsb. rewrite Hc, Hl, Hd.
  cbn [negb andb orb corner_x corner_y].
  destruct (isInsideHandle (px pt) (py pt) (x (crop st)) (y (crop st)));
    [exists Nw; done|].
  destruct (isInsideHandle (px pt) (py pt) (x (crop st) + width (crop st))
              (y (crop st))); [exists Ne; done|].
  destruct (isInsideHandle (px pt) (py pt) (x (crop st))
              (y (crop st) + height (crop st))); [exists Sw; done|].
  destruct (isInsideHandle (px pt) (py pt) (x (crop st) + width (crop st))
              (y (crop st) + height (crop st))); [exists Se; done|].
  destruct (insideCrop (px pt) (py pt) (crop st)); [exists Move; done|].
  exists Draw; done.
Qed.

Lemma hover_cursor_announces_mode_example :
  exists m,
    dragMode (handleCanvasMouseDown (cropping_state (mkCrop 10 10 40 20))
                                    (mkPoint 30 20)) = Some m /\
    currentCursor (handleCanvasMouseMove example_canvas
                     (cropping_state (mkCrop 10 10 40 20)) (mkPoint 30 20))
    = cursorFor m.
Proof.
  exact (hover_cursor_announces_mode example_canvas
           (cropping_state (mkCrop 10 10 40 20)) (mkPoint 30 20)
           eq_refl eq_refl eq_refl).
Defined.

(** What pointer events never do.  A pointer move writes nothing but the
    rectangle and the cursor; outside crop mode, while loading, or with no
    drag active it leaves the rectangle alone; and outside crop mode or while
    loading a pointer-down changes nothing at all. *)
Theorem pointer_events_guarded (canvas : Canvas) (st : AppState) (pt : Point) :
  let st' := handleCanvasMouseMove canvas st pt in
  (processedImageUrl st' = processedImageUrl st /\
   isLoading st' = isLoading st /\ error st' = error st /\
   isCropping st' = isCropping st /\ isDragging st' = isDragging st /\
   dragMode st' = dragMode st /\ dragOffset st' = dragOffset st /\
   startPoint st' = startPoint st) /\
  (isCropping st = false \/ isLoading st = true \/ isDragging st = false ->
   crop st' = crop st) /\
  (isCropping st = false \/ isLoading st = true ->
   handleCanvasMouseDown st pt = st).
Proof.
  cbn zeta. split; [apply handleCanvasMouseMove_frame|]. split.
  - apply pointer_move_guarded.
  - intros H. unfold handleCanvasMouseDown.
    destruct H as [-> | ->]; [done|]. by rewrite orb_true_r.
Qed.

(** Ending a drag: the handler shared by mouse-up, mouse-leave, touch-end
    and touch-cancel clears the drag, keeps the rectangle, is idempotent,
    and pointer moves that follow leave the rectangle alone. *)
Theorem mouseUp_ends_drag (st : AppState) :
  let st' := handleCanvasMouseUp st in
  isDragging st' = false /\ dragMode st' = None /\ crop st' = crop st /\
  handleCanvasMouseUp st' = st' /\
  forall canvas pt, crop (handleCanvasMouseMove canvas st' pt) = crop st.
Proof.
  cbn zeta.
  assert (H : isDragging (handleCanvasMouseUp st) = false /\
              dragMode (handleCanvasMouseUp st) = None /\
              crop (handleCanvasMouseUp st) = crop st).
  { unfold handleCanvasMouseUp. destruct (isCropping st); done. }
  destruct H as (Hd & Hm & Hcrop). repeat split; try assumption.
  - destruct st as [url ld err cropping dragging mode c off sp cur].
    unfold handleCanvasMouseUp. cbn. destruct cropping; reflexivity.
  - intros canvas pt.
    rewrite pointer_move_guarded by auto. exact Hcrop.
Qed.

End HandlerExtras.

(** ** Apply, buttons and the event loop *)

Module AppExtras.
Import JSNumber Crop Float64Facts CropFacts App.

(** [handleApplyCrop] never succeeds twice in a row: whatever the first
    call did, a second call on the same canvas reports the invalid-crop
    error and keeps the image and rectangle the first call left. *)
Theorem applyCrop_twice
    (toDataURL : Canvas -> float -> float -> float -> float -> string)
    (canvas : option Canvas) (st : AppState) :
  let st1 := handleApplyCrop toDataURL canvas st in
  let st2 := handleApplyCrop toDataURL canvas st1 in
  st2 = setError invalidCropMessage st1.
Proof.
  cbn zeta. unfold handleApplyCrop at 2.
  destruct canvas as [cv|]; [|done].
  unfold handleApplyCrop.
  destruct (noUrl (processedImageUrl st) || PrimFloat.eqb (width (crop st)) 0
            || PrimFloat.eqb (height (crop st)) 0) eqn:E.
  - cbn [setError processedImageUrl crop]. by rewrite E.
  - cbn [setCrop crop width]. change (PrimFloat.eqb 0 0) with true.
    by rewrite orb_true_r.
Qed.

(** The whole canvas as a rectangle: it lies in the canvas and covers
    exactly the canvas area. *)
Lemma fullCanvasCrop_covers (cv : Canvas) :
  unsigned_long (canvas_width cv) -> unsigned_long (canvas_height cv) ->
  contained cv (fullCanvasCrop cv) /\
  forall vx vy : Q, covers (fullCanvasCrop cv) vx vy <-> in_canvas cv vx vy.
Proof.
  intros Hw Hh.
  destruct (F2Q_number_of_N _ Hw) as [_ Ew].
  destruct (F2Q_number_of_N _ Hh) as [_ Eh].
  assert (Hw0 : (0 <= inject_Z (Z.of_N (canvas_width cv)))%Q)
    by (unfold Qle; cbn; lia).
  assert (Hh0 : (0 <= inject_Z (Z.of_N (canvas_height cv)))%Q)
    by (unfold Qle; cbn; lia).
  unfold contained, covers, between, in_canvas, fullCanvasCrop. cbn [x y width height].
  change (F2Q 0) with 0%Q.
  split; [repeat split; lra|].
  intros vx vy.
  destruct (Q.min_spec 0 (0 + F2Q (number_of_N (canvas_width cv)))) as [[? Hm1]|[? Hm1]];
    destruct (Q.max_spec 0 (0 + F2Q (number_of_N (canvas_width cv)))) as [[? Hm2]|[? Hm2]];
    destruct (Q.min_spec 0 (0 + F2Q (number_of_N (canvas_height cv)))) as [[? Hm3]|[? Hm3]];
    destruct (Q.max_spec 0 (0 + F2Q (number_of_N (canvas_height cv)))) as [[? Hm4]|[? Hm4]];
    split; intros Hpt; repeat split; lra.
Qed.

(** "Crop Image" followed by "Apply Crop": on a canvas of non-zero size
    with an image loaded, the rectangle set by "Crop Image" is the whole
    canvas (it lies in the canvas and covers every point of it), and
    applying it raises no error, leaves crop mode and clears the
    rectangle; when the canvas is shown at its pixel size the region
    copied is the whole canvas. *)
Theorem crop_image_then_apply
    (toDataURL : Canvas -> float -> float -> float -> float -> string)
    (cv : Canvas) (st : AppState) :
  noUrl (processedImageUrl st) = false ->
  canvas_width cv <> 0%N -> canvas_height cv <> 0%N ->
  unsigned_long (canvas_width cv) -> unsigned_long (canvas_height cv) ->
  let st1 := onCropImageClick (Some cv) st in
  let st2 := handleApplyCrop toDataURL (Some cv) st1 in
  isCropping st1 = true /\
  crop st1 = mkCrop 0 0 (number_of_N (canvas_width cv)) (number_of_N (canvas_height cv)) /\
  contained cv (crop st1) /\
  (forall vx vy : Q, covers (crop st1) vx vy <-> in_canvas cv vx vy) /\
  error st2 = EmptyString /\ isCropping st2 = false /\ isLoading st2 = false /\
  crop st2 = mkCrop 0 0 0 0 /\
  (client_width cv = number_of_N (canvas_width cv) ->
   client_height cv = number_of_N (canvas_height cv) ->
   processedImageUrl st2
   = Some (toDataURL cv 0%float 0%float (number_of_N (canvas_width cv))
                     (number_of_N (canvas_height cv)))).
Proof.
  intros Hurl Hw Hh Huw Huh. cbn zeta.
  destruct (fullCanvasCrop_covers cv Huw Huh) as [Hcont Hcov].
  split; [done|]. split; [done|]. split; [exact Hcont|]. split; [exact Hcov|].
  unfold handleApplyCrop, onCropImageClick.
  cbn [setCrop setIsCropping processedImageUrl crop width height x y fullCanvasCrop].
  rewrite Hurl, (number_of_N_nonzero _ Hw Huw), (number_of_N_nonzero _ Hh Huh).
  cbn [orb].
  cbn [setCrop setIsCropping setIsLoading setProcessedImageUrl setError
       processedImageUrl error isCropping isLoading crop].
  repeat (split; [reflexivity|]).
  intros -> ->.
  rewrite (number_of_N_div_self _ Hw Huw), (number_of_N_div_self _ Hh Huh).
  by rewrite !mul_one.
Qed.

Lemma crop_image_then_apply_example :
  let st1 := onCropImageClick (Some example_canvas) (cropping_state (mkCrop 0 0 0 0)) in
  let st2 := handleApplyCrop (fun _ _ _ _ _ => "data:,"%string)
                             (Some example_canvas) st1 in
  isCropping st1 = true /\
  crop st1 = mkCrop 0 0 100 50 /\
  error st2 = EmptyString /\ isCropping st2 = false /\ crop st2 = mkCrop 0 0 0 0.
Proof.
  cbn zeta.
  pose (H := crop_image_then_apply (fun _ _ _ _ _ => "data:,"%string) example_canvas
               (cropping_state (mkCrop 0 0 0 0)) eq_refl
               ltac:(discriminate) ltac:(discriminate) eq_refl eq_refl).
  split; [exact (proj1 H)|]. split; [exact (proj1 (proj2 H))|].
  split; [exact (proj1 (proj2 (proj2 (proj2 (proj2 H)))))|].
  split; [exact (proj1 (proj2 (proj2 (proj2 (proj2 (proj2 H))))))|].
  exact (proj1 (proj2 (proj2 (proj2 (proj2 (proj2 (proj2 (proj2 H)))))))).
Defined.

(** When the canvas is shown at its pixel size (scale factors 1), the
    region [handleApplyCrop] asks [drawImage] to copy is the crop rectangle
    itself. *)
Theorem applyCrop_region_unscaled
    (toDataURL : Canvas -> float -> float -> float -> float -> string)
    (cv : Canvas) (st : AppState) :
  noUrl (processedImageUrl st) = false ->
  PrimFloat.eqb (width (crop st)) 0 = false ->
  PrimFloat.eqb (height (crop st)) 0 = false ->
  canvas_width cv <> 0%N -> canvas_height cv <> 0%N ->
  unsigned_long (canvas_width cv) -> unsigned_long (canvas_height cv) ->
  client_width cv = number_of_N (canvas_width cv) ->
  client_height cv = number_of_N (canvas_height cv) ->
  processedImageUrl (handleApplyCrop toDataURL (Some cv) st)
  = Some (toDataURL cv (x (crop st)) (y (crop st))
                    (width (crop st)) (height (crop st))).
Proof.
  intros Hurl Hw Hh Hcw Hch Huw Huh Hsw Hsh.
  unfold handleApplyCrop. rewrite Hurl, Hw, Hh. cbn [orb].
  cbn [setCrop setIsCropping setIsLoading setProcessedImageUrl processedImageUrl].
  rewrite Hsw, Hsh.
  rewrite (number_of_N_div_self _ Hcw Huw), (number_of_N_div_self _ Hch Huh).
  by rewrite !mul_one.
Qed.

Lemma applyCrop_region_unscaled_example :
  processedImageUrl
    (handleApplyCrop (fun _ ax ay aw ah =>
                        if PrimFloat.eqb ax 10 && PrimFloat.eqb ay 10 &&
                           PrimFloat.eqb aw 40 && PrimFloat.eqb ah 20
                        then "data:image/png;base64,crop"%string
                        else "data:,"%string)
                     (Some example_canvas) (cropping_state (mkCrop 10 10 40 20)))
  = Some "data:image/png;base64,crop"%string.
Proof.
  exact (applyCrop_region_unscaled _ example_canvas
           (cropping_state (mkCrop 10 10 40 20))
           eq_refl eq_refl eq_refl ltac:(discriminate) ltac:(discriminate)
           eq_refl eq_refl eq_refl eq_refl).
Defined.

End AppExtras.

(** ** Invariants of the event loop and of a pointer gesture *)

Module EventLoop.
Import JSNumber Crop Float64Facts CropFacts App.

(** The invariant: a drag mode is set exactly while a drag is active. *)
Lemma step_invariant
    (toDataURL : Canvas -> float -> float -> float -> float -> string)
    (s : option File * AppState) (ev : Event) :
  (isDragging (snd s) = true <-> exists m, dragMode (snd s) = Some m) ->
  (isDragging (snd (step toDataURL s ev)) = true
   <-> exists m, dragMode (snd (step toDataURL s ev)) = Some m).
Proof.
  destruct s as [file st]. cbn [snd fst]. intros Hd.
  destruct ev as [pt | canvas pt | | canvas | canvas | re | canvas | files | | re w h
                 | msg | re]; cbn [step snd fst].
  - (* pointer-down *)
    unfold handleCanvasMouseDown.
    destruct (negb (isCropping st) || isLoading st); [done|].
    repeat match goal with
           | |- context [if isInsideHandle ?a ?b ?c ?d then _ else _] =>
               destruct (isInsideHandle a b c d)
           end;
      try solve [cbn; split; eauto].
    destruct (insideCrop (px pt) (py pt) (crop st)); cbn; split; eauto.
  - (* pointer move *)
    destruct (handleCanvasMouseMove_frame canvas st pt)
      as (_ & _ & _ & _ & Ed & Em & _ & _).
    by rewrite Ed, Em.
  - (* pointer up *)
    unfold handleCanvasMouseUp. destruct (isCropping st); cbn;
      (split; [discriminate | intros [m Hm]; discriminate]).
  - (* Crop Image *)
    unfold onCropImageClick. destruct canvas as [cv|]; cbn; apply Hd.
  - (* Apply Crop *)
    unfold handleApplyCrop. destruct canvas as [cv|]; [|cbn; tauto].
    destruct (noUrl (processedImageUrl st) || PrimFloat.eqb (width (crop st)) 0
              || PrimFloat.eqb (height (crop st)) 0); cbn; apply Hd.
  - (* Cancel *)
    unfold onCancelClick, processImageState. destruct re; cbn; apply Hd.
  - (* Reset Crop *)
    unfold onResetCropClick. destruct canvas as [cv|]; cbn; apply Hd.
  - (* upload *)
    unfold handleImageUpload. destruct files as [|f files]; [cbn; tauto|].
    destruct (negb (String.prefix "image/" (file_type f))); cbn; apply Hd.
  - (* load starts *)
    cbn. tauto.
  - (* image loaded *)
    unfold onImageLoad, processImageState. destruct re; cbn; apply Hd.
  - (* load error *)
    cbn. tauto.
  - (* re-threshold *)
    unfold processImageState. destruct re; cbn; tauto.
Qed.

(** The invariant: width and height of the rectangle are not below
    [0]. *)
Lemma step_size_invariant
    (toDataURL : Canvas -> float -> float -> float -> float -> string)
    (s : option File * AppState) (ev : Event) :
  PrimFloat.ltb (width (crop (snd s))) 0 = false /\
  PrimFloat.ltb (height (crop (snd s))) 0 = false ->
  PrimFloat.ltb (width (crop (snd (step toDataURL s ev)))) 0 = false /\
  PrimFloat.ltb (height (crop (snd (step toDataURL s ev)))) 0 = false.
Proof.
  destruct s as [file st]. cbn [snd fst]. intros Hs.
  destruct ev as [pt | canvas pt | | canvas | canvas | re | canvas | files | | re w h
                 | msg | re]; cbn [step snd fst].
  - (* pointer-down *)
    unfold handleCanvasMouseDown.
    destruct (negb (isCropping st) || isLoading st); [exact Hs|].
    repeat match goal with
           | |- context [if isInsideHandle ?a ?b ?c ?d then _ else _] =>
               destruct (isInsideHandle a b c d)
           end;
      try exact Hs.
    destruct (insideCrop (px pt) (py pt) (crop st)); [exact Hs|]. by split.
  - (* pointer move *)
    unfold handleCanvasMouseMove.
    destruct (hoverCursor_frame st (px pt) (py pt)) as [k ->].
    destruct (negb (isDragging st) || negb (isCropping st) || isLoading st);
      [exact Hs|].
    cbn [crop setCrop setCurrentCursor].
    apply updateDrag_size_sign; apply Hs.
  - (* pointer up *)
    unfold handleCanvasMouseUp. by destruct (isCropping st).
  - (* Crop Image *)
    unfold onCropImageClick. destruct canvas as [cv|]; [|exact Hs].
    cbn. split; apply number_of_N_not_neg.
  - (* Apply Crop *)
    unfold handleApplyCrop. destruct canvas as [cv|]; [|exact Hs].
    destruct (noUrl (processedImageUrl st) || PrimFloat.eqb (width (crop st)) 0
              || PrimFloat.eqb (height (crop st)) 0); [exact Hs|]. by split.
  - (* Cancel *)
    unfold onCancelClick, processImageState. by destruct re.
  - (* Reset Crop *)
    unfold onResetCropClick. destruct canvas as [cv|]; [|exact Hs].
    cbn. split; apply number_of_N_not_neg.
  - (* upload *)
    unfold handleImageUpload. destruct files as [|f files]; [exact Hs|].
    by destruct (negb (String.prefix "image/" (file_type f))).
  - (* load starts *)
    exact Hs.
  - (* image loaded *)
    unfold onImageLoad. cbn. split; apply number_of_N_not_neg.
  - (* load error *)
    exact Hs.
  - (* re-threshold *)
    unfold processImageState. by destruct re.
Qed.

Lemma fold_step_invariant
    (toDataURL : Canvas -> float -> float -> float -> float -> string)
    (evs : list Event) :
  forall s : option File * AppState,
    (isDragging (snd s) = true <-> exists m, dragMode (snd s) = Some m) ->
    PrimFloat.ltb (width (crop (snd s))) 0 = false /\
    PrimFloat.ltb (height (crop (snd s))) 0 = false ->
    let s' := fold_left (step toDataURL) evs s in
    (isDragging (snd s') = true <-> exists m, dragMode (snd s') = Some m) /\
    PrimFloat.ltb (width (crop (snd s'))) 0 = false /\
    PrimFloat.ltb (height (crop (snd s'))) 0 = false.
Proof.
  induction evs as [|ev evs IH]; intros s Hs Hz; cbn [fold_left]; [by split|].
  apply IH; [by apply step_invariant | by apply step_size_invariant].
Qed.

(** The moves of a gesture keep the flags and the mode of its start. *)
Lemma dragThrough_frame (canvas : Canvas) (pts : list Point) :
  forall st,
    isCropping (dragThrough canvas st pts) = isCropping st /\
    isLoading (dragThrough canvas st pts) = isLoading st /\
    isDragging (dragThrough canvas st pts) = isDragging st /\
    dragMode (dragThrough canvas st pts) = dragMode st /\
    dragOffset (dragThrough canvas st pts) = dragOffset st /\
    startPoint (dragThrough canvas st pts) = startPoint st.
Proof.
  unfold dragThrough.
  induction pts as [|p pts IH]; intros st; cbn [fold_left]; [done|].
  destruct (IH (handleCanvasMouseMove canvas st p)) as (-> & -> & -> & -> & -> & ->).
  destruct (handleCanvasMouseMove_frame canvas st p)
    as (_ & El & _ & Ec & Ed & Em & Eo & Es).
  done.
Qed.

Lemma mouseDown_flags (st : AppState) (pt : Point) :
  isCropping (handleCanvasMouseDown st pt) = isCropping st /\
  isLoading (handleCanvasMouseDown st pt) = isLoading st.
Proof.
  unfold handleCanvasMouseDown.
  destruct (negb (isCropping st) || isLoading st); [done|].
  destruct (isInsideHandle _ _ _ _); [done|].
  destruct (isInsideHandle _ _ _ _); [done|].
  destruct (isInsideHandle _ _ _ _); [done|].
  destruct (isInsideHandle _ _ _ _); [done|].
  destruct (insideCrop _ _ _); done.
Qed.

End EventLoop.

Module EventLoopExtras.
Import JSNumber Crop Float64Facts CropFacts App EventLoop.

(** After any sequence of events from the initial render, on canvases of
    any size, [dragMode] is set exactly when [isDragging] is true, and
    the width and the height of the crop rectangle are not below [0]. *)
Theorem run_invariant
    (toDataURL : Canvas -> float -> float -> float -> float -> string)
    (evs : list Event) :
  let st := snd (run toDataURL evs) in
  (isDragging st = true <-> exists m, dragMode st = Some m) /\
  PrimFloat.ltb (width (crop st)) 0 = false /\
  PrimFloat.ltb (height (crop st)) 0 = false.
Proof.
  cbn zeta. unfold run. apply fold_step_invariant.
  - cbn [snd initialState isDragging dragMode].
    split; [discriminate | intros [m Hm]; discriminate].
  - by split.
Qed.

(** A whole gesture: after a pointer-down in crop mode and one or more
    pointer moves on a canvas whose width and height are unsigned longs,
    wherever the pointer went and whatever the rectangle was before, the
    drag is still active in the mode the pointer-down chose, and the
    rectangle has been through the boundary check: no field is below
    [0], the far edges as binary64 computes them do not exceed the canvas
    size, and the exact far edges are beyond it by at most the fraction
    [2^-53]. *)
Theorem gesture_clamped (canvas : Canvas) (st : AppState) (p0 p : Point)
    (pts : list Point) :
  isCropping st = true -> isLoading st = false ->
  unsigned_long (canvas_width canvas) -> unsigned_long (canvas_height canvas) ->
  let st' := dragThrough canvas (handleCanvasMouseDown st p0) (pts ++ [p]) in
  isDragging st' = true /\
  dragMode st' = dragMode (handleCanvasMouseDown st p0) /\
  clamped canvas (crop st').
Proof.
  intros Hc Hl Hnw Hnh. cbn zeta.
  destruct (dragThrough_frame canvas (pts ++ [p]) (handleCanvasMouseDown st p0))
    as (_ & _ & Ed' & Em' & _ & _).
  rewrite Ed', Em'.
  split; [by apply mouseDown_isDragging|]. split; [reflexivity|].
  unfold dragThrough. rewrite fold_left_app. cbn [fold_left].
  fold (dragThrough canvas (handleCanvasMouseDown st p0) pts).
  destruct (dragThrough_frame canvas pts (handleCanvasMouseDown st p0))
    as (Ec & El & Ed & Em & _ & _).
  destruct (mouseDown_flags st p0) as (Ec0 & El0).
  destruct (mouseDown_mode_set st p0 Hc Hl) as [m Hm].
  rewrite handleCanvasMouseMove_dragging.
  - cbn [crop setCrop]. rewrite Em, Hm. by apply updateDrag_clamped.
  - by rewrite Ec, Ec0.
  - by rewrite El, El0.
  - rewrite Ed. by apply mouseDown_isDragging.
Qed.

Lemma gesture_clamped_example :
  let st' := dragThrough example_canvas
               (handleCanvasMouseDown (cropping_state (mkCrop 0 0 20.3 20.3))
                                      (mkPoint 10 10))
               ([mkPoint 40 (-7)] ++ [mkPoint 500 500]) in
  isDragging st' = true /\ dragMode st' = Some Move /\
  crop st' = mkCrop 79.700000000000003 29.699999999999999 20.3 20.3 /\
  clamped example_canvas (crop st').
Proof.
  cbn zeta.
  pose (H := gesture_clamped example_canvas (cropping_state (mkCrop 0 0 20.3 20.3))
               (mkPoint 10 10) (mkPoint 500 500) [mkPoint 40 (-7)]
               eq_refl eq_refl eq_refl eq_refl).
  split; [exact (proj1 H)|]. split; [exact (proj1 (proj2 H))|].
  split; [reflexivity|]. exact (proj2 (proj2 H)).
Defined.

End EventLoopExtras.

(** ** Upload *)

Module UploadExtras.
Import JSNumber Crop App.

(** Selecting a file, image or not, discards the processed image: until
    a new one is produced nothing is drawn and "Apply Crop" reports the
    invalid-crop error; crop mode is left and the rectangle cleared.  The
    file is kept exactly when its type starts with [image/], and the
    not-an-image message is set exactly when it does not.  An empty
    selection changes nothing. *)
Theorem upload_discards_image
    (toDataURL : Canvas -> float -> float -> float -> float -> string)
    (canvas : option Canvas) (file : File) (files : list File)
    (s : option File * AppState) :
  let s' := handleImageUpload (file :: files) s in
  drawCanvasContent canvas (snd s') = [] /\
  error (handleApplyCrop toDataURL canvas (snd s')) = invalidCropMessage /\
  isCropping (snd s') = false /\ crop (snd s') = mkCrop 0 0 0 0 /\
  (fst s' = Some file <-> String.prefix "image/" (file_type file) = true) /\
  (error (snd s') = notAnImageMessage
   <-> String.prefix "image/" (file_type file) = false) /\
  handleImageUpload [] s = s.
Proof.
  cbn zeta. unfold handleImageUpload.
  destruct (String.prefix "image/" (file_type file)); cbn [negb fst snd].
  - repeat split; try discriminate; try done.
    + unfold drawCanvasContent. by destruct canvas.
    + unfold handleApplyCrop. by destruct canvas.
  - repeat split; try discriminate; try done.
    + unfold drawCanvasContent. by destruct canvas.
    + unfold handleApplyCrop. by destruct canvas.
Qed.

End UploadExtras.
